(** * preprocess_corpora.preprocessing.tok : the tokenisation front end

    A shallow embedding of [tok.py].  The module reads a UTF-8 text file
    line by line, asks a tokenizer backend for the sentences and words of
    every non-blank line and assembles an lxml tree
    [text / p / s / w] that is written to the output file.

    - Python [str] values are lists of Unicode code points ([list N]).
    - lxml elements are mutable objects: they live in a heap of
      [Element] records and the Python variables [text], [paragraph],
      [sentence] and [word] hold references (indices) into it.
    - The tokenizer libraries (nltk, spacy, stanza), the constants of
      [core.constants], the file system and the shell are parameters.
    - A call ends normally or with an exception: lxml refuses strings
      that are not XML compatible, a file may be missing, unreadable as
      UTF-8 or not writable, and what [nlp(line).to_dict()] gives depends
      on the library the pipeline comes from. *)

From Stdlib Require Import NArith ZArith Ascii String Decimal DecimalNat Lia.
From stdpp Require Import base option list gmap.

Set Warnings "-register-all".

(** ** Python strings *)

Abbreviation str := (list N).

(** An ASCII literal as a Python string. *)
Definition py (s : string) : str :=
  map N_of_ascii (list_ascii_of_string s).
Arguments py s%_string.

(** [str.isspace] for one code point (the table of CPython's
    [_PyUnicode_IsWhitespace]). *)
Definition isspace (c : N) : bool :=
  ((9 <=? c) && (c <=? 13) || (28 <=? c) && (c <=? 32)
   || (c =? 133) || (c =? 160) || (c =? 5760)
   || (8192 <=? c) && (c <=? 8202)
   || (c =? 8232) || (c =? 8233) || (c =? 8239) || (c =? 8287)
   || (c =? 12288))%N.

Fixpoint lstrip (s : str) : str :=
  match s with
  | c :: s' => if isspace c then lstrip s' else s
  | [] => []
  end.

Definition rstrip (s : str) : str := rev (lstrip (rev s)).

(** [line.strip()] *)
Definition strip (s : str) : str := rstrip (lstrip s).

(** Truth value of a string in an [if]. *)
Definition truthy (s : str) : bool :=
  match s with [] => false | _ :: _ => true end.

(** Text mode with universal newlines: [\r\n] and [\r] are read as [\n]. *)
Fixpoint universal_newlines (s : str) : str :=
  match s with
  | [] => []
  | 13%N :: s' =>
      match s' with
      | 10%N :: s'' => 10%N :: universal_newlines s''
      | _ => 10%N :: universal_newlines s'
      end
  | c :: s' => c :: universal_newlines s'
  end.

(** Lines keep their terminating [\n]; [cur] is the line read so far,
    last character first. *)
Fixpoint split_lines (cur : str) (s : str) : list str :=
  match s with
  | [] => match cur with [] => [] | _ :: _ => [rev cur] end
  | c :: s' =>
      if (c =? 10)%N then rev (c :: cur) :: split_lines [] s'
      else split_lines (c :: cur) s'
  end.

(** [f.readlines()] on the decoded content of a file. *)
Definition readlines (content : str) : list str :=
  split_lines [] (universal_newlines content).

(** [str(n)] for a non-negative integer. *)
Fixpoint digits (d : Decimal.uint) : str :=
  match d with
  | Nil => []
  | D0 d => 48%N :: digits d
  | D1 d => 49%N :: digits d
  | D2 d => 50%N :: digits d
  | D3 d => 51%N :: digits d
  | D4 d => 52%N :: digits d
  | D5 d => 53%N :: digits d
  | D6 d => 54%N :: digits d
  | D7 d => 55%N :: digits d
  | D8 d => 56%N :: digits d
  | D9 d => 57%N :: digits d
  end.

Definition str_of_nat (n : nat) : str := digits (Nat.to_uint n).

(** ['s{}.{}'.format(i, j)] *)
Definition fmt_s (i j : nat) : str :=
  py "s" ++ str_of_nat i ++ py "." ++ str_of_nat j.

(** ['w{}.{}.{}'.format(i, j, k)] *)
Definition fmt_w (i j k : nat) : str :=
  py "w" ++ str_of_nat i ++ py "." ++ str_of_nat j ++ py "." ++ str_of_nat k.

(** [enumerate(l, start)] *)
Fixpoint enumerate {A} (start : nat) (l : list A) : list (nat * A) :=
  match l with
  | [] => []
  | x :: l' => (start, x) :: enumerate (S start) l'
  end.

(** ** Exceptions *)

Inductive exn :=
  | ClickException (msg : str)
  (* open() of a file that cannot be opened, tree.write() to a path that
     cannot be written *)
  | OSError (path : str)
  | UnboundLocalError (name : str)
  (* lxml: "All strings must be XML compatible" *)
  | ValueError
  (* f.readlines() on bytes that are not UTF-8 *)
  | UnicodeDecodeError (path : str)
  (* token.text on an object without that attribute *)
  | AttributeError (name : str)
  (* token['text'] on a str *)
  | TypeError.

Inductive result (A : Type) :=
  | Ok (a : A)
  | Raise (e : exn).
Arguments Ok {A} a.
Arguments Raise {A} e.

#[export] Instance result_bind : MBind result := λ A B f m,
  match m with
  | Ok a => f a
  | Raise e => Raise e
  end.

(** A [for] loop whose body may raise. *)
Fixpoint foldM {A B} (f : A → B → result A) (l : list B) (a : A) : result A :=
  match l with
  | [] => Ok a
  | x :: l' => f a x ≫= foldM f l'
  end.

(** ** lxml elements *)

(** What an element carries besides its children. *)
Record Label := mkLabel {
  l_tag : str;
  l_attrib : list (str * str);
  l_text : option str
}.

Record Element := mkElement {
  e_label : Label;
  e_children : list nat
}.

Abbreviation heap := (list Element).

(** [elem.set(key, value)] on the attribute dictionary, which keeps the
    order of insertion. *)
Fixpoint attrib_set (k v : str) (a : list (str * str)) : list (str * str) :=
  match a with
  | [] => [(k, v)]
  | (k', v') :: a' =>
      if decide (k' = k) then (k, v) :: a' else (k', v') :: attrib_set k v a'
  end.

Fixpoint attrib_get (k : str) (a : list (str * str)) : option str :=
  match a with
  | [] => None
  | (k', v') :: a' => if decide (k' = k) then Some v' else attrib_get k a'
  end.

Definition label_set (k v : str) (l : Label) : Label :=
  mkLabel (l_tag l) (attrib_set k v (l_attrib l)) (l_text l).

Definition label_set_text (v : str) (l : Label) : Label :=
  mkLabel (l_tag l) (l_attrib l) (Some v).

Definition on_label (f : Label → Label) (e : Element) : Element :=
  mkElement (f (e_label e)) (e_children e).

Definition append_child (c : nat) (e : Element) : Element :=
  mkElement (e_label e) (e_children e ++ [c]).

Definition leaf (l : Label) : Element := mkElement l [].

Definition new_label (tg : str) : Label := mkLabel tg [] None.

(** [etree.Element(tag)] *)
Definition new_Element (tg : str) (h : heap) : nat * heap :=
  (length h, h ++ [leaf (new_label tg)]).

(** [etree.SubElement(parent, tag)]: a new element, appended to the
    children of [parent]. *)
Definition SubElement (parent : nat) (tg : str) (h : heap) : nat * heap :=
  (length h, alter (append_child (length h)) parent h ++ [leaf (new_label tg)]).

(** The characters lxml accepts in a string it is given: tab, line
    feed, carriage return and everything from the space on, but neither a
    surrogate nor U+FFFE or U+FFFF. *)
Definition xml_char (c : N) : bool :=
  ((c =? 9) || (c =? 10) || (c =? 13) || (32 <=? c))%N
  && negb ((55296 <=? c) && (c <=? 57343))%N
  && negb ((c =? 65534) || (c =? 65535))%N.

(** A string that is XML compatible: no NUL, no control character. *)
Definition xml_compatible (s : str) : bool := forallb xml_char s.

(** [elem.set(key, value)] for one of the keys [id], [tree], [lem];
    raises [ValueError] (for a surrogate its subclass
    [UnicodeEncodeError]) unless the value is XML compatible. *)
Definition set_attr (r : nat) (k v : str) (h : heap) : result heap :=
  if xml_compatible v then Ok (alter (on_label (label_set k v)) r h)
  else Raise ValueError.

(** [elem.text = value], with the same check. *)
Definition set_text (r : nat) (v : str) (h : heap) : result heap :=
  if xml_compatible v then Ok (alter (on_label (label_set_text v)) r h)
  else Raise ValueError.

(** The tree below an element, as the serializer walks it. *)
Inductive Xml :=
  XNode (label : Label) (children : list Xml).

Definition xlabel (x : Xml) : Label := match x with XNode l _ => l end.
Definition xchildren (x : Xml) : list Xml := match x with XNode _ c => c end.
Definition xattr (k : str) (x : Xml) : option str :=
  attrib_get k (l_attrib (xlabel x)).
Definition xtext (x : Xml) : option str := l_text (xlabel x).
Definition xtag (x : Xml) : str := l_tag (xlabel x).

Fixpoint reify (fuel : nat) (h : heap) (r : nat) : Xml :=
  match fuel with
  | 0 => XNode (new_label []) []
  | S fuel' =>
      match h !! r with
      | Some e => XNode (e_label e) (map (reify fuel' h) (e_children e))
      | None => XNode (new_label []) []
      end
  end.

(** An element tree has fewer levels than the heap has elements. *)
Definition tree_of (h : heap) (root : nat) : Xml := reify (length h) h root.

(** ** Effects *)

(** Where a stream of a child process goes: a file object opened on
    [os.devnull], [subprocess.STDOUT], or left to the parent. *)
Inductive sink := DEVNULL | TO_STDOUT | INHERIT.

(** What a call does to the world outside the interpreter. *)
Inductive event :=
  | Echo (msg : str)
  | OpenRead (path : str)
  | WriteTree (path : str) (tree : Xml)
  | Spawn (command : str)
  | ChildOut (data : str)
  | ChildErr (data : str).

(** An effectful computation: the events it performs, in order, and how it
    ends. *)
Definition IO (A : Type) : Type := list event * result A.

#[export] Instance IO_ret : MRet IO := λ A a, ([], Ok a).
Definition raise {A} (e : exn) : IO A := ([], Raise e).
Definition emit (ev : event) : IO unit := ([ev], Ok tt).
Definition lift {A} (r : result A) : IO A := ([], r).

#[export] Instance IO_bind : MBind IO := λ A B f m,
  match m with
  | (t, Ok a) => let (t', r) := f a in (t ++ t', r)
  | (t, Raise e) => (t, Raise e)
  end.

(** ** The collaborators *)

(** A token record as the document builder reads it: [token.text],
    [token.tag_], [token.lemma_] on attribute-style objects and
    [token['text']], [token['upos']], [token['lemma']] on the mappings
    of a native stanza pipeline.  Every token has the three fields: a
    stanza token without [upos] or [lemma] is not modelled. *)
Record Token := mkToken {
  tok_text : str;
  tok_tag : str;
  tok_lemma : str
}.

(** What [nlp(line).to_dict()] is: for a stanza [Document] the list of
    the sentences, each a list of tokens; for a spaCy [Doc] the dict of
    its serialisation, of which a [for] loop sees the keys. *)
Inductive to_dict :=
  | Sentences (sents : list (list Token))
  | Serialised (keys : list str).

(** A loaded pipeline, as [nlp_process] uses it: [nlp(line).to_dict()]. *)
Definition Nlp := str → to_dict.

(** A pipeline whose documents give the list of their sentences. *)
Definition Pipeline := str → list (list Token).

Definition sentences_of (nlp : Pipeline) : Nlp := λ line, Sentences (nlp line).
Coercion sentences_of : Pipeline >-> Nlp.

(** A file that can be opened: text, or bytes that are not UTF-8. *)
Inductive file :=
  | Text (content : str)
  | NotUtf8.

(** What a shell command does: exit status, standard output and
    standard error of the child. *)
Definition Shell := str → Z * str * str.

Class Externals := {
  (* core.constants *)
  UPLUG : str;
  NLTK : str;
  SPACY : str;
  STANZA : str;
  TREETAGGER : str;
  NLTK_LANGUAGES : gmap str str;
  SPACY_MODELS : gmap str str;
  (* nltk.tokenize *)
  sent_tokenize : str → str → list str;
  word_tokenize : str → str → list str;
  (* spacy.load(model, exclude=["parser"]); None is OSError *)
  spacy_load : str → option Nlp;
  (* nlp.add_pipe(name) *)
  add_pipe : str → Nlp → Nlp;
  (* stanza.download(language); false is ValueError *)
  stanza_download : str → bool;
  (* spacy_stanza.load_pipeline(language, processors); None is ImportError *)
  spacy_stanza_load_pipeline : str → str → option Nlp;
  (* stanza.Pipeline(lang, processors) *)
  stanza_Pipeline : str → str → Pipeline;
  (* the files that can be opened for reading, text files decoded *)
  files : gmap str file;
  (* the paths that can be opened for writing *)
  writable : str → bool;
  (* /bin/sh -c *)
  shell : Shell
}.

(** [open(path, 'r', encoding='utf8')] followed by [f.readlines()]. *)
Definition open_readlines `{Externals} (path : str) : IO (list str) :=
  emit (OpenRead path) ;;
  match files !! path with
  | Some (Text content) => mret (readlines content)
  | Some NotUtf8 => raise (UnicodeDecodeError path)
  | None => raise (OSError path)
  end.

(** [tree.write(file_out, ...)] *)
Definition tree_write `{Externals} (h : heap) (root : nat) (path : str) : IO unit :=
  if writable path then emit (WriteTree path (tree_of h root))
  else raise (OSError path).

Definition deliver (to : sink) (ev : str → event) (data : str) : IO unit :=
  match to with
  | DEVNULL => mret tt
  | _ => emit (ev data)
  end.

(** [subprocess.call(command, shell=True, stdout=..., stderr=...)]:
    runs the command, routes its two streams and returns the exit
    status. *)
Definition subprocess_call `{Externals} (command : str) (stdout stderr : sink) : IO Z :=
  emit (Spawn command) ;;
  let '(status, out, err) := shell command in
  deliver stdout ChildOut out ;;
  match stderr with
  | TO_STDOUT => deliver stdout ChildOut err
  | _ => deliver stderr ChildErr err
  end ;;
  mret status.

(** ** uplug_tokenize *)

(** [shlex.quote]: the characters outside [[\w@%+=:,./-]] (ASCII) are
    unsafe. *)
Definition is_safe (c : N) : bool :=
  ((97 <=? c) && (c <=? 122) || (65 <=? c) && (c <=? 90)
   || (48 <=? c) && (c <=? 57) || (c =? 95)
   || (c =? 64) || (c =? 37) || (c =? 43) || (c =? 61) || (c =? 58)
   || (c =? 44) || (c =? 46) || (c =? 47) || (c =? 45))%N.

Definition shlex_quote (s : str) : str :=
  match s with
  | [] => [39; 39]%N
  | _ :: _ =>
      if forallb is_safe s then s
      else [39%N]
           ++ flat_map (λ c, if (c =? 39)%N then [39; 34; 39; 34; 39]%N else [c]) s
           ++ [39%N]
  end.

Definition uplug_command (file_in file_out language : str) : str :=
  py "uplug -f pre/basic pre/" ++ language ++ py "/basic -in "
  ++ shlex_quote file_in ++ py " > " ++ shlex_quote file_out.

Definition uplug_tokenize `{Externals} (file_in file_out language : str) : IO unit :=
  (* Run Uplug with a fallback to the general module *)
  let command := uplug_command file_in file_out language in
  subprocess_call command DEVNULL TO_STDOUT ;;
  mret tt.

(** ** nltk_tokenize *)

(** The variables of [nltk_tokenize] that live across loop iterations. *)
Record nltk_vars := mk_nltk_vars {
  nv_heap : heap;
  nv_i : nat;
  nv_j : nat;
  nv_paragraph : nat
}.

(** Body of [for k, w in enumerate(words, start=1)]. *)
Definition nltk_word (i j sentence : nat) (h : heap) (kw : nat * str) : result heap :=
  let '(k, w) := kw in
  let '(word, h) := SubElement sentence (py "w") h in
  h ← set_attr word (py "id") (fmt_w i j k) h;
  set_text word w h.

(** Body of [for s in sentences]. *)
Definition nltk_sentence `{Externals} (punkt_language : str)
    (i j paragraph : nat) (h : heap) (s : str) : result heap :=
  let '(sentence, h) := SubElement paragraph (py "s") h in
  h ← set_attr sentence (py "id") (fmt_s i j) h;
  let words := word_tokenize s punkt_language in
  foldM (nltk_word i j sentence) (enumerate 1 words) h.

(** Body of [for line in f.readlines()]. *)
Definition nltk_line `{Externals} (punkt_language : str) (text : nat)
    (v : nltk_vars) (line : str) : result nltk_vars :=
  let line := strip line in
  if truthy line then
    let sentences := sent_tokenize line punkt_language in
    h ← foldM (nltk_sentence punkt_language (nv_i v) (nv_j v) (nv_paragraph v))
          sentences (nv_heap v);
    Ok (mk_nltk_vars h (nv_i v) (nv_j v + 1) (nv_paragraph v))
  else
    let i := nv_i v + 1 in
    let '(paragraph, h) := SubElement text (py "p") (nv_heap v) in
    h ← set_attr paragraph (py "id") (str_of_nat i) h;
    Ok (mk_nltk_vars h i 1 paragraph).

(** The counters, the [text] element and its first paragraph. *)
Definition nltk_start : result (nat * nltk_vars) :=
  (* Create counters for paragraphs and sentences *)
  let i := 1 in
  let j := 1 in
  (* Start a text element and add a first paragraph *)
  let '(text, h) := new_Element (py "text") [] in
  let '(paragraph, h) := SubElement text (py "p") h in
  h ← set_attr paragraph (py "id") (str_of_nat i) h;
  Ok (text, mk_nltk_vars h i j paragraph).

Definition nltk_message (language : str) : str :=
  py "Tokenization in NLTK not available for language " ++ language.

Definition nltk_tokenize `{Externals} (file_in file_out language : str) : IO unit :=
  let punkt_language := NLTK_LANGUAGES !! language in
  match punkt_language with
  | Some ((_ :: _) as punkt_language) =>
      tv ← lift nltk_start;
      lines ← open_readlines file_in;
      v ← lift (foldM (nltk_line punkt_language tv.1) lines tv.2);
      tree_write (nv_heap v) tv.1 file_out
  | _ => raise (ClickException (nltk_message language))
  end.

(** ** nlp_process *)

(** The variables of [nlp_process] that live across loop iterations;
    [pv_sentence] is [None] as long as [sentence] is unbound, [pv_j] and
    [pv_start_new] are assigned at the start of every non-blank line
    before they are read. *)
Record nlp_vars := mk_nlp_vars {
  pv_heap : heap;
  pv_i : nat;
  pv_paragraph : nat;
  pv_j : nat;
  pv_start_new : bool;
  pv_sentence : option nat
}.

(** Body of [for k, token in enumerate(sent, start=1)]. *)
Definition nlp_word (i j sentence : nat) (h : heap) (kt : nat * Token) : result heap :=
  let '(k, token) := kt in
  let '(word, h) := SubElement sentence (py "w") h in
  h ← set_attr word (py "id") (fmt_w i j k) h;
  h ← set_text word (tok_text token) h;
  h ← set_attr word (py "tree") (tok_tag token) h;
  set_attr word (py "lem") (tok_lemma token) h.

(** The loop over the tokens of one sentence reads [sentence]. *)
Definition nlp_words (v : nlp_vars) (sent : list Token) : result heap :=
  match sent, pv_sentence v with
  | [], _ => Ok (pv_heap v)
  | _ :: _, None => Raise (UnboundLocalError (py "sentence"))
  | _ :: _, Some sentence =>
      foldM (nlp_word (pv_i v) (pv_j v) sentence) (enumerate 1 sent) (pv_heap v)
  end.

(** The same loop when [sent] is a key of the dict of a spaCy [Doc]:
    [enumerate(sent, start=1)] gives its characters, and after the word
    element is created and has its id, reading the text of a character
    fails: [token.text] with [AttributeError], [token['text']] with
    [TypeError]. *)
Definition nlp_chars (stanza_unique : bool) (v : nlp_vars) (key : str) : result heap :=
  match key, pv_sentence v with
  | [], _ => Ok (pv_heap v)
  | _ :: _, None => Raise (UnboundLocalError (py "sentence"))
  | _ :: _, Some sentence =>
      let '(word, h) := SubElement sentence (py "w") (pv_heap v) in
      h ← set_attr word (py "id") (fmt_w (pv_i v) (pv_j v) 1) h;
      Raise (if stanza_unique then TypeError else AttributeError (py "text"))
  end.

(** The [if start_new:] block: a new sentence element in the current
    paragraph. *)
Definition nlp_start_new (v : nlp_vars) : result nlp_vars :=
  if pv_start_new v then
    let j := pv_j v + 1 in
    let '(sentence, h) := SubElement (pv_paragraph v) (py "s") (pv_heap v) in
    h ← set_attr sentence (py "id") (fmt_s (pv_i v) j) h;
    Ok (mk_nlp_vars h (pv_i v) (pv_paragraph v) j (pv_start_new v) (Some sentence))
  else Ok v.

(** Body of [for sent in doc.to_dict()], for a sentence. *)
Definition nlp_sent (stanza_unique : bool) (v : nlp_vars) (sent : list Token)
    : result nlp_vars :=
  v ← nlp_start_new v;
  if stanza_unique then
    h ← nlp_words v sent;
    (* Safeguard to not start a new sentence for single-token sentences *)
    let start_new := negb (length sent =? 1) in
    Ok (mk_nlp_vars h (pv_i v) (pv_paragraph v) (pv_j v) start_new (pv_sentence v))
  else
    h ← nlp_words v sent;
    (* Safeguard to not start a new sentence for single-token sentences *)
    let start_new := negb (length sent =? 1) in
    Ok (mk_nlp_vars h (pv_i v) (pv_paragraph v) (pv_j v) start_new (pv_sentence v)).

(** Body of [for sent in doc.to_dict()], for a key of the dict. *)
Definition nlp_key (stanza_unique : bool) (v : nlp_vars) (sent : str)
    : result nlp_vars :=
  v ← nlp_start_new v;
  if stanza_unique then
    h ← nlp_chars stanza_unique v sent;
    let start_new := negb (length sent =? 1) in
    Ok (mk_nlp_vars h (pv_i v) (pv_paragraph v) (pv_j v) start_new (pv_sentence v))
  else
    h ← nlp_chars stanza_unique v sent;
    let start_new := negb (length sent =? 1) in
    Ok (mk_nlp_vars h (pv_i v) (pv_paragraph v) (pv_j v) start_new (pv_sentence v)).

(** Body of [for line in f.readlines()]. *)
Definition nlp_line (nlp : Nlp) (stanza_unique : bool) (text : nat)
    (v : nlp_vars) (line : str) : result nlp_vars :=
  let line := strip line in
  if truthy line then
    let doc := nlp line in
    let start_new := true in
    let j := 0 in
    let v := mk_nlp_vars (pv_heap v) (pv_i v) (pv_paragraph v) j start_new
               (pv_sentence v) in
    match doc with
    | Sentences sents => foldM (nlp_sent stanza_unique) sents v
    | Serialised keys => foldM (nlp_key stanza_unique) keys v
    end
  else
    let i := pv_i v + 1 in
    let '(paragraph, h) := SubElement text (py "p") (pv_heap v) in
    h ← set_attr paragraph (py "id") (str_of_nat i) h;
    Ok (mk_nlp_vars h i paragraph (pv_j v) (pv_start_new v) (pv_sentence v)).

Definition nlp_start : result (nat * nlp_vars) :=
  (* Create counters for paragraphs *)
  let i := 1 in
  (* Start a text element and add a first paragraph *)
  let '(text, h) := new_Element (py "text") [] in
  let '(paragraph, h) := SubElement text (py "p") h in
  h ← set_attr paragraph (py "id") (str_of_nat i) h;
  Ok (text, mk_nlp_vars h i paragraph 0 true None).

Definition nlp_process `{Externals} (nlp : Nlp) (file_in file_out : str)
    (stanza_unique : bool) : IO unit :=
  tv ← lift nlp_start;
  lines ← open_readlines file_in;
  v ← lift (foldM (nlp_line nlp stanza_unique tv.1) lines tv.2);
  tree_write (pv_heap v) tv.1 file_out.

(** ** spacy_tokenize and stanza_tokenize *)

Definition spacy_message (language : str) : str :=
  py "Tokenization in Spacy not available for language " ++ language.

Definition spacy_model_message (language spacy_model : str) : str :=
  py "Spacy model for language " ++ language
  ++ py " not available: please download it first with the command `python -m spacy download "
  ++ spacy_model ++ py "`".

Definition spacy_tokenize `{Externals} (file_in file_out language : str) : IO unit :=
  let spacy_model := SPACY_MODELS !! language in
  match spacy_model with
  | Some ((_ :: _) as spacy_model) =>
      (* For sentence boundaries, we use a simple model, rather than the
         dependency parser *)
      match spacy_load spacy_model with
      | Some nlp =>
          let nlp := add_pipe (py "sentencizer") nlp in
          nlp_process nlp file_in file_out false
      | None => raise (ClickException (spacy_model_message language spacy_model))
      end
  | _ => raise (ClickException (spacy_message language))
  end.

Definition stanza_message (language : str) : str :=
  py "Tokenization in Stanza not available for language " ++ language.

Definition stanza_tokenize `{Externals} (file_in file_out language : str) : IO unit :=
  (* Download the stanza model (if necessary). *)
  if stanza_download language then
    match spacy_stanza_load_pipeline language (py "tokenize,pos,lemma") with
    | Some nlp =>
        let nlp := add_pipe (py "sentencizer") nlp in
        nlp_process nlp file_in file_out false
    | None =>
        let nlp : Nlp := stanza_Pipeline language (py "tokenize,pos,lemma") in
        nlp_process nlp file_in file_out true
    end
  else raise (ClickException (stanza_message language)).

(** ** tokenize_single *)

Definition tokenize_single `{Externals} (file_in file_out language tokenizer : str)
    : IO unit :=
  if decide (tokenizer = UPLUG) then
    emit (Echo (py "Using Uplug tokenization")) ;;
    uplug_tokenize file_in file_out language
  else if decide (tokenizer = NLTK) then
    emit (Echo (py "Using NLTK tokenization")) ;;
    nltk_tokenize file_in file_out language
  else if decide (tokenizer = SPACY) then
    emit (Echo (py "Using Spacy tokenization")) ;;
    spacy_tokenize file_in file_out language
  else if decide (tokenizer = STANZA) then
    emit (Echo (py "Using Stanza tokenization")) ;;
    stanza_tokenize file_in file_out language
  else if decide (tokenizer = TREETAGGER) then
    (* Use TreeTagger without tokenization, based on the preprocessed
       .txt-files *)
    emit (Echo (py "Using TreeTagger tokenization"))
  else mret tt.

(** ** Documents, and how the builders lay them out in the heap *)

(** The shape of what the builders produce: paragraphs of sentences of
    words, each with its label. *)
Record Sent := mkSent { s_label : Label; s_words : list Label }.
Record Par := mkPar { p_label : Label; p_sents : list Sent }.
Record Doc := mkDoc { d_label : Label; d_pars : list Par }.

Definition xml_of_word (w : Label) : Xml := XNode w [].
Definition xml_of_sent (s : Sent) : Xml :=
  XNode (s_label s) (map xml_of_word (s_words s)).
Definition xml_of_par (p : Par) : Xml :=
  XNode (p_label p) (map xml_of_sent (p_sents p)).
Definition xml_of_doc (d : Doc) : Xml :=
  XNode (d_label d) (map xml_of_par (d_pars d)).

(** Elements are allocated in document order, so a node is followed in
    the heap by its subtrees, one after the other. *)
Section layout.
Context {A : Type} (flat : nat → A → heap) (size : A → nat).

Definition total_size (l : list A) : nat := sum_list_with size l.

(** Where each of the subtrees [l] starts when the first starts at [b]. *)
Fixpoint offsets (b : nat) (l : list A) : list nat :=
  match l with
  | [] => []
  | x :: l' => b :: offsets (b + size x) l'
  end.

Fixpoint flat_list (b : nat) (l : list A) : heap :=
  match l with
  | [] => []
  | x :: l' => flat b x ++ flat_list (b + size x) l'
  end.

Definition flat_node (lbl : Label) (b : nat) (l : list A) : heap :=
  mkElement lbl (offsets (S b) l) :: flat_list (S b) l.
End layout.

Definition size_word (w : Label) : nat := 1.
Definition flat_word (b : nat) (w : Label) : heap := [leaf w].

Definition size_sent (s : Sent) : nat := S (total_size size_word (s_words s)).
Definition flat_sent (b : nat) (s : Sent) : heap :=
  flat_node flat_word size_word (s_label s) b (s_words s).

Definition size_par (p : Par) : nat := S (total_size size_sent (p_sents p)).
Definition flat_par (b : nat) (p : Par) : heap :=
  flat_node flat_sent size_sent (p_label p) b (p_sents p).

Definition size_doc (d : Doc) : nat := S (total_size size_par (d_pars d)).
Definition flat_doc (d : Doc) : heap :=
  flat_node flat_par size_par (d_label d) 0 (d_pars d).

(** A document under construction: the paragraphs before the current
    one, the current paragraph with the sentences before the current one,
    and the sentence that was created last in it, if any. *)
Record cursor := mkCursor {
  c_root : Label;
  c_closed : list Par;
  c_plabel : Label;
  c_sents : list Sent;
  c_open : option Sent
}.

Definition current_par (c : cursor) : Par :=
  mkPar (c_plabel c) (c_sents c ++ option_list (c_open c)).

Definition doc_of (c : cursor) : Doc :=
  mkDoc (c_root c) (c_closed c ++ [current_par c]).

(** The references held by [paragraph] and [sentence]. *)
Definition par_ref (c : cursor) : nat := S (total_size size_par (c_closed c)).
Definition sent_ref (c : cursor) : nat :=
  par_ref c + S (total_size size_sent (c_sents c)).

Definition open_par (l : Label) (c : cursor) : cursor :=
  mkCursor (c_root c) (c_closed c ++ [current_par c]) l [] None.

Definition open_sent (l : Label) (c : cursor) : cursor :=
  mkCursor (c_root c) (c_closed c) (c_plabel c)
    (c_sents c ++ option_list (c_open c)) (Some (mkSent l [])).

Definition add_word (c : cursor) (w : Label) : cursor :=
  match c_open c with
  | Some s =>
      mkCursor (c_root c) (c_closed c) (c_plabel c) (c_sents c)
        (Some (mkSent (s_label s) (s_words s ++ [w])))
  | None => c
  end.

Definition id_attr (v : str) : list (str * str) := [(py "id", v)].

Definition par_label (i : nat) : Label :=
  mkLabel (py "p") (id_attr (str_of_nat i)) None.
Definition sent_label (i j : nat) : Label :=
  mkLabel (py "s") (id_attr (fmt_s i j)) None.
Definition nltk_word_label (i j : nat) (kw : nat * str) : Label :=
  mkLabel (py "w") (id_attr (fmt_w i j kw.1)) (Some kw.2).
Definition nlp_word_label (i j : nat) (kt : nat * Token) : Label :=
  mkLabel (py "w")
    [(py "id", fmt_w i j kt.1); (py "tree", tok_tag kt.2); (py "lem", tok_lemma kt.2)]
    (Some (tok_text kt.2)).

Definition start_cursor : cursor :=
  mkCursor (new_label (py "text")) [] (par_label 1) [] None.

(** *** What [nltk_tokenize] builds *)

Record nltk_doc := mk_nltk_doc {
  nd_cursor : cursor;
  nd_i : nat;
  nd_j : nat
}.

Definition nltk_sentence_doc `{Externals} (punkt_language : str) (i j : nat)
    (c : cursor) (s : str) : cursor :=
  foldl (λ c kw, add_word c (nltk_word_label i j kw))
    (open_sent (sent_label i j) c)
    (enumerate 1 (word_tokenize s punkt_language)).

Definition nltk_line_doc `{Externals} (punkt_language : str)
    (d : nltk_doc) (line : str) : nltk_doc :=
  let line := strip line in
  if truthy line then
    mk_nltk_doc
      (foldl (nltk_sentence_doc punkt_language (nd_i d) (nd_j d)) (nd_cursor d)
         (sent_tokenize line punkt_language))
      (nd_i d) (nd_j d + 1)
  else
    mk_nltk_doc (open_par (par_label (nd_i d + 1)) (nd_cursor d)) (nd_i d + 1) 1.

Definition nltk_doc_of `{Externals} (punkt_language : str) (lines : list str) : Doc :=
  doc_of (nd_cursor (foldl (nltk_line_doc punkt_language)
                       (mk_nltk_doc start_cursor 1 1) lines)).

(** *** What [nlp_process] builds *)

(** The state of the loop over the sentences of one line. *)
Record nlp_doc := mk_nlp_doc {
  pd_cursor : cursor;
  pd_j : nat;
  pd_start_new : bool
}.

Definition nlp_sent_doc (i : nat) (d : nlp_doc) (sent : list Token) : nlp_doc :=
  let j := if pd_start_new d then pd_j d + 1 else pd_j d in
  let c := if pd_start_new d then open_sent (sent_label i j) (pd_cursor d)
           else pd_cursor d in
  mk_nlp_doc
    (foldl (λ c kt, add_word c (nlp_word_label i j kt)) c (enumerate 1 sent))
    j (negb (length sent =? 1)).

(** The paragraph counter and the document after one more line. *)
Definition nlp_line_doc (nlp : Pipeline) (ic : nat * cursor) (line : str)
    : nat * cursor :=
  let line := strip line in
  if truthy line then
    (ic.1, pd_cursor (foldl (nlp_sent_doc ic.1) (mk_nlp_doc ic.2 0 true) (nlp line)))
  else
    (ic.1 + 1, open_par (par_label (ic.1 + 1)) ic.2).

Definition nlp_doc_of (nlp : Pipeline) (lines : list str) : Doc :=
  doc_of (foldl (nlp_line_doc nlp) (1, start_cursor) lines).2.

(** The tree that [nltk_tokenize] writes for the lines of a file. *)
Definition nltk_tree `{Externals} (punkt_language : str) (lines : list str)
    : result Xml :=
  tv ← nltk_start;
  v ← foldM (nltk_line punkt_language tv.1) lines tv.2;
  Ok (tree_of (nv_heap v) tv.1).

(** The tree that [nlp_process] writes for the lines of a file. *)
Definition nlp_tree (nlp : Nlp) (stanza_unique : bool) (lines : list str)
    : result Xml :=
  tv ← nlp_start;
  v ← foldM (nlp_line nlp stanza_unique tv.1) lines tv.2;
  Ok (tree_of (pv_heap v) tv.1).

(** ** Notions used to state what the builders do *)

(** The sentences of the current paragraph. *)
Definition sents_all (c : cursor) : list Sent := c_sents c ++ option_list (c_open c).

(** How [nlp_process] groups the sentences of one line into sentence
    elements: a sentence of exactly one token leaves the element open for
    the next sentence of the line. *)
Fixpoint merge_groups (cands : list (list Token)) : list (list (list Token)) :=
  match cands with
  | [] => []
  | c :: cs =>
      if length c =? 1 then
        match merge_groups cs with
        | g :: gs => (c :: g) :: gs
        | [] => [[c]]
        end
      else [c] :: merge_groups cs
  end.

(** The word elements of one group, all numbered with the [j] of the
    sentence element, [k] starting again at 1 in every sentence of the
    group. *)
Definition group_words (i j : nat) (g : list (list Token)) : list Label :=
  g ≫= λ c, map (nlp_word_label i j) (enumerate 1 c).

(** Sentence elements [j + 1], [j + 2], ... for the groups [gs]. *)
Fixpoint numbered (i j : nat) (gs : list (list (list Token))) : list Sent :=
  match gs with
  | [] => []
  | g :: gs' => mkSent (sent_label i (S j)) (group_words i (S j) g) :: numbered i (S j) gs'
  end.

(** The sentence elements that one line adds to paragraph [i]. *)
Definition line_sents (i : nat) (cands : list (list Token)) : list Sent :=
  numbered i 0 (merge_groups cands).

(** The same when sentence [s], numbered [j], is still open: the first
    group goes into it. *)
Definition absorb (i j : nat) (s : Sent) (gs : list (list (list Token))) : list Sent :=
  match gs with
  | [] => [s]
  | g :: gs' => mkSent (s_label s) (s_words s ++ group_words i j g) :: numbered i j gs'
  end.

(** [add_word] for every item of a list. *)
Definition add_words {B : Type} (lab : B → Label) (c : cursor) (bs : list B) : cursor :=
  foldl (λ c b, add_word c (lab b)) c bs.

(** A line that is empty after [strip()]. *)
Definition is_blank (line : str) : bool := negb (truthy (strip line)).

Fixpoint count_blank (lines : list str) : nat :=
  match lines with
  | [] => 0
  | line :: lines' => (if is_blank line then 1 else 0) + count_blank lines'
  end.

(** The current paragraph got more sentences, nothing else changed. *)
Definition grows (c c' : cursor) : Prop :=
  c_root c' = c_root c ∧ c_closed c' = c_closed c ∧ c_plabel c' = c_plabel c
  ∧ sents_all c `prefix_of` sents_all c'.

(** Every paragraph of [d] is still there in [d'], the last one possibly
    with more sentences after those it had. *)
Definition doc_le (d d' : Doc) : Prop :=
  d_label d' = d_label d
  ∧ length (d_pars d) ≤ length (d_pars d')
  ∧ ∀ k p, d_pars d !! k = Some p →
      ∃ p', d_pars d' !! k = Some p'
            ∧ p_label p' = p_label p
            ∧ p_sents p `prefix_of` p_sents p'
            ∧ (S k < length (d_pars d) → p' = p).

(** The sentence elements that [nltk_tokenize] adds for the sentences
    [ss] of one line. *)
Definition nltk_line_sents `{Externals} (pl : str) (i j : nat) (ss : list str)
    : list Sent :=
  map (λ s, mkSent (sent_label i j)
              (map (nltk_word_label i j) (enumerate 1 (word_tokenize s pl))))
    ss.

(** An operation that allocates one element, whatever its label. *)
Definition pushes (n : nat) (P : Label → heap) : Prop :=
  ∃ front, length front = n ∧ ∀ l, P l = front ++ [leaf l].

(** How the variables of the builders relate to the document built so
    far: the heap is its layout, [paragraph] and [sentence] refer to its
    last paragraph and to the last sentence of that. *)
Definition nltk_rep (v : nltk_vars) (d : nltk_doc) : Prop :=
  nv_heap v = flat_doc (doc_of (nd_cursor d))
  ∧ nv_i v = nd_i d ∧ nv_j v = nd_j d
  ∧ nv_paragraph v = par_ref (nd_cursor d).

Definition nlp_rep (v : nlp_vars) (ic : nat * cursor) : Prop :=
  pv_heap v = flat_doc (doc_of ic.2)
  ∧ pv_i v = ic.1
  ∧ pv_paragraph v = par_ref ic.2.

Definition nlp_loop_rep (v : nlp_vars) (i : nat) (d : nlp_doc) : Prop :=
  nlp_rep v (i, pd_cursor d)
  ∧ pv_j v = pd_j d
  ∧ pv_start_new v = pd_start_new d
  ∧ (pd_start_new d = false →
     is_Some (c_open (pd_cursor d))
     ∧ pv_sentence v = Some (sent_ref (pd_cursor d))).

(** ** Reading the output *)

#[export] Instance result_fmap : FMap result := λ A B f m,
  match m with
  | Ok a => Ok (f a)
  | Raise e => Raise e
  end.

Definition child_ids (x : Xml) : list (option str) :=
  map (xattr (py "id")) (xchildren x).
Definition child_texts (x : Xml) : list (option str) :=
  map xtext (xchildren x).
Definition par_ids (t : Xml) : list (option str) := child_ids t.
Definition sentence_ids (t : Xml) : list (list (option str)) :=
  map child_ids (xchildren t).
Definition word_ids (t : Xml) : list (list (list (option str))) :=
  map (λ p, map child_ids (xchildren p)) (xchildren t).
Definition word_texts (t : Xml) : list (list (list (option str))) :=
  map (λ p, map child_texts (xchildren p)) (xchildren t).

(** The trees written by a call, with their paths. *)
Definition written {A} (io : IO A) : list (str * Xml) :=
  io.1 ≫= λ ev, match ev with WriteTree path t => [(path, t)] | _ => [] end.

(** Some sentence element holds the words [ws], one after the other. *)
Definition together (t : Xml) (ws : list (option str)) : Prop :=
  ∃ p s a b, p ∈ xchildren t ∧ s ∈ xchildren p ∧ child_texts s = a ++ ws ++ b.

Definition texts (c : list Token) : list (option str) :=
  map (λ t, Some (tok_text t)) c.

(** ** Collaborators for the examples *)

Definition nl : str := [10%N].

Definition demo_token (s : string) : Token := mkToken (py s) (py "X") (py s).

(** A pipeline that knows a few lines. *)
Definition demo_nlp : Pipeline := λ line,
  if decide (line = py "Mr Smith left.") then
    [[demo_token "Mr"]; [demo_token "Smith"; demo_token "left"; demo_token "."]]
  else if decide (line = py "Mr") then [[demo_token "Mr"]]
  else if decide (line = py "Smith left.") then
    [[demo_token "Smith"; demo_token "left"; demo_token "."]]
  else if decide (line = py "Hello world. Good bye.") then
    [[demo_token "Hello"; demo_token "world"; demo_token "."];
     [demo_token "Good"; demo_token "bye"; demo_token "."]]
  else if decide (line = py "Hello world.") then
    [[demo_token "Hello"; demo_token "world"; demo_token "."]]
  else if decide (line = py "Good bye.") then
    [[demo_token "Good"; demo_token "bye"; demo_token "."]]
  else [[mkToken line (py "X") line]].

Definition demo_sent_tokenize (line language : str) : list str :=
  if decide (line = py "Mr Smith left.") then [py "Mr"; py "Smith left."]
  else if decide (line = py "Hello world. Good bye.") then
    [py "Hello world."; py "Good bye."]
  else [line].

Definition demo_word_tokenize (s language : str) : list str :=
  if decide (s = py "Smith left.") then [py "Smith"; py "left"; py "."]
  else if decide (s = py "Hello world.") then [py "Hello"; py "world"; py "."]
  else if decide (s = py "Good bye.") then [py "Good"; py "bye"; py "."]
  else [s].

(** A line with the control character U+0001. *)
Definition bell_line : str := [97; 1; 98]%N.

Definition demo_files : gmap str file :=
  {[ py "hello.txt" := Text (py "Hello world. Good bye." ++ nl);
     py "two_lines.txt" := Text (py "Hello world." ++ nl ++ py "Good bye." ++ nl);
     py "mr_smith.txt" := Text (py "Mr Smith left." ++ nl);
     py "mr_then_smith.txt" := Text (py "Mr" ++ nl ++ py "Smith left." ++ nl);
     py "mr_blank_smith.txt" := Text (py "Mr" ++ nl ++ nl ++ py "Smith left." ++ nl);
     py "empty.txt" := Text [];
     py "blank.txt" := Text (nl ++ py "  " ++ nl);
     py "control.txt" := Text (py "Mr" ++ nl ++ bell_line ++ nl);
     py "latin1.txt" := NotUtf8 ]}.

(** A spaCy pipeline: its documents give the dict of their
    serialisation. *)
Definition demo_spacy : Nlp := λ _,
  Serialised [py "text"; py "array_head"; py "array_body"; py "sentiment";
              py "tensor"; py "cats"; py "spans"; py "strings";
              py "has_unknown_spaces"].

Definition demo : Externals := {|
  UPLUG := py "uplug";
  NLTK := py "nltk";
  SPACY := py "spacy";
  STANZA := py "stanza";
  TREETAGGER := py "treetagger";
  NLTK_LANGUAGES := {[ py "en" := py "english" ]};
  SPACY_MODELS := {[ py "en" := py "en_core_web_sm" ]};
  sent_tokenize := demo_sent_tokenize;
  word_tokenize := demo_word_tokenize;
  spacy_load := λ _, Some demo_spacy;
  add_pipe := λ _ nlp, nlp;
  stanza_download := λ _, true;
  spacy_stanza_load_pipeline := λ _ _, Some demo_spacy;
  stanza_Pipeline := λ _ _, demo_nlp;
  files := demo_files;
  writable := λ _, true;
  shell := λ _, (2%Z, py "some output", py "uplug: not found")
|}.

(** What a function does once it has read the lines of the input: the
    tree is written, or the exception of the builder or of [tree.write]
    ends the call. *)
Definition finish `{Externals} (file_in file_out : str) (tree : result Xml) : IO unit :=
  match tree with
  | Ok t =>
      if writable file_out then ([OpenRead file_in; WriteTree file_out t], Ok tt)
      else ([OpenRead file_in], Raise (OSError file_out))
  | Raise e => ([OpenRead file_in], Raise e)
  end.

(** The state of the document builders after some lines. *)
Definition nlp_after (nlp : Pipeline) (lines : list str) : nat * cursor :=
  foldl (nlp_line_doc nlp) (1, start_cursor) lines.

Definition nltk_after `{Externals} (pl : str) (lines : list str) : nltk_doc :=
  foldl (nltk_line_doc pl) (mk_nltk_doc start_cursor 1 1) lines.

Definition group_texts (g : list (list Token)) : list (option str) :=
  g ≫= texts.

Definition empty_par (i : nat) : Xml := XNode (par_label i) [].

Definition nlp_word_nodes (i j : nat) (c : list Token) : list Xml :=
  map (λ kt, XNode (nlp_word_label i j kt) []) (enumerate 1 c).

(** ** Notions for the further properties *)

(** An effect touches no file but [file_in], read, and [file_out],
    written. *)
Definition touches_only (file_in file_out : str) (ev : event) : Prop :=
  match ev with
  | OpenRead path => path = file_in
  | WriteTree path _ => path = file_out
  | _ => True
  end.

Definition raises {A} (io : IO A) : Prop :=
  match io.2 with
  | Raise _ => True
  | Ok _ => False
  end.

(** The word elements of a tree, in document order. *)
Definition all_words (t : Xml) : list Xml :=
  xchildren t ≫= λ p, xchildren p ≫= xchildren.

(** Text, [tree] and [lem] of a word element. *)
Definition word_view (w : Xml) : option str * option str * option str :=
  (xtext w, xattr (py "tree") w, xattr (py "lem") w).

Definition token_view (t : Token) : option str * option str * option str :=
  (Some (tok_text t), Some (tok_tag t), Some (tok_lemma t)).

(** The lines given to the tokenizer: the lines that are not blank,
    stripped. *)
Definition text_lines (lines : list str) : list str :=
  lines ≫= λ line, if is_blank line then [] else [strip line].

(** Every string that the builder hands to lxml for the tokens of the
    lines is XML compatible. *)
Definition token_compatible (t : Token) : bool :=
  xml_compatible (tok_text t) && xml_compatible (tok_tag t)
  && xml_compatible (tok_lemma t).

Definition nlp_compatible (nlp : Pipeline) (lines : list str) : bool :=
  forallb (λ line, forallb (forallb token_compatible) (nlp line)) (text_lines lines).

Definition nltk_compatible `{Externals} (pl : str) (lines : list str) : bool :=
  forallb (λ line, forallb (λ s, forallb xml_compatible (word_tokenize s pl))
                     (sent_tokenize line pl))
    (text_lines lines).

Definition doc_words (d : Doc) : list Label :=
  d_pars d ≫= λ p, p_sents p ≫= s_words.

(** The number of lines of text since the last blank line. *)
Definition trailing_text (lines : list str) : nat :=
  foldl (λ n line, if is_blank line then 0 else S n) 0 lines.

(** Paragraph [n + 1] is at place [n] and its sentences satisfy [P (n + 1)]. *)
Definition pars_numbered (P : nat → Sent → Prop) (d : Doc) : Prop :=
  ∀ n p, d_pars d !! n = Some p →
    p_label p = par_label (S n) ∧ Forall (P (S n)) (p_sents p).

Definition nlp_sent_ok (i : nat) (s : Sent) : Prop :=
  ∃ j, 1 ≤ j ∧ s_label s = sent_label i j
       ∧ Forall (λ w, ∃ kt : nat * Token, 1 ≤ kt.1 ∧ w = nlp_word_label i j kt)
           (s_words s).

Definition nltk_sent_ok (i : nat) (s : Sent) : Prop :=
  ∃ j (ws : list str), 1 ≤ j ∧ s_label s = sent_label i j
       ∧ s_words s = map (nltk_word_label i j) (enumerate 1 ws).

(** The id of a sentence element of paragraph [i] is [s{i}.{j}] and the
    ids of its words are [w{i}.{j}.{k}], with [j] and [k] from 1 on. *)
Definition ids_fit (i : nat) (s : Xml) : Prop :=
  ∃ j, 1 ≤ j ∧ xattr (py "id") s = Some (fmt_s i j)
       ∧ Forall (λ w, ∃ k, 1 ≤ k ∧ xattr (py "id") w = Some (fmt_w i j k))
           (xchildren s).

(** The same, with the words numbered 1, 2, ... in their order. *)
Definition words_numbered (i : nat) (s : Xml) : Prop :=
  ∃ j, 1 ≤ j ∧ xattr (py "id") s = Some (fmt_s i j)
       ∧ child_ids s
         = map (λ k, Some (fmt_w i j k)) (seq 1 (length (xchildren s))).

Definition all_space (s : str) : Prop := Forall (λ c, isspace c = true) s.

(** What [shlex.quote] puts between the quotes. *)
Definition quote_body (s : str) : str :=
  flat_map (λ c, if (c =? 39)%N then [39; 34; 39; 34; 39]%N else [c]) s.

(** The number of sentence elements that [nlp_process] opens for the
    sentences of one line: one for the first sentence, and one for every
    sentence that comes after a sentence of more or less than one token. *)
Definition opened (cands : list (list Token)) : nat :=
  match cands with
  | [] => 0
  | _ :: _ => S (length (filter (λ c, length c ≠ 1) (removelast cands)))
  end.

(** A string as a tokenizer gets it: not empty, no white space at either
    end, no line break inside. *)
Definition clean (line : str) : Prop :=
  (∃ c, head line = Some c ∧ isspace c = false)
  ∧ (∃ c, last line = Some c ∧ isspace c = false)
  ∧ (10%N ∉ line) ∧ (13%N ∉ line).

(** An installation without models: the mappings have an empty entry for
    [xx], no spacy model loads, stanza knows English only, spacy_stanza
    is not there, and one path cannot be written. *)
Definition demo_offline : Externals := {|
  UPLUG := py "uplug";
  NLTK := py "nltk";
  SPACY := py "spacy";
  STANZA := py "stanza";
  TREETAGGER := py "treetagger";
  NLTK_LANGUAGES := {[ py "en" := py "english"; py "xx" := [] ]};
  SPACY_MODELS := {[ py "en" := py "en_core_web_sm"; py "xx" := [] ]};
  sent_tokenize := demo_sent_tokenize;
  word_tokenize := demo_word_tokenize;
  spacy_load := λ _, None;
  add_pipe := λ _ nlp, nlp;
  stanza_download := λ language, bool_decide (language = py "en");
  spacy_stanza_load_pipeline := λ _ _, None;
  stanza_Pipeline := λ _ _, demo_nlp;
  files := demo_files;
  writable := λ path, bool_decide (path ≠ py "/proc/out.xml");
  shell := λ _, (127%Z, [], py "uplug: not found")
|}.

(** A sentence element of [nlp_process] that holds one sentence. *)
Definition nlp_sent_plain (i : nat) (s : Sent) : Prop :=
  ∃ j (c : list Token), 1 ≤ j ∧ s_label s = sent_label i j
       ∧ s_words s = map (nlp_word_label i j) (enumerate 1 c).

(** No sentence of the pipeline has exactly one token. *)
Definition never_single (nlp : Pipeline) (line : str) : Prop :=
  Forall (λ c, length c ≠ 1) (nlp line).

(** * Properties *)

(** ** Strings that lxml accepts *)

Lemma bind_Ok {A B} (f : A → result B) (a : A) : (Ok a ≫= f) = f a.
Proof. done. Qed.

Lemma bind_Raise {A B} (f : A → result B) (e : exn) : (Raise e ≫= f) = Raise e.
Proof. done. Qed.

Lemma set_attr_ok r k v h :
  xml_compatible v = true → set_attr r k v h = Ok (alter (on_label (label_set k v)) r h).
Proof. intros Hv. unfold set_attr. by rewrite Hv. Qed.

Lemma set_text_ok r v h :
  xml_compatible v = true → set_text r v h = Ok (alter (on_label (label_set_text v)) r h).
Proof. intros Hv. unfold set_text. by rewrite Hv. Qed.

Lemma set_attr_refused r k v h :
  xml_compatible v = false → set_attr r k v h = Raise ValueError.
Proof. intros Hv. unfold set_attr. by rewrite Hv. Qed.

Lemma set_text_refused r v h :
  xml_compatible v = false → set_text r v h = Raise ValueError.
Proof. intros Hv. unfold set_text. by rewrite Hv. Qed.

Lemma xml_compatible_app s1 s2 :
  xml_compatible (s1 ++ s2) = xml_compatible s1 && xml_compatible s2.
Proof. apply forallb_app. Qed.

Lemma digits_compatible d : xml_compatible (digits d) = true.
Proof.
  induction d; [done|..]; cbn [digits xml_compatible forallb];
    change (forallb xml_char (digits d)) with (xml_compatible (digits d));
    by rewrite IHd.
Qed.

Lemma str_of_nat_compatible n : xml_compatible (str_of_nat n) = true.
Proof. apply digits_compatible. Qed.

Lemma fmt_s_compatible i j : xml_compatible (fmt_s i j) = true.
Proof.
  unfold fmt_s. by rewrite !xml_compatible_app, !str_of_nat_compatible.
Qed.

Lemma fmt_w_compatible i j k : xml_compatible (fmt_w i j k) = true.
Proof.
  unfold fmt_w. by rewrite !xml_compatible_app, !str_of_nat_compatible.
Qed.

Lemma forallb_enumerate {A} (ok : A → bool) k (l : list A) :
  forallb (λ kx : nat * A, ok kx.2) (enumerate k l) = forallb ok l.
Proof.
  revert k. induction l as [|x l IH]; intros k; [done|].
  cbn [enumerate forallb]. by rewrite IH.
Qed.

(** ** The lines of text *)

Lemma is_blank_truthy line : truthy (strip line) = negb (is_blank line).
Proof. unfold is_blank. by rewrite negb_involutive. Qed.

Lemma text_lines_app l1 l2 : text_lines (l1 ++ l2) = text_lines l1 ++ text_lines l2.
Proof. unfold text_lines. by rewrite bind_app. Qed.

Lemma text_lines_cons line lines :
  text_lines (line :: lines)
  = (if is_blank line then [] else [strip line]) ++ text_lines lines.
Proof. unfold text_lines. by rewrite bind_cons. Qed.

Lemma text_lines_one line :
  text_lines [line] = if is_blank line then [] else [strip line].
Proof. rewrite text_lines_cons. simpl. by rewrite app_nil_r. Qed.

Lemma nlp_compatible_app (nlp : Pipeline) l1 l2 :
  nlp_compatible nlp (l1 ++ l2) = nlp_compatible nlp l1 && nlp_compatible nlp l2.
Proof. unfold nlp_compatible. by rewrite text_lines_app, forallb_app. Qed.

Lemma nltk_compatible_app `{Externals} pl l1 l2 :
  nltk_compatible pl (l1 ++ l2) = nltk_compatible pl l1 && nltk_compatible pl l2.
Proof. unfold nltk_compatible. by rewrite text_lines_app, forallb_app. Qed.

Lemma nlp_compatible_cons (nlp : Pipeline) line lines :
  nlp_compatible nlp (line :: lines) = true →
  nlp_compatible nlp [line] = true ∧ nlp_compatible nlp lines = true.
Proof.
  intros Hok. change (line :: lines) with ([line] ++ lines) in Hok.
  rewrite nlp_compatible_app in Hok. by apply andb_prop in Hok.
Qed.

Lemma nltk_compatible_cons `{Externals} pl line lines :
  nltk_compatible pl (line :: lines) = true →
  nltk_compatible pl [line] = true ∧ nltk_compatible pl lines = true.
Proof.
  intros Hok. change (line :: lines) with ([line] ++ lines) in Hok.
  rewrite nltk_compatible_app in Hok. by apply andb_prop in Hok.
Qed.

Lemma nlp_compatible_blank (nlp : Pipeline) line :
  is_blank line = true → nlp_compatible nlp [line] = true.
Proof. intros Hb. unfold nlp_compatible. by rewrite text_lines_one, Hb. Qed.

Lemma nltk_compatible_blank `{Externals} pl line :
  is_blank line = true → nltk_compatible pl [line] = true.
Proof. intros Hb. unfold nltk_compatible. by rewrite text_lines_one, Hb. Qed.

Lemma nlp_compatible_text (nlp : Pipeline) line :
  is_blank line = false → nlp_compatible nlp [line] = true →
  forallb (forallb token_compatible) (nlp (strip line)) = true.
Proof.
  intros Hb. unfold nlp_compatible. rewrite text_lines_one, Hb. simpl.
  by rewrite andb_true_r.
Qed.

Lemma nltk_compatible_text `{Externals} pl line :
  is_blank line = false → nltk_compatible pl [line] = true →
  forallb (λ s, forallb xml_compatible (word_tokenize s pl))
    (sent_tokenize (strip line) pl) = true.
Proof.
  intros Hb. unfold nltk_compatible. rewrite text_lines_one, Hb. simpl.
  by rewrite andb_true_r.
Qed.

(** ** The layout of a document in the heap *)

Lemma alter_cons_S {A} (f : A → A) i x (l : list A) :
  alter f (S i) (x :: l) = x :: alter f i l.
Proof. done. Qed.

Lemma alter_cons_0 {A} (f : A → A) x (l : list A) :
  alter f 0 (x :: l) = f x :: l.
Proof. done. Qed.

Section layout_facts.
Context {A : Type} (flat : nat → A → heap) (size : A → nat).
Hypothesis Hlen : ∀ b x, length (flat b x) = size x.

Lemma total_app l1 l2 : total_size size (l1 ++ l2) = total_size size l1 + total_size size l2.
Proof. apply sum_list_with_app. Qed.

Lemma total_snoc l x : total_size size (l ++ [x]) = total_size size l + size x.
Proof. rewrite total_app. unfold total_size. simpl. lia. Qed.

Lemma length_flat_list b l : length (flat_list flat size b l) = total_size size l.
Proof.
  revert b. induction l as [|x l IH]; intros b; simpl; [done|].
  rewrite length_app, Hlen, IH. done.
Qed.

Lemma length_flat_node lbl b l :
  length (flat_node flat size lbl b l) = S (total_size size l).
Proof. unfold flat_node. simpl. by rewrite length_flat_list. Qed.

Lemma offsets_snoc b l x :
  offsets size b (l ++ [x]) = offsets size b l ++ [b + total_size size l].
Proof.
  revert b. induction l as [|y l IH]; intros b; simpl.
  - f_equal. unfold total_size. simpl. lia.
  - rewrite IH. do 3 f_equal. unfold total_size. simpl. lia.
Qed.

Lemma flat_list_snoc b l x :
  flat_list flat size b (l ++ [x])
  = flat_list flat size b l ++ flat (b + total_size size l) x.
Proof.
  revert b. induction l as [|y l IH]; intros b; simpl.
  - rewrite app_nil_r. f_equal. unfold total_size. simpl. lia.
  - rewrite IH, <- app_assoc. do 3 f_equal. unfold total_size. simpl. lia.
Qed.

(** A new last subtree. *)
Lemma flat_node_push lbl b l x :
  flat_node flat size lbl b (l ++ [x])
  = alter (append_child (S b + total_size size l)) 0 (flat_node flat size lbl b l)
    ++ flat (S b + total_size size l) x.
Proof.
  unfold flat_node. rewrite offsets_snoc, flat_list_snoc. done.
Qed.

(** A change inside the last subtree. *)
Lemma flat_node_last lbl b l x x' g r tail :
  S b + total_size size l ≤ r →
  flat (S b + total_size size l) x'
  = alter g (r - (S b + total_size size l)) (flat (S b + total_size size l) x) ++ tail →
  flat_node flat size lbl b (l ++ [x'])
  = alter g (r - b) (flat_node flat size lbl b (l ++ [x])) ++ tail.
Proof.
  intros Hr Hx. unfold flat_node.
  rewrite !offsets_snoc, !flat_list_snoc, Hx.
  replace (r - b) with (S (r - S b)) by lia.
  rewrite alter_cons_S. simpl. f_equal. rewrite alter_app_r_alt, length_flat_list by (rewrite length_flat_list; lia).
  rewrite <- app_assoc. do 3 f_equal. lia.
Qed.
End layout_facts.

Lemma length_flat_word b w : length (flat_word b w) = size_word w.
Proof. done. Qed.

Lemma length_flat_sent b s : length (flat_sent b s) = size_sent s.
Proof. apply length_flat_node, length_flat_word. Qed.

Lemma length_flat_par b p : length (flat_par b p) = size_par p.
Proof. apply length_flat_node, length_flat_sent. Qed.

Lemma length_flat_doc d : length (flat_doc d) = size_doc d.
Proof. apply length_flat_node, length_flat_par. Qed.

Lemma size_doc_of c :
  size_doc (doc_of c) = par_ref c + size_par (current_par c).
Proof. unfold size_doc, doc_of, par_ref. simpl. rewrite total_snoc. lia. Qed.

Lemma flat_open_par l c :
  flat_doc (doc_of (open_par l c))
  = alter (append_child (size_doc (doc_of c))) 0 (flat_doc (doc_of c)) ++ [leaf l].
Proof.
  unfold flat_doc, doc_of, open_par. simpl.
  by rewrite (flat_node_push flat_par size_par).
Qed.

Lemma flat_open_sent l c :
  flat_doc (doc_of (open_sent l c))
  = alter (append_child (size_doc (doc_of c))) (par_ref c) (flat_doc (doc_of c))
    ++ [leaf l].
Proof.
  rewrite <- (Nat.sub_0_r (par_ref c)).
  apply (flat_node_last flat_par size_par length_flat_par); [unfold par_ref; lia|].
  replace (par_ref c - (1 + total_size size_par (c_closed c))) with 0
    by (unfold par_ref; lia).
  unfold current_par, flat_par. simpl.
  rewrite (flat_node_push flat_sent size_sent).
  rewrite size_doc_of. unfold par_ref, current_par, size_par. simpl.
  do 3 f_equal. lia.
Qed.

Lemma flat_add_word c s w :
  c_open c = Some s →
  flat_doc (doc_of (add_word c w))
  = alter (append_child (size_doc (doc_of c))) (sent_ref c) (flat_doc (doc_of c))
    ++ [leaf w].
Proof.
  destruct c as [root closed pl ss op]. intros Hs. simpl in Hs. subst op.
  set (c := mkCursor root closed pl ss (Some s)).
  rewrite <- (Nat.sub_0_r (sent_ref c)).
  change (flat_node flat_par size_par root 0
            (closed ++ [mkPar pl (ss ++ [mkSent (s_label s) (s_words s ++ [w])])])
          = alter (append_child (size_doc (doc_of c))) (sent_ref c - 0)
              (flat_node flat_par size_par root 0 (closed ++ [mkPar pl (ss ++ [s])]))
            ++ [leaf w]).
  apply (flat_node_last flat_par size_par length_flat_par);
    [unfold sent_ref, par_ref; simpl; lia|].
  apply (flat_node_last flat_sent size_sent length_flat_sent);
    [unfold sent_ref, par_ref; simpl; lia|].
  match goal with |- context [sent_ref c - ?b] =>
    replace (sent_ref c - b) with 0 by (unfold sent_ref, par_ref; simpl; lia) end.
  destruct s as [sl ws].
  change (flat_node flat_word size_word sl
            (S (1 + total_size size_par closed) + total_size size_sent ss)
            (ws ++ [w])
          = alter (append_child (size_doc (doc_of c))) 0
              (flat_node flat_word size_word sl
                 (S (1 + total_size size_par closed) + total_size size_sent ss) ws)
            ++ [leaf w]).
  rewrite (flat_node_push flat_word size_word).
  do 3 f_equal. unfold size_doc, doc_of, current_par, c.
  cbn [d_pars c_closed c_plabel c_sents c_open option_list].
  change (option_list (Some (mkSent sl ws))) with [mkSent sl ws].
  rewrite total_snoc.
  change (size_par (mkPar pl (ss ++ [mkSent sl ws])))
    with (S (total_size size_sent (ss ++ [mkSent sl ws]))).
  rewrite total_snoc.
  change (size_sent (mkSent sl ws)) with (S (total_size size_word ws)).
  lia.
Qed.

Lemma pushes_alter n P f l :
  pushes n P → alter (on_label f) n (P l) = P (f l).
Proof.
  intros (front & <- & HP). rewrite !HP.
  rewrite alter_app_r_alt by lia. by rewrite Nat.sub_diag.
Qed.

Lemma pushes_open_par c :
  pushes (size_doc (doc_of c)) (λ l, flat_doc (doc_of (open_par l c))).
Proof.
  eexists. split; [|intros l; apply flat_open_par].
  by rewrite length_alter, length_flat_doc.
Qed.

Lemma pushes_open_sent c :
  pushes (size_doc (doc_of c)) (λ l, flat_doc (doc_of (open_sent l c))).
Proof.
  eexists. split; [|intros l; apply flat_open_sent].
  by rewrite length_alter, length_flat_doc.
Qed.

Lemma pushes_add_word c :
  is_Some (c_open c) →
  pushes (size_doc (doc_of c)) (λ l, flat_doc (doc_of (add_word c l))).
Proof.
  intros [s Hs]. eexists. split; [|intros l; by apply (flat_add_word c s)].
  by rewrite length_alter, length_flat_doc.
Qed.

Lemma set_open_par c f l :
  alter (on_label f) (size_doc (doc_of c)) (flat_doc (doc_of (open_par l c)))
  = flat_doc (doc_of (open_par (f l) c)).
Proof.
  apply (pushes_alter _ (λ l, flat_doc (doc_of (open_par l c)))), pushes_open_par.
Qed.

Lemma set_open_sent c f l :
  alter (on_label f) (size_doc (doc_of c)) (flat_doc (doc_of (open_sent l c)))
  = flat_doc (doc_of (open_sent (f l) c)).
Proof.
  apply (pushes_alter _ (λ l, flat_doc (doc_of (open_sent l c)))), pushes_open_sent.
Qed.

Lemma set_add_word c f l :
  is_Some (c_open c) →
  alter (on_label f) (size_doc (doc_of c)) (flat_doc (doc_of (add_word c l)))
  = flat_doc (doc_of (add_word c (f l))).
Proof.
  intros Hs.
  by apply (pushes_alter _ (λ l, flat_doc (doc_of (add_word c l)))), pushes_add_word.
Qed.

Lemma SubElement_text c tg :
  SubElement 0 tg (flat_doc (doc_of c))
  = (size_doc (doc_of c), flat_doc (doc_of (open_par (new_label tg) c))).
Proof. unfold SubElement. by rewrite length_flat_doc, flat_open_par. Qed.

Lemma SubElement_paragraph c tg :
  SubElement (par_ref c) tg (flat_doc (doc_of c))
  = (size_doc (doc_of c), flat_doc (doc_of (open_sent (new_label tg) c))).
Proof. unfold SubElement. by rewrite length_flat_doc, flat_open_sent. Qed.

Lemma SubElement_sentence c tg :
  is_Some (c_open c) →
  SubElement (sent_ref c) tg (flat_doc (doc_of c))
  = (size_doc (doc_of c), flat_doc (doc_of (add_word c (new_label tg)))).
Proof.
  intros [s Hs]. unfold SubElement.
  by rewrite length_flat_doc, (flat_add_word c s).
Qed.

Lemma par_ref_open_par l c : par_ref (open_par l c) = size_doc (doc_of c).
Proof. done. Qed.

Lemma par_ref_open_sent l c : par_ref (open_sent l c) = par_ref c.
Proof. done. Qed.

Lemma sent_ref_open_sent l c : sent_ref (open_sent l c) = size_doc (doc_of c).
Proof.
  rewrite size_doc_of. unfold sent_ref, open_sent, current_par, size_par. simpl. lia.
Qed.

Lemma open_open_sent l c : is_Some (c_open (open_sent l c)).
Proof. by eexists. Qed.

Lemma par_ref_add_word c w : par_ref (add_word c w) = par_ref c.
Proof. unfold add_word. by destruct (c_open c). Qed.

Lemma sent_ref_add_word c w : sent_ref (add_word c w) = sent_ref c.
Proof. unfold add_word. by destruct (c_open c). Qed.

Lemma open_add_word c w : is_Some (c_open c) → is_Some (c_open (add_word c w)).
Proof. intros [s Hs]. unfold add_word. rewrite Hs. by eexists. Qed.

Section add_words.
Context {B : Type} (lab : B → Label).

Lemma par_ref_add_words bs c : par_ref (add_words lab c bs) = par_ref c.
Proof.
  revert c. induction bs as [|b bs IH]; intros c; simpl; [done|].
  unfold add_words in *. simpl. by rewrite IH, par_ref_add_word.
Qed.

Lemma sent_ref_add_words bs c : sent_ref (add_words lab c bs) = sent_ref c.
Proof.
  revert c. induction bs as [|b bs IH]; intros c; simpl; [done|].
  unfold add_words in *. simpl. by rewrite IH, sent_ref_add_word.
Qed.

Lemma open_add_words bs c :
  is_Some (c_open c) → is_Some (c_open (add_words lab c bs)).
Proof.
  revert c. induction bs as [|b bs IH]; intros c Hs; simpl; [done|].
  unfold add_words in *. simpl. by apply IH, open_add_word.
Qed.

(** A loop that adds one word element per item to [sentence]. *)
Lemma foldM_words_flat (step : heap → B → result heap) (ok : B → bool) r :
  (∀ c b, is_Some (c_open c) → sent_ref c = r → ok b = true →
     step (flat_doc (doc_of c)) b = Ok (flat_doc (doc_of (add_word c (lab b))))) →
  ∀ bs c, is_Some (c_open c) → sent_ref c = r → forallb ok bs = true →
    foldM step bs (flat_doc (doc_of c)) = Ok (flat_doc (doc_of (add_words lab c bs))).
Proof.
  intros Hstep bs. induction bs as [|b bs IH]; intros c Hs Hr Hok; [done|].
  cbn [forallb] in Hok. apply andb_prop in Hok as [Hb Hbs].
  cbn [foldM]. rewrite Hstep, bind_Ok by done. unfold add_words. cbn [foldl].
  apply IH; [by apply open_add_word|by rewrite sent_ref_add_word|done].
Qed.
End add_words.

Lemma nltk_word_flat i j c kw :
  is_Some (c_open c) → xml_compatible kw.2 = true →
  nltk_word i j (sent_ref c) (flat_doc (doc_of c)) kw
  = Ok (flat_doc (doc_of (add_word c (nltk_word_label i j kw)))).
Proof.
  intros Hs Hok. destruct kw as [k w]. unfold nltk_word.
  rewrite SubElement_sentence by done.
  rewrite set_attr_ok, bind_Ok, set_text_ok by (done || apply fmt_w_compatible).
  by rewrite !set_add_word.
Qed.

Lemma nlp_word_flat i j c kt :
  is_Some (c_open c) → token_compatible kt.2 = true →
  nlp_word i j (sent_ref c) (flat_doc (doc_of c)) kt
  = Ok (flat_doc (doc_of (add_word c (nlp_word_label i j kt)))).
Proof.
  intros Hs Hok. destruct kt as [k t]. unfold nlp_word.
  apply andb_prop in Hok as [Hok Hlem]. apply andb_prop in Hok as [Htext Htag].
  cbn [snd] in *. rewrite SubElement_sentence by done.
  rewrite set_attr_ok, bind_Ok by apply fmt_w_compatible.
  rewrite set_text_ok, bind_Ok by done.
  rewrite set_attr_ok, bind_Ok by done.
  rewrite set_attr_ok by done.
  by rewrite !set_add_word.
Qed.

(** ** Walking the heap from the root *)

Lemma reify_S f h r :
  reify (S f) h r
  = match h !! r with
    | Some e => XNode (e_label e) (map (reify f h) (e_children e))
    | None => XNode (new_label []) []
    end.
Proof. done. Qed.

Section reify_layout.
Context {A : Type} (flat : nat → A → heap) (size : A → nat) (xml_of : A → Xml).
Hypothesis Hlen : ∀ b x, length (flat b x) = size x.
Hypothesis Hitem : ∀ f pre post b x,
  size x ≤ f → length pre = b → reify f (pre ++ flat b x ++ post) b = xml_of x.

Lemma reify_offsets f l pre post b :
  total_size size l ≤ f → length pre = b →
  map (reify f (pre ++ flat_list flat size b l ++ post)) (offsets size b l)
  = map xml_of l.
Proof.
  revert pre b. induction l as [|x l IH]; intros pre b Hf Hb; [done|].
  unfold total_size in Hf. simpl in Hf. simpl. f_equal.
  - rewrite <- app_assoc. apply Hitem; [lia|done].
  - rewrite <- app_assoc, (app_assoc pre). apply IH.
    + unfold total_size. lia.
    + rewrite length_app, Hlen. lia.
Qed.

Lemma reify_node f lbl l pre post b :
  S (total_size size l) ≤ f → length pre = b →
  reify f (pre ++ flat_node flat size lbl b l ++ post) b
  = XNode lbl (map xml_of l).
Proof.
  intros Hf Hb. destruct f as [|f]; [lia|]. rewrite reify_S.
  unfold flat_node. rewrite <- app_comm_cons.
  rewrite list_lookup_middle by done. simpl. f_equal.
  rewrite (cons_middle _ pre), app_assoc. apply reify_offsets; [lia|].
  rewrite length_app. simpl. lia.
Qed.
End reify_layout.

Lemma reify_word f pre post b w :
  size_word w ≤ f → length pre = b →
  reify f (pre ++ flat_word b w ++ post) b = xml_of_word w.
Proof.
  intros Hf Hb. destruct f as [|f]; [unfold size_word in Hf; lia|].
  rewrite reify_S. unfold flat_word. simpl.
  by rewrite list_lookup_middle.
Qed.

Lemma reify_sent f pre post b s :
  size_sent s ≤ f → length pre = b →
  reify f (pre ++ flat_sent b s ++ post) b = xml_of_sent s.
Proof.
  apply (reify_node flat_word size_word xml_of_word length_flat_word reify_word).
Qed.

Lemma reify_par f pre post b p :
  size_par p ≤ f → length pre = b →
  reify f (pre ++ flat_par b p ++ post) b = xml_of_par p.
Proof.
  apply (reify_node flat_sent size_sent xml_of_sent length_flat_sent reify_sent).
Qed.

(** Walking the heap from the root gives the document back. *)
Lemma tree_of_flat_doc d : tree_of (flat_doc d) 0 = xml_of_doc d.
Proof.
  unfold tree_of. rewrite length_flat_doc.
  pose proof (reify_node flat_par size_par xml_of_par length_flat_par reify_par
                (size_doc d) (d_label d) (d_pars d) [] [] 0) as H.
  simpl in H. rewrite app_nil_r in H. by apply H.
Qed.

(** ** The builders build the documents *)

Section nltk_refinement.
Context `{Externals}.

Lemma nltk_start_eq :
  nltk_start
  = Ok (0, mk_nltk_vars (flat_doc (doc_of start_cursor)) 1 1 (par_ref start_cursor)).
Proof. done. Qed.

Lemma nltk_sentence_doc_eq pl i j c s :
  nltk_sentence_doc pl i j c s
  = add_words (nltk_word_label i j) (open_sent (sent_label i j) c)
      (enumerate 1 (word_tokenize s pl)).
Proof. done. Qed.

Lemma nltk_sentence_flat pl i j c s :
  forallb xml_compatible (word_tokenize s pl) = true →
  nltk_sentence pl i j (par_ref c) (flat_doc (doc_of c)) s
  = Ok (flat_doc (doc_of (nltk_sentence_doc pl i j c s))).
Proof.
  intros Hok. unfold nltk_sentence. rewrite SubElement_paragraph.
  rewrite set_attr_ok, bind_Ok by apply fmt_s_compatible.
  rewrite set_open_sent.
  change (label_set (py "id") (fmt_s i j) (new_label (py "s")))
    with (sent_label i j).
  rewrite <- (sent_ref_open_sent (sent_label i j) c), nltk_sentence_doc_eq.
  apply (foldM_words_flat (nltk_word_label i j)
           (nltk_word i j (sent_ref (open_sent (sent_label i j) c)))
           (λ kw, xml_compatible kw.2)
           (sent_ref (open_sent (sent_label i j) c)));
    [intros c' kw Hs <- Hkw; by apply nltk_word_flat|apply open_open_sent|done|].
  by rewrite forallb_enumerate.
Qed.

Lemma par_ref_nltk_sentence_doc pl i j c s :
  par_ref (nltk_sentence_doc pl i j c s) = par_ref c.
Proof. by rewrite nltk_sentence_doc_eq, par_ref_add_words. Qed.

Lemma nltk_sentences_flat pl i j ss c :
  forallb (λ s, forallb xml_compatible (word_tokenize s pl)) ss = true →
  foldM (nltk_sentence pl i j (par_ref c)) ss (flat_doc (doc_of c))
  = Ok (flat_doc (doc_of (foldl (nltk_sentence_doc pl i j) c ss)))
  ∧ par_ref (foldl (nltk_sentence_doc pl i j) c ss) = par_ref c.
Proof.
  revert c. induction ss as [|s ss IH]; intros c Hok; [done|].
  cbn [forallb] in Hok. apply andb_prop in Hok as [Hs Hss].
  cbn [foldM foldl]. rewrite nltk_sentence_flat, bind_Ok by done.
  rewrite <- (par_ref_nltk_sentence_doc pl i j c s) at 1 2. by apply IH.
Qed.

Lemma nltk_line_rep pl v d line :
  nltk_rep v d → nltk_compatible pl [line] = true →
  ∃ v', nltk_line pl 0 v line = Ok v' ∧ nltk_rep v' (nltk_line_doc pl d line).
Proof.
  intros (Hh & Hi & Hj & Hp) Hok. unfold nltk_line, nltk_line_doc.
  rewrite is_blank_truthy. destruct (is_blank line) eqn:Hb; cbn [negb].
  - rewrite Hh, Hi, SubElement_text.
    rewrite set_attr_ok, bind_Ok by apply str_of_nat_compatible.
    rewrite set_open_par. eexists. split; [done|]. by repeat split.
  - rewrite Hh, Hi, Hj, Hp.
    destruct (nltk_sentences_flat pl (nd_i d) (nd_j d)
                (sent_tokenize (strip line) pl) (nd_cursor d)) as [Hf Hpr];
      [by apply nltk_compatible_text|].
    rewrite Hf, bind_Ok. eexists. split; [done|]. by repeat split.
Qed.

Lemma nltk_lines_rep pl lines v d :
  nltk_rep v d → nltk_compatible pl lines = true →
  ∃ v', foldM (nltk_line pl 0) lines v = Ok v'
        ∧ nltk_rep v' (foldl (nltk_line_doc pl) d lines).
Proof.
  revert v d. induction lines as [|line lines IH]; intros v d Hrep Hok.
  - by exists v.
  - apply nltk_compatible_cons in Hok as [Hline Hlines].
    destruct (nltk_line_rep pl v d line Hrep Hline) as (v1 & Hv1 & Hrep1).
    destruct (IH v1 _ Hrep1 Hlines) as (v' & Hv' & Hrep').
    exists v'. split; [|done]. cbn [foldM]. by rewrite Hv1.
Qed.

(** When lxml accepts every word, [nltk_tokenize] builds the document of
    [nltk_doc_of]. *)
Lemma nltk_tree_doc pl lines :
  nltk_compatible pl lines = true →
  nltk_tree pl lines = Ok (xml_of_doc (nltk_doc_of pl lines)).
Proof.
  intros Hok. unfold nltk_tree, nltk_doc_of. rewrite nltk_start_eq, bind_Ok.
  destruct (nltk_lines_rep pl lines
              (mk_nltk_vars (flat_doc (doc_of start_cursor)) 1 1 (par_ref start_cursor))
              (mk_nltk_doc start_cursor 1 1)) as (v' & Hv' & Hh & _); [done..|].
  cbn [fst snd]. rewrite Hv', bind_Ok, Hh. by rewrite tree_of_flat_doc.
Qed.
End nltk_refinement.

Section nlp_refinement.
Context (nlp : Pipeline) (stanza_unique : bool).

Lemma nlp_start_eq :
  nlp_start
  = Ok (0, mk_nlp_vars (flat_doc (doc_of start_cursor)) 1 (par_ref start_cursor)
             0 true None).
Proof. done. Qed.

Lemma nlp_sent_rep v i d sent :
  nlp_loop_rep v i d → forallb token_compatible sent = true →
  ∃ v', nlp_sent stanza_unique v sent = Ok v'
        ∧ nlp_loop_rep v' i (nlp_sent_doc i d sent)
        ∧ is_Some (c_open (pd_cursor (nlp_sent_doc i d sent)))
        ∧ pv_sentence v' = Some (sent_ref (pd_cursor (nlp_sent_doc i d sent))).
Proof.
  intros ((Hh & Hi & Hp) & Hj & Hn & Hs) Hok. simpl in Hh, Hi, Hp.
  set (j := if pd_start_new d then pd_j d + 1 else pd_j d).
  set (c := if pd_start_new d then open_sent (sent_label i j) (pd_cursor d)
            else pd_cursor d).
  set (v1 := mk_nlp_vars (flat_doc (doc_of c)) i (par_ref c) j (pd_start_new d)
               (Some (sent_ref c))).
  assert (Hc : is_Some (c_open c)).
  { unfold c. destruct (pd_start_new d); [apply open_open_sent|by apply Hs]. }
  assert (Hv1 : nlp_start_new v = Ok v1).
  { unfold nlp_start_new, v1, c, j. rewrite Hn. destruct (pd_start_new d) eqn:Hd.
    - rewrite Hh, Hi, Hp, Hj, SubElement_paragraph.
      rewrite set_attr_ok, bind_Ok by apply fmt_s_compatible.
      rewrite set_open_sent, sent_ref_open_sent. done.
    - destruct Hs as [_ Hs]; [done|]. destruct v; simpl in *. by subst. }
  assert (Hw : nlp_words v1 sent
               = Ok (flat_doc (doc_of (add_words (nlp_word_label i j) c
                                         (enumerate 1 sent))))).
  { unfold nlp_words, v1. simpl. destruct sent as [|t sent]; [done|].
    apply (foldM_words_flat (nlp_word_label i j)
             (nlp_word i j (sent_ref c)) (λ kt, token_compatible kt.2)
             (sent_ref c)); [|done..|by rewrite forallb_enumerate].
    intros c' kt Hs' <- Hkt. by apply nlp_word_flat. }
  exists (mk_nlp_vars
            (flat_doc (doc_of (add_words (nlp_word_label i j) c (enumerate 1 sent))))
            i (par_ref c) j (negb (length sent =? 1)) (Some (sent_ref c))).
  split.
  { unfold nlp_sent. rewrite Hv1, bind_Ok.
    destruct stanza_unique; rewrite Hw; done. }
  unfold nlp_sent_doc. fold j. fold c.
  change (foldl (λ c kt, add_word c (nlp_word_label i j kt)) c (enumerate 1 sent))
    with (add_words (nlp_word_label i j) c (enumerate 1 sent)).
  repeat split; simpl;
    rewrite ?par_ref_add_words, ?sent_ref_add_words;
    try done; by apply open_add_words.
Qed.

Lemma nlp_sents_rep sents v i d :
  nlp_loop_rep v i d → forallb (forallb token_compatible) sents = true →
  ∃ v', foldM (nlp_sent stanza_unique) sents v = Ok v'
        ∧ nlp_rep v' (i, pd_cursor (foldl (nlp_sent_doc i) d sents)).
Proof.
  revert v d. induction sents as [|sent sents IH]; intros v d Hrep Hok.
  - exists v. split; [done|]. apply Hrep.
  - cbn [forallb] in Hok. apply andb_prop in Hok as [Hsent Hsents].
    destruct (nlp_sent_rep v i d sent Hrep Hsent) as (v1 & Hv1 & Hrep1 & _).
    destruct (IH v1 _ Hrep1 Hsents) as (v' & Hv' & Hrep').
    exists v'. split; [|done]. cbn [foldM]. by rewrite Hv1.
Qed.

Lemma nlp_line_rep v ic line :
  nlp_rep v ic → nlp_compatible nlp [line] = true →
  ∃ v', nlp_line nlp stanza_unique 0 v line = Ok v'
        ∧ nlp_rep v' (nlp_line_doc nlp ic line).
Proof.
  intros (Hh & Hi & Hp) Hok. unfold nlp_line, nlp_line_doc.
  rewrite is_blank_truthy. destruct (is_blank line) eqn:Hb; cbn [negb].
  - rewrite Hh, Hi, SubElement_text.
    rewrite set_attr_ok, bind_Ok by apply str_of_nat_compatible.
    rewrite set_open_par. eexists. split; [done|]. by repeat split.
  - unfold sentences_of. apply nlp_sents_rep; [|by apply nlp_compatible_text].
    rewrite Hi. by repeat split.
Qed.

Lemma nlp_lines_rep lines v ic :
  nlp_rep v ic → nlp_compatible nlp lines = true →
  ∃ v', foldM (nlp_line nlp stanza_unique 0) lines v = Ok v'
        ∧ nlp_rep v' (foldl (nlp_line_doc nlp) ic lines).
Proof.
  revert v ic. induction lines as [|line lines IH]; intros v ic Hrep Hok.
  - by exists v.
  - apply nlp_compatible_cons in Hok as [Hline Hlines].
    destruct (nlp_line_rep v ic line Hrep Hline) as (v1 & Hv1 & Hrep1).
    destruct (IH v1 _ Hrep1 Hlines) as (v' & Hv' & Hrep').
    exists v'. split; [|done]. cbn [foldM]. by rewrite Hv1.
Qed.

(** When lxml accepts the strings of every token, [nlp_process] never
    stops on an unbound [sentence] and builds the document of
    [nlp_doc_of]. *)
Lemma nlp_tree_doc lines :
  nlp_compatible nlp lines = true →
  nlp_tree nlp stanza_unique lines = Ok (xml_of_doc (nlp_doc_of nlp lines)).
Proof.
  intros Hok. unfold nlp_tree, nlp_doc_of. rewrite nlp_start_eq, bind_Ok.
  destruct (nlp_lines_rep lines
              (mk_nlp_vars (flat_doc (doc_of start_cursor)) 1 (par_ref start_cursor)
                 0 true None)
              (1, start_cursor)) as (v' & Hv' & Hh & _); [done..|].
  cbn [fst snd]. rewrite Hv', bind_Ok, Hh. by rewrite tree_of_flat_doc.
Qed.
End nlp_refinement.

(** ** What one line adds to the document *)

Lemma add_words_open {B} (lab : B → Label) c s bs :
  c_open c = Some s →
  add_words lab c bs
  = mkCursor (c_root c) (c_closed c) (c_plabel c) (c_sents c)
      (Some (mkSent (s_label s) (s_words s ++ map lab bs))).
Proof.
  revert c s. induction bs as [|b bs IH]; intros c s Hs.
  - simpl. rewrite app_nil_r. destruct c, s; simpl in *. by subst.
  - unfold add_words. simpl. fold (add_words lab (add_word c (lab b)) bs).
    unfold add_word at 1. rewrite Hs.
    erewrite IH by done. simpl. by rewrite <- app_assoc.
Qed.

Lemma nlp_sent_doc_new i c j c0 :
  nlp_sent_doc i (mk_nlp_doc c j true) c0
  = mk_nlp_doc
      (mkCursor (c_root c) (c_closed c) (c_plabel c) (sents_all c)
         (Some (mkSent (sent_label i (S j))
                  (map (nlp_word_label i (S j)) (enumerate 1 c0)))))
      (S j) (negb (length c0 =? 1)).
Proof.
  unfold nlp_sent_doc. simpl. rewrite Nat.add_1_r. f_equal.
  change (foldl (λ c kt, add_word c (nlp_word_label i (S j) kt))
            (open_sent (sent_label i (S j)) c) (enumerate 1 c0))
    with (add_words (nlp_word_label i (S j)) (open_sent (sent_label i (S j)) c)
            (enumerate 1 c0)).
  by rewrite (add_words_open _ _ (mkSent (sent_label i (S j)) [])).
Qed.

Lemma nlp_sent_doc_merge i c j s c0 :
  c_open c = Some s →
  nlp_sent_doc i (mk_nlp_doc c j false) c0
  = mk_nlp_doc
      (mkCursor (c_root c) (c_closed c) (c_plabel c) (c_sents c)
         (Some (mkSent (s_label s)
                  (s_words s ++ map (nlp_word_label i j) (enumerate 1 c0)))))
      j (negb (length c0 =? 1)).
Proof.
  intros Hs. unfold nlp_sent_doc. simpl. f_equal.
  change (foldl (λ c kt, add_word c (nlp_word_label i j kt)) c (enumerate 1 c0))
    with (add_words (nlp_word_label i j) c (enumerate 1 c0)).
  by rewrite (add_words_open _ _ s).
Qed.

Lemma nlp_sents_doc_spec i cands d :
  (pd_start_new d = false → is_Some (c_open (pd_cursor d))) →
  let c := pd_cursor d in
  let c' := pd_cursor (foldl (nlp_sent_doc i) d cands) in
  c_root c' = c_root c ∧ c_closed c' = c_closed c ∧ c_plabel c' = c_plabel c
  ∧ sents_all c'
    = if pd_start_new d then sents_all c ++ numbered i (pd_j d) (merge_groups cands)
      else match c_open c with
           | Some s => c_sents c ++ absorb i (pd_j d) s (merge_groups cands)
           | None => sents_all c
           end.
Proof.
  revert d. induction cands as [|c0 cs IH]; intros [c j sn] Hopen; simpl in Hopen.
  - simpl. destruct sn; [by rewrite app_nil_r|].
    destruct Hopen as [s Hs]; [done|]. unfold sents_all. by rewrite Hs.
  - cbn [foldl pd_cursor pd_j pd_start_new merge_groups].
    destruct sn.
    + rewrite nlp_sent_doc_new.
      edestruct IH as (-> & -> & -> & ->); [by eexists|].
      cbn [c_root c_closed c_plabel c_sents c_open pd_cursor pd_j pd_start_new s_label s_words].
      repeat split.
      destruct (length c0 =? 1); cbn [negb].
      * unfold sents_all at 1. cbn [c_sents c_open].
        destruct (merge_groups cs) as [|g gs]; simpl;
          by rewrite ?app_nil_r.
      * unfold sents_all at 1. cbn [c_sents c_open option_list].
        simpl. rewrite <- app_assoc. simpl. by rewrite app_nil_r.
    + destruct Hopen as [s Hs]; [done|]. rewrite (nlp_sent_doc_merge i c j s) by done.
      edestruct IH as (-> & -> & -> & ->); [by eexists|].
      cbn [c_root c_closed c_plabel c_sents c_open pd_cursor pd_j pd_start_new s_label s_words].
      repeat split. rewrite Hs.
      destruct (length c0 =? 1); cbn [negb].
      * destruct (merge_groups cs) as [|g gs]; simpl;
          by rewrite ?app_nil_r, <- ?app_assoc.
      * unfold sents_all at 1. cbn [c_sents c_open option_list].
        simpl. rewrite <- app_assoc. simpl. by rewrite app_nil_r.
Qed.

(** ** Documents only grow *)

Lemma doc_le_refl d : doc_le d d.
Proof.
  split_and!; [done..|]. intros k p Hk. exists p. by split_and!.
Qed.

Lemma doc_le_trans d1 d2 d3 : doc_le d1 d2 → doc_le d2 d3 → doc_le d1 d3.
Proof.
  intros (Hl1 & Hn1 & H1) (Hl2 & Hn2 & H2). split_and!.
  - congruence.
  - lia.
  - intros k p Hk. destruct (H1 k p Hk) as (p' & Hk' & Hlab' & Hpre' & Heq').
    destruct (H2 k p' Hk') as (p'' & Hk'' & Hlab'' & Hpre'' & Heq'').
    exists p''. split_and!; [done|congruence|by etrans|].
    intros Hlt. rewrite Heq'' by lia. by apply Heq'.
Qed.

Lemma doc_le_grows c c' : grows c c' → doc_le (doc_of c) (doc_of c').
Proof.
  intros (Hr & Hc & Hp & Hs). unfold doc_of. rewrite Hr, Hc. split_and!.
  - done.
  - simpl. rewrite !length_app. simpl. lia.
  - simpl. intros k p Hk. apply lookup_app_Some in Hk as [Hk|[Hlen Hk]].
    + exists p. split_and!; [|done..]. by apply lookup_app_l_Some.
    + apply list_lookup_singleton_Some in Hk as [Hk <-].
      exists (current_par c'). split_and!.
      * rewrite lookup_app_r by done. by rewrite Hk.
      * done.
      * done.
      * rewrite length_app. simpl. lia.
Qed.

Lemma doc_le_open_par l c : doc_le (doc_of c) (doc_of (open_par l c)).
Proof.
  unfold doc_le, doc_of, open_par. cbn [d_pars d_label c_root c_closed].
  split_and!.
  - done.
  - rewrite (length_app (_ ++ _)). lia.
  - intros k p Hk. exists p. split_and!; [|done..].
    by apply lookup_app_l_Some.
Qed.

Lemma grows_refl c : grows c c.
Proof. by repeat split. Qed.

Lemma par_labels_open_par l c :
  map p_label (d_pars (doc_of (open_par l c)))
  = map p_label (d_pars (doc_of c)) ++ [l].
Proof. unfold doc_of, open_par. simpl. by rewrite !map_app. Qed.

Lemma par_labels_grows c c' :
  grows c c' →
  map p_label (d_pars (doc_of c')) = map p_label (d_pars (doc_of c)).
Proof.
  intros (Hr & Hc & Hp & Hs). unfold doc_of, current_par. cbn [d_pars].
  rewrite !map_app. cbn [map p_label]. by rewrite Hc, Hp.
Qed.

Lemma count_blank_app l1 l2 :
  count_blank (l1 ++ l2) = count_blank l1 + count_blank l2.
Proof. induction l1 as [|x l1 IH]; simpl; [done|]. rewrite IH. lia. Qed.

(** What the two builders have in common. *)
Section builder_facts.
Context {St : Type} (cur : St → cursor) (idx : St → nat) (step : St → str → St).
Hypothesis step_blank : ∀ st line,
  is_blank line = true →
  cur (step st line) = open_par (par_label (idx st + 1)) (cur st)
  ∧ idx (step st line) = idx st + 1.
Hypothesis step_text : ∀ st line,
  is_blank line = false →
  grows (cur st) (cur (step st line)) ∧ idx (step st line) = idx st.

Lemma build_idx lines st :
  idx (foldl step st lines) = idx st + count_blank lines.
Proof.
  revert st. induction lines as [|line lines IH]; intros st; simpl; [lia|].
  rewrite IH. destruct (is_blank line) eqn:Hb.
  - destruct (step_blank st line Hb) as [_ ->]. lia.
  - destruct (step_text st line Hb) as [_ ->]. lia.
Qed.

Lemma build_doc_le lines st :
  doc_le (doc_of (cur st)) (doc_of (cur (foldl step st lines))).
Proof.
  revert st. induction lines as [|line lines IH]; intros st; simpl.
  - apply doc_le_refl.
  - eapply doc_le_trans; [|apply IH]. destruct (is_blank line) eqn:Hb.
    + destruct (step_blank st line Hb) as [-> _]. apply doc_le_open_par.
    + destruct (step_text st line Hb) as [Hg _]. by apply doc_le_grows.
Qed.

Lemma build_par_labels lines st :
  map p_label (d_pars (doc_of (cur st))) = map par_label (seq 1 (idx st)) →
  map p_label (d_pars (doc_of (cur (foldl step st lines))))
  = map par_label (seq 1 (idx st + count_blank lines)).
Proof.
  revert st. induction lines as [|line lines IH]; intros st Hst;
    cbn [foldl count_blank].
  - by rewrite Nat.add_0_r.
  - destruct (is_blank line) eqn:Hb.
    + destruct (step_blank st line Hb) as [Hc Hi].
      rewrite IH; rewrite Hi; [f_equal; f_equal; lia|].
      rewrite Hc, par_labels_open_par, Hst.
      by rewrite Nat.add_1_r, seq_S, map_app.
    + destruct (step_text st line Hb) as [Hg Hi].
      rewrite IH; rewrite Hi; [done|].
      by rewrite (par_labels_grows _ _ Hg).
Qed.

Lemma build_snoc lines line st :
  foldl step st (lines ++ [line]) = step (foldl step st lines) line.
Proof. by rewrite foldl_app. Qed.

Lemma build_length lines st :
  map p_label (d_pars (doc_of (cur st))) = map par_label (seq 1 (idx st)) →
  length (d_pars (doc_of (cur (foldl step st lines)))) = idx (foldl step st lines).
Proof.
  intros Hst. rewrite <- (length_map p_label), (build_par_labels lines st Hst).
  by rewrite length_map, length_seq, build_idx.
Qed.

(** A blank line at the end: one more paragraph, without sentences. *)
Lemma build_snoc_blank lines b st :
  is_blank b = true →
  d_pars (doc_of (cur (foldl step st (lines ++ [b]))))
  = d_pars (doc_of (cur (foldl step st lines)))
    ++ [mkPar (par_label (idx st + count_blank lines + 1)) []].
Proof.
  intros Hb. rewrite build_snoc.
  destruct (step_blank (foldl step st lines) b Hb) as [-> _].
  by rewrite build_idx.
Qed.

(** A paragraph opened by a blank line that is followed by a blank line
    stays without sentences. *)
Lemma build_blank_blank lines b b' more st :
  map p_label (d_pars (doc_of (cur st))) = map par_label (seq 1 (idx st)) →
  is_blank b = true → is_blank b' = true →
  d_pars (doc_of (cur (foldl step st (lines ++ b :: b' :: more))))
    !! (idx st + count_blank lines)
  = Some (mkPar (par_label (idx st + count_blank lines + 1)) []).
Proof.
  intros Hst Hb Hb'.
  replace (lines ++ b :: b' :: more) with (((lines ++ [b]) ++ [b']) ++ more)
    by (by rewrite <- !app_assoc).
  rewrite (foldl_app _ ((lines ++ [b]) ++ [b'])).
  pose proof (build_doc_le more (foldl step st ((lines ++ [b]) ++ [b'])))
    as (_ & _ & Hle).
  pose proof (build_length lines st Hst) as Hlen. rewrite build_idx in Hlen.
  pose proof (build_snoc_blank lines b st Hb) as H1.
  pose proof (build_snoc_blank (lines ++ [b]) b' st Hb') as H2.
  rewrite H1 in H2.
  destruct (Hle (idx st + count_blank lines)
              (mkPar (par_label (idx st + count_blank lines + 1)) []))
    as (p' & Hp' & _ & _ & Heq).
  { rewrite H2, <- app_assoc. rewrite lookup_app_r by lia.
    by rewrite Hlen, Nat.sub_diag. }
  rewrite Hp'. f_equal. apply Heq.
  rewrite H2, !length_app, Hlen. simpl. lia.
Qed.
End builder_facts.

Section nlp_doc_facts.
Context (nlp : Pipeline).

Lemma nlp_line_doc_blank ic line :
  is_blank line = true →
  nlp_line_doc nlp ic line = (ic.1 + 1, open_par (par_label (ic.1 + 1)) ic.2).
Proof. intros Hb. unfold nlp_line_doc. by rewrite is_blank_truthy, Hb. Qed.

Lemma nlp_line_doc_text ic line :
  is_blank line = false →
  ∃ c', nlp_line_doc nlp ic line = (ic.1, c')
        ∧ c_root c' = c_root ic.2 ∧ c_closed c' = c_closed ic.2
        ∧ c_plabel c' = c_plabel ic.2
        ∧ sents_all c' = sents_all ic.2 ++ line_sents ic.1 (nlp (strip line)).
Proof.
  intros Hb. unfold nlp_line_doc. rewrite is_blank_truthy, Hb. simpl.
  eexists. split; [done|].
  by apply (nlp_sents_doc_spec ic.1 (nlp (strip line)) (mk_nlp_doc ic.2 0 true)).
Qed.

Lemma nlp_step_blank (ic : nat * cursor) line :
  is_blank line = true →
  (nlp_line_doc nlp ic line).2 = open_par (par_label (ic.1 + 1)) ic.2
  ∧ (nlp_line_doc nlp ic line).1 = ic.1 + 1.
Proof. intros Hb. by rewrite nlp_line_doc_blank. Qed.

Lemma nlp_step_text (ic : nat * cursor) line :
  is_blank line = false →
  grows ic.2 (nlp_line_doc nlp ic line).2 ∧ (nlp_line_doc nlp ic line).1 = ic.1.
Proof.
  intros Hb. destruct (nlp_line_doc_text ic line Hb) as (c' & -> & ? & ? & ? & Hs).
  split; [|done]. split_and!; [done..|]. simpl. rewrite Hs. by apply prefix_app_r.
Qed.
End nlp_doc_facts.

Section nltk_doc_facts.
Context `{Externals} (pl : str).

Lemma nltk_sentence_doc_spec i j c s :
  nltk_sentence_doc pl i j c s
  = mkCursor (c_root c) (c_closed c) (c_plabel c) (sents_all c)
      (Some (mkSent (sent_label i j)
               (map (nltk_word_label i j) (enumerate 1 (word_tokenize s pl))))).
Proof.
  rewrite nltk_sentence_doc_eq.
  by rewrite (add_words_open _ _ (mkSent (sent_label i j) [])).
Qed.

Lemma nltk_sentences_doc_spec i j ss c :
  let c' := foldl (nltk_sentence_doc pl i j) c ss in
  c_root c' = c_root c ∧ c_closed c' = c_closed c ∧ c_plabel c' = c_plabel c
  ∧ sents_all c' = sents_all c ++ nltk_line_sents pl i j ss.
Proof.
  revert c. induction ss as [|s ss IH]; intros c; cbn [foldl].
  - unfold nltk_line_sents. simpl. by rewrite app_nil_r.
  - rewrite nltk_sentence_doc_spec.
    edestruct IH as (Hr & Hc & Hp & Hs). cbn zeta.
    rewrite Hr, Hc, Hp, Hs. split_and!; [done..|].
    unfold sents_all at 1, nltk_line_sents. simpl. by rewrite <- app_assoc.
Qed.

Lemma nltk_step_blank d line :
  is_blank line = true →
  nd_cursor (nltk_line_doc pl d line) = open_par (par_label (nd_i d + 1)) (nd_cursor d)
  ∧ nd_i (nltk_line_doc pl d line) = nd_i d + 1.
Proof. intros Hb. unfold nltk_line_doc. by rewrite is_blank_truthy, Hb. Qed.

Lemma nltk_step_text d line :
  is_blank line = false →
  grows (nd_cursor d) (nd_cursor (nltk_line_doc pl d line))
  ∧ nd_i (nltk_line_doc pl d line) = nd_i d.
Proof.
  intros Hb. unfold nltk_line_doc. rewrite is_blank_truthy, Hb. simpl.
  split; [|done].
  destruct (nltk_sentences_doc_spec (nd_i d) (nd_j d)
              (sent_tokenize (strip line) pl) (nd_cursor d)) as (? & ? & ? & Hs).
  split_and!; [done..|]. rewrite Hs. by apply prefix_app_r.
Qed.
End nltk_doc_facts.

(** ** Paragraph numbers *)

Lemma digits_inj d1 d2 : digits d1 = digits d2 → d1 = d2.
Proof.
  revert d2. induction d1; intros d2 Heq; destruct d2;
    simpl in Heq; simplify_eq; f_equal; auto.
Qed.

Lemma str_of_nat_inj : Inj (=) (=) str_of_nat.
Proof.
  intros n m Heq. apply digits_inj in Heq.
  rewrite <- (Unsigned.of_to n), <- (Unsigned.of_to m). by rewrite Heq.
Qed.

Lemma xchildren_xml_of_doc d :
  xchildren (xml_of_doc d) = map xml_of_par (d_pars d).
Proof. done. Qed.

Lemma par_ids_labels d n :
  map p_label (d_pars d) = map par_label (seq 1 n) →
  par_ids (xml_of_doc d) = map (λ k, Some (str_of_nat k)) (seq 1 n)
  ∧ map xtag (xchildren (xml_of_doc d)) = map (λ _, py "p") (seq 1 n).
Proof.
  intros Hl. unfold par_ids, child_ids. rewrite xchildren_xml_of_doc, !map_map.
  split.
  - change (map (λ p, xattr (py "id") (xml_of_par p)) (d_pars d))
      with (map (λ p, attrib_get (py "id") (l_attrib (p_label p))) (d_pars d)).
    rewrite <- (map_map p_label (λ l, attrib_get (py "id") (l_attrib l))), Hl.
    by rewrite map_map.
  - change (map (λ p, xtag (xml_of_par p)) (d_pars d))
      with (map (λ p, l_tag (p_label p)) (d_pars d)).
    rewrite <- (map_map p_label l_tag), Hl. by rewrite map_map.
Qed.

Lemma start_labels :
  map p_label (d_pars (doc_of start_cursor)) = map par_label (seq 1 1).
Proof. done. Qed.

Section trees.
Context `{Externals} (pl : str) (nlp : Pipeline) (stanza_unique : bool).

Lemma nlp_doc_of_after lines : nlp_doc_of nlp lines = doc_of (nlp_after nlp lines).2.
Proof. done. Qed.

Lemma nltk_doc_of_after lines :
  nltk_doc_of pl lines = doc_of (nd_cursor (nltk_after pl lines)).
Proof. done. Qed.

Lemma nlp_after_idx lines : (nlp_after nlp lines).1 = 1 + count_blank lines.
Proof.
  apply (build_idx snd fst (nlp_line_doc nlp)
           (nlp_step_blank nlp) (nlp_step_text nlp) lines (1, start_cursor)).
Qed.

Lemma nltk_after_idx lines : nd_i (nltk_after pl lines) = 1 + count_blank lines.
Proof.
  apply (build_idx nd_cursor nd_i (nltk_line_doc pl)
           (nltk_step_blank pl) (nltk_step_text pl) lines
           (mk_nltk_doc start_cursor 1 1)).
Qed.

Lemma nlp_doc_labels lines :
  map p_label (d_pars (nlp_doc_of nlp lines))
  = map par_label (seq 1 (S (count_blank lines))).
Proof.
  apply (build_par_labels snd fst (nlp_line_doc nlp)
           (nlp_step_blank nlp) (nlp_step_text nlp) lines (1, start_cursor)).
  apply start_labels.
Qed.

Lemma nltk_doc_labels lines :
  map p_label (d_pars (nltk_doc_of pl lines))
  = map par_label (seq 1 (S (count_blank lines))).
Proof.
  apply (build_par_labels nd_cursor nd_i (nltk_line_doc pl)
           (nltk_step_blank pl) (nltk_step_text pl) lines
           (mk_nltk_doc start_cursor 1 1)).
  apply start_labels.
Qed.

Lemma nlp_doc_length lines :
  length (d_pars (nlp_doc_of nlp lines)) = S (count_blank lines).
Proof.
  by rewrite <- (length_map p_label), nlp_doc_labels, length_map, length_seq.
Qed.

Lemma nltk_doc_length lines :
  length (d_pars (nltk_doc_of pl lines)) = S (count_blank lines).
Proof.
  by rewrite <- (length_map p_label), nltk_doc_labels, length_map, length_seq.
Qed.
End trees.

(** C7: for every input, also the empty one, on which they write a tree
    (lxml accepts the words), the tree written by [nltk_tokenize] and the
    tree written by [nlp_process] have at least one [p] element under the
    root, one more than there are blank lines, all children of the root
    are [p] elements, and their ids are 1, 2, ..., n in this order, no two
    of them equal; for an empty file both write the one paragraph 1. *)
Theorem C7_paragraph_ids `{Externals} (pl : str) (nlp : Pipeline)
    (stanza_unique : bool) (lines : list str) :
  nltk_compatible pl lines = true →
  nlp_compatible nlp lines = true →
  let n := S (count_blank lines) in
  let ids := map (λ k, Some (str_of_nat k)) (seq 1 n) in
  (∃ t, nltk_tree pl lines = Ok t
        ∧ par_ids t = ids
        ∧ map xtag (xchildren t) = map (λ _, py "p") (seq 1 n))
  ∧ (∃ t, nlp_tree nlp stanza_unique lines = Ok t
          ∧ par_ids t = ids
          ∧ map xtag (xchildren t) = map (λ _, py "p") (seq 1 n))
  ∧ NoDup ids
  ∧ map (λ pt, par_ids pt.2)
      (written (@nltk_tokenize demo (py "empty.txt") (py "out.xml") (py "en")))
    = [[Some (py "1")]]
  ∧ map (λ pt, par_ids pt.2)
      (written (@nlp_process demo demo_nlp (py "empty.txt") (py "out.xml") false))
    = [[Some (py "1")]].
Proof.
  intros Hnltk Hnlp n ids. split_and!; [| | |vm_compute; reflexivity..].
  - exists (xml_of_doc (nltk_doc_of pl lines)). split; [by apply nltk_tree_doc|].
    apply par_ids_labels, nltk_doc_labels.
  - exists (xml_of_doc (nlp_doc_of nlp lines)). split; [by apply nlp_tree_doc|].
    apply par_ids_labels, nlp_doc_labels.
  - unfold ids. apply NoDup_fmap_2; [|apply NoDup_seq].
    intros a b Hab. apply str_of_nat_inj. congruence.
Qed.

(** ** Merged sentences *)

Lemma merge_groups_cons c cs :
  ∃ g gs, merge_groups (c :: cs) = (c :: g) :: gs.
Proof.
  simpl. destruct (length c =? 1); [|by eexists _, _].
  destruct (merge_groups cs); by eexists _, _.
Qed.

Lemma merge_groups_single c cs :
  length c = 1 →
  merge_groups (c :: cs)
  = match merge_groups cs with
    | g :: gs => (c :: g) :: gs
    | [] => [[c]]
    end.
Proof. intros Hc. simpl. by rewrite Hc. Qed.

Lemma merge_groups_other c cs :
  length c ≠ 1 → merge_groups (c :: cs) = [c] :: merge_groups cs.
Proof.
  intros Hc. simpl. by destruct (Nat.eqb_spec (length c) 1).
Qed.



Lemma texts_enumerate i j k c :
  map (λ kt, l_text (nlp_word_label i j kt)) (enumerate k c) = texts c.
Proof.
  revert k. induction c as [|t c IH]; intros k; [done|].
  simpl. by rewrite IH.
Qed.

Lemma child_texts_group i j l g :
  child_texts (xml_of_sent (mkSent l (group_words i j g))) = group_texts g.
Proof.
  unfold child_texts, xml_of_sent. simpl. rewrite map_map.
  change (map (λ w, xtext (xml_of_word w)) (group_words i j g))
    with (map l_text (group_words i j g)).
  unfold group_words, group_texts. induction g as [|c g IH]; [done|].
  rewrite !bind_cons, map_app, IH, map_map. by rewrite texts_enumerate.
Qed.

Lemma child_texts_numbered i j gs :
  map child_texts (map xml_of_sent (numbered i j gs)) = map group_texts gs.
Proof.
  revert j. induction gs as [|g gs IH]; intros j; [done|].
  cbn [numbered map]. by rewrite IH, child_texts_group.
Qed.



Lemma count_blank_snoc lines line :
  count_blank (lines ++ [line])
  = count_blank lines + (if is_blank line then 1 else 0).
Proof. rewrite count_blank_app. simpl. lia. Qed.

Section doc_steps.
Context `{Externals} (pl : str) (nlp : Pipeline).

Lemma nlp_doc_snoc_blank lines b :
  is_blank b = true →
  d_pars (nlp_doc_of nlp (lines ++ [b]))
  = d_pars (nlp_doc_of nlp lines)
    ++ [mkPar (par_label (S (S (count_blank lines)))) []].
Proof.
  intros Hb. unfold nlp_doc_of.
  rewrite (build_snoc_blank snd fst (nlp_line_doc nlp)
             (nlp_step_blank nlp) (nlp_step_text nlp) lines b (1, start_cursor) Hb).
  cbn [fst]. by rewrite Nat.add_1_r.
Qed.

Lemma nltk_doc_snoc_blank lines b :
  is_blank b = true →
  d_pars (nltk_doc_of pl (lines ++ [b]))
  = d_pars (nltk_doc_of pl lines)
    ++ [mkPar (par_label (S (S (count_blank lines)))) []].
Proof.
  intros Hb. unfold nltk_doc_of.
  rewrite (build_snoc_blank nd_cursor nd_i (nltk_line_doc pl)
             (nltk_step_blank pl) (nltk_step_text pl) lines b
             (mk_nltk_doc start_cursor 1 1) Hb).
  cbn [nd_i]. by rewrite Nat.add_1_r.
Qed.

Lemma nlp_doc_blank_blank lines b b' more :
  is_blank b = true → is_blank b' = true →
  d_pars (nlp_doc_of nlp (lines ++ b :: b' :: more)) !! S (count_blank lines)
  = Some (mkPar (par_label (S (S (count_blank lines)))) []).
Proof.
  intros Hb Hb'.
  pose proof (build_blank_blank snd fst (nlp_line_doc nlp)
                (nlp_step_blank nlp) (nlp_step_text nlp) lines b b' more
                (1, start_cursor) start_labels Hb Hb') as Hbb.
  simpl in Hbb. rewrite Nat.add_1_r in Hbb. apply Hbb.
Qed.

Lemma nltk_doc_blank_blank lines b b' more :
  is_blank b = true → is_blank b' = true →
  d_pars (nltk_doc_of pl (lines ++ b :: b' :: more)) !! S (count_blank lines)
  = Some (mkPar (par_label (S (S (count_blank lines)))) []).
Proof.
  intros Hb Hb'.
  pose proof (build_blank_blank nd_cursor nd_i (nltk_line_doc pl)
                (nltk_step_blank pl) (nltk_step_text pl) lines b b' more
                (mk_nltk_doc start_cursor 1 1) start_labels Hb Hb') as Hbb.
  simpl in Hbb. rewrite Nat.add_1_r in Hbb. apply Hbb.
Qed.

(** One more line of text: the current paragraph gets the sentences of
    that line after those it has. *)
Lemma nlp_doc_snoc_text lines line :
  is_blank line = false →
  ∃ closed l ss,
    d_pars (nlp_doc_of nlp lines) = closed ++ [mkPar l ss]
    ∧ d_pars (nlp_doc_of nlp (lines ++ [line]))
      = closed ++ [mkPar l (ss ++ line_sents (S (count_blank lines))
                                    (nlp (strip line)))].
Proof.
  intros Hb. rewrite !nlp_doc_of_after. unfold nlp_after.
  rewrite foldl_app. cbn [foldl]. fold (nlp_after nlp lines).
  destruct (nlp_line_doc_text nlp (nlp_after nlp lines) line Hb)
    as (c' & -> & Hr & Hc & Hp & Hs).
  rewrite nlp_after_idx in Hs.
  exists (c_closed (nlp_after nlp lines).2), (c_plabel (nlp_after nlp lines).2),
    (sents_all (nlp_after nlp lines).2).
  split; [done|]. unfold doc_of, current_par. cbn [d_pars snd].
  fold (sents_all c'). by rewrite Hc, Hp, Hs.
Qed.
End doc_steps.

Section nltk_steps.
Context `{Externals} (pl : str).

Lemma nltk_j_foldl lines d n :
  nd_j d = S n →
  nd_j (foldl (nltk_line_doc pl) d lines)
  = S (foldl (λ n line, if is_blank line then 0 else S n) n lines).
Proof.
  revert d n. induction lines as [|line lines IH]; intros d n Hd; [done|].
  cbn [foldl]. apply IH. unfold nltk_line_doc.
  rewrite is_blank_truthy. destruct (is_blank line); simpl; [done|]. rewrite Hd. lia.
Qed.

Lemma nltk_after_j lines : nd_j (nltk_after pl lines) = S (trailing_text lines).
Proof. by apply nltk_j_foldl. Qed.

(** One more line of text in [nltk_tokenize]. *)
Lemma nltk_doc_snoc_text lines line :
  is_blank line = false →
  ∃ closed l ss,
    d_pars (nltk_doc_of pl lines) = closed ++ [mkPar l ss]
    ∧ d_pars (nltk_doc_of pl (lines ++ [line]))
      = closed ++ [mkPar l (ss ++ nltk_line_sents pl (S (count_blank lines))
                                    (S (trailing_text lines))
                                    (sent_tokenize (strip line) pl))].
Proof.
  intros Hb. rewrite !nltk_doc_of_after. unfold nltk_after.
  rewrite foldl_app. cbn [foldl]. fold (nltk_after pl lines).
  unfold nltk_line_doc at 1. rewrite is_blank_truthy, Hb. cbn [negb nd_cursor].
  destruct (nltk_sentences_doc_spec pl (nd_i (nltk_after pl lines))
              (nd_j (nltk_after pl lines)) (sent_tokenize (strip line) pl)
              (nd_cursor (nltk_after pl lines))) as (Hr & Hc & Hp & Hs).
  cbn zeta in Hr, Hc, Hp, Hs.
  exists (c_closed (nd_cursor (nltk_after pl lines))),
    (c_plabel (nd_cursor (nltk_after pl lines))),
    (sents_all (nd_cursor (nltk_after pl lines))).
  split; [done|]. unfold doc_of, current_par. cbn [d_pars].
  match goal with |- context [c_sents ?c ++ option_list (c_open ?c)] =>
    fold (sents_all c) end.
  rewrite Hc, Hp, Hs, nltk_after_idx, nltk_after_j. done.
Qed.

End nltk_steps.

Lemma snoc_text_xml d d' closed l ss new :
  d_pars d = closed ++ [mkPar l ss] →
  d_pars d' = closed ++ [mkPar l (ss ++ new)] →
  ∃ ps p,
    xchildren (xml_of_doc d) = ps ++ [p]
    ∧ xchildren (xml_of_doc d')
      = ps ++ [XNode (xlabel p) (xchildren p ++ map xml_of_sent new)].
Proof.
  intros H0 H1. exists (map xml_of_par closed), (xml_of_par (mkPar l ss)).
  rewrite !xchildren_xml_of_doc, H0, H1, !map_app. split; [done|].
  cbn [map]. unfold xml_of_par. cbn [p_label p_sents xlabel xchildren].
  by rewrite map_app.
Qed.

Lemma numbered_ids i j gs :
  map (λ s, xattr (py "id") (xml_of_sent s)) (numbered i j gs)
  = map (λ j, Some (fmt_s i j)) (seq (S j) (length gs)).
Proof.
  revert j. induction gs as [|g gs IH]; intros j; [done|].
  cbn [numbered map length seq]. by rewrite IH.
Qed.

Lemma length_numbered i j gs : length (numbered i j gs) = length gs.
Proof.
  revert j. induction gs as [|g gs IH]; intros j; [done|].
  cbn [numbered length]. by rewrite IH.
Qed.



Lemma child_texts_nltk_line_sents `{Externals} pl i j ss :
  map child_texts (map xml_of_sent (nltk_line_sents pl i j ss))
  = map (λ s, map Some (word_tokenize s pl)) ss.
Proof.
  unfold nltk_line_sents. rewrite !map_map. apply map_ext. intros s.
  unfold child_texts, xml_of_sent. cbn [xchildren s_words]. rewrite !map_map.
  generalize 1. induction (word_tokenize s pl) as [|w ws IH]; intros k; [done|].
  cbn [enumerate map]. by rewrite IH.
Qed.

Lemma xml_of_empty_par i : xml_of_par (mkPar (par_label i) []) = empty_par i.
Proof. done. Qed.

Lemma nlp_compatible_prefix (nlp : Pipeline) l1 l2 :
  nlp_compatible nlp (l1 ++ l2) = true → nlp_compatible nlp l1 = true.
Proof. rewrite nlp_compatible_app. intros Hok. by apply andb_prop in Hok as [? _]. Qed.

Lemma nltk_compatible_prefix `{Externals} pl l1 l2 :
  nltk_compatible pl (l1 ++ l2) = true → nltk_compatible pl l1 = true.
Proof. rewrite nltk_compatible_app. intros Hok. by apply andb_prop in Hok as [? _]. Qed.

Lemma nlp_compatible_snoc_blank (nlp : Pipeline) lines b :
  is_blank b = true → nlp_compatible nlp lines = true →
  nlp_compatible nlp (lines ++ [b]) = true.
Proof.
  intros Hb Hok. by rewrite nlp_compatible_app, Hok, nlp_compatible_blank.
Qed.

Lemma nltk_compatible_snoc_blank `{Externals} pl lines b :
  is_blank b = true → nltk_compatible pl lines = true →
  nltk_compatible pl (lines ++ [b]) = true.
Proof.
  intros Hb Hok. by rewrite nltk_compatible_app, Hok, nltk_compatible_blank.
Qed.



(** C9: every line that is blank after stripping appends a new [p]
    element, in [nltk_tokenize] and in [nlp_process] alike, whenever they
    build a tree (lxml accepts the words).  With [n] paragraphs built so
    far (one more than the blank lines read), a blank line at the end of
    the input adds paragraph [n + 1] without any sentence, and a blank
    line that is followed by another blank line leaves its paragraph
    [n + 1] without any sentence, whatever comes later: these empty
    paragraphs take their place in the numbering. *)
Theorem C9_blank_lines `{Externals} (pl : str) (nlp : Pipeline)
    (stanza_unique : bool) (lines more : list str) (b b' : str) :
  is_blank b = true → is_blank b' = true →
  nltk_compatible pl (lines ++ b :: b' :: more) = true →
  nlp_compatible nlp (lines ++ b :: b' :: more) = true →
  let n := S (count_blank lines) in
  (∃ t t1 t2,
     nltk_tree pl lines = Ok t
     ∧ nltk_tree pl (lines ++ [b]) = Ok t1
     ∧ nltk_tree pl (lines ++ b :: b' :: more) = Ok t2
     ∧ length (xchildren t) = n
     ∧ xchildren t1 = xchildren t ++ [empty_par (S n)]
     ∧ xchildren t2 !! n = Some (empty_par (S n)))
  ∧ (∃ t t1 t2,
       nlp_tree nlp stanza_unique lines = Ok t
       ∧ nlp_tree nlp stanza_unique (lines ++ [b]) = Ok t1
       ∧ nlp_tree nlp stanza_unique (lines ++ b :: b' :: more) = Ok t2
       ∧ length (xchildren t) = n
       ∧ xchildren t1 = xchildren t ++ [empty_par (S n)]
       ∧ xchildren t2 !! n = Some (empty_par (S n))).
Proof.
  intros Hb Hb' Hnltk Hnlp n. subst n. split.
  - pose proof (nltk_compatible_prefix _ _ _ Hnltk) as Hnltk0.
    pose proof (nltk_compatible_snoc_blank pl lines b Hb Hnltk0) as Hnltk1.
    eexists _, _, _. rewrite !nltk_tree_doc by done.
    rewrite !xchildren_xml_of_doc. split_and!; [done..| | |].
    + by rewrite length_map, nltk_doc_length.
    + by rewrite nltk_doc_snoc_blank, map_app.
    + by rewrite list_lookup_fmap, nltk_doc_blank_blank.
  - pose proof (nlp_compatible_prefix _ _ _ Hnlp) as Hnlp0.
    pose proof (nlp_compatible_snoc_blank nlp lines b Hb Hnlp0) as Hnlp1.
    eexists _, _, _. rewrite !nlp_tree_doc by done.
    rewrite !xchildren_xml_of_doc. split_and!; [done..| | |].
    + by rewrite length_map, nlp_doc_length.
    + by rewrite nlp_doc_snoc_blank, map_app.
    + by rewrite list_lookup_fmap, nlp_doc_blank_blank.
Qed.

Lemma line_sents_cons i c cs :
  ∃ ws rest,
    map xml_of_sent (line_sents i (c :: cs))
    = XNode (sent_label i 1) (nlp_word_nodes i 1 c ++ ws) :: rest.
Proof.
  unfold line_sents. destruct (merge_groups_cons c cs) as (g & gs & ->).
  cbn [numbered map]. eexists _, _. f_equal. unfold xml_of_sent. cbn [s_label s_words].
  f_equal. unfold group_words. rewrite bind_cons, map_app. f_equal.
  unfold nlp_word_nodes. by rewrite map_map.
Qed.

(** After a blank line the next line of text starts the first sentence of
    a new paragraph, whatever the sentence before the blank line was. *)
Lemma blank_line_then_text (nlp : Pipeline) (stanza_unique : bool)
    (lines : list str) (b line : str) (c : list Token) (cs : list (list Token)) :
  is_blank b = true → is_blank line = false → nlp (strip line) = c :: cs →
  nlp_compatible nlp (lines ++ [b; line]) = true →
  ∃ t t' ws rest,
    nlp_tree nlp stanza_unique lines = Ok t
    ∧ nlp_tree nlp stanza_unique (lines ++ [b; line]) = Ok t'
    ∧ let i := S (length (xchildren t)) in
      xchildren t'
      = xchildren t
        ++ [XNode (par_label i)
              (XNode (sent_label i 1) (nlp_word_nodes i 1 c ++ ws) :: rest)].
Proof.
  intros Hb Hl Hc Hok. pose proof (nlp_compatible_prefix _ _ _ Hok) as Hok0.
  destruct (nlp_doc_snoc_text nlp (lines ++ [b]) line Hl)
    as (closed & l & ss & Hbefore & Hafter).
  rewrite nlp_doc_snoc_blank in Hbefore by done.
  apply app_inj_tail in Hbefore as [<- Heq]. injection Heq as <- <-.
  rewrite count_blank_snoc, Hb, Hc in Hafter.
  destruct (line_sents_cons (S (count_blank lines + 1)) c cs) as (ws & rest & Hs).
  exists (xml_of_doc (nlp_doc_of nlp lines)),
    (xml_of_doc (nlp_doc_of nlp (lines ++ [b; line]))), ws, rest.
  rewrite !nlp_tree_doc by done. split_and!; [done..|].
  cbn zeta. rewrite !xchildren_xml_of_doc, length_map, nlp_doc_length.
  replace (lines ++ [b; line]) with ((lines ++ [b]) ++ [line])
    by (by rewrite <- app_assoc).
  rewrite Hafter, map_app. cbn [map]. unfold xml_of_par at 2.
  cbn [p_label p_sents app]. rewrite Hs.
  by replace (S (count_blank lines + 1)) with (S (S (count_blank lines))) by lia.
Qed.

(** C5: a blank line overrides the merge safeguard.  In [nlp_process], a
    blank line followed by a line of text leaves the paragraphs built so
    far as they are and adds paragraph [i + 1], whose first sentence
    element is [s(i+1).1] and starts with the tokens of the first sentence
    of that line (whenever a tree is built: lxml accepts the tokens); and
    for the lines [Mr], blank, [Smith left.] the output has the paragraphs
    1 and 2, the first with the one sentence [s1.1] holding only [Mr], the
    second with the one sentence [s2.1]. *)
Theorem C5_blank_line_stops_merge :
  (∀ (nlp : Pipeline) (stanza_unique : bool) (lines : list str) (b line : str)
     (c : list Token) (cs : list (list Token)),
     is_blank b = true → is_blank line = false → nlp (strip line) = c :: cs →
     nlp_compatible nlp (lines ++ [b; line]) = true →
     ∃ t t' ws rest,
       nlp_tree nlp stanza_unique lines = Ok t
       ∧ nlp_tree nlp stanza_unique (lines ++ [b; line]) = Ok t'
       ∧ let i := S (length (xchildren t)) in
         xchildren t'
         = xchildren t
           ++ [XNode (par_label i)
                 (XNode (sent_label i 1) (nlp_word_nodes i 1 c ++ ws) :: rest)])
  ∧ demo_nlp (py "Mr") = [[demo_token "Mr"]]
  ∧ map (λ pt, (par_ids pt.2, sentence_ids pt.2, word_texts pt.2))
      (written (@nlp_process demo demo_nlp (py "mr_blank_smith.txt") (py "out.xml")
                  false))
    = [([Some (py "1"); Some (py "2")],
        [[Some (py "s1.1")]; [Some (py "s2.1")]],
        [[[Some (py "Mr")]];
         [[Some (py "Smith"); Some (py "left"); Some (py ".")]]])].
Proof.
  split_and!.
  - apply blank_line_then_text.
  - reflexivity.
  - vm_compute. reflexivity.
Qed.

(** C4, as amended: in [nlp_process] the merge safeguard does not reach
    over the end of a line.  One more line of text (with tokens that lxml
    accepts) leaves every sentence element built so far as it is and adds
    to the current paragraph one new sentence element per group of
    [merge_groups] of its own sentences, so its first sentence always
    opens a new element, also when the last sentence of the line before
    had exactly one token. *)
Theorem C4_merge_ends_with_line (nlp : Pipeline) (stanza_unique : bool)
    (lines : list str) (line : str) :
  is_blank line = false →
  nlp_compatible nlp (lines ++ [line]) = true →
  ∃ t t' ps p ss,
    nlp_tree nlp stanza_unique lines = Ok t
    ∧ nlp_tree nlp stanza_unique (lines ++ [line]) = Ok t'
    ∧ xchildren t = ps ++ [p]
    ∧ xchildren t' = ps ++ [XNode (xlabel p) (xchildren p ++ ss)]
    ∧ map child_texts ss = map group_texts (merge_groups (nlp (strip line))).
Proof.
  intros Hl Hok. pose proof (nlp_compatible_prefix _ _ _ Hok) as Hok0.
  destruct (nlp_doc_snoc_text nlp lines line Hl)
    as (closed & l & ss & Hbefore & Hafter).
  exists (xml_of_doc (nlp_doc_of nlp lines)),
    (xml_of_doc (nlp_doc_of nlp (lines ++ [line]))),
    (map xml_of_par closed), (xml_of_par (mkPar l ss)),
    (map xml_of_sent (line_sents (S (count_blank lines)) (nlp (strip line)))).
  rewrite !nlp_tree_doc by done.
  rewrite !xchildren_xml_of_doc, Hbefore, Hafter, !map_app.
  split_and!; [done..| |].
  - cbn [map]. unfold xml_of_par. cbn [p_label p_sents xlabel xchildren].
    by rewrite map_app.
  - apply child_texts_numbered.
Qed.


Lemma merge_groups_length cands : length (merge_groups cands) = opened cands.
Proof.
  induction cands as [|c cs IH]; [done|].
  destruct cs as [|c' cs].
  - destruct (decide (length c = 1)) as [Hc|Hc].
    + by rewrite merge_groups_single.
    + by rewrite merge_groups_other.
  - unfold opened in *. change (removelast (c :: c' :: cs)) with (c :: removelast (c' :: cs)).
    destruct (decide (length c = 1)) as [Hc|Hc].
    + rewrite merge_groups_single by done. rewrite filter_cons_False by tauto.
      rewrite <- IH. by destruct (merge_groups (c' :: cs)).
    + rewrite merge_groups_other by done. rewrite filter_cons_True by done.
      cbn [length]. by rewrite IH.
Qed.

Lemma merge_groups_join cands : mjoin (merge_groups cands) = cands.
Proof.
  induction cands as [|c cs IH]; [done|].
  destruct (decide (length c = 1)) as [Hc|Hc].
  - rewrite merge_groups_single by done.
    destruct (merge_groups cs) as [|g gs]; simpl in *; by rewrite <- IH.
  - rewrite merge_groups_other by done. simpl. by rewrite IH.
Qed.



(** ** The functions of the module *)

Lemma nltk_tokenize_tree `{Externals} file_in file_out language pl content :
  NLTK_LANGUAGES !! language = Some pl → pl ≠ [] →
  files !! file_in = Some (Text content) →
  nltk_tokenize file_in file_out language
  = finish file_in file_out (nltk_tree pl (readlines content)).
Proof.
  intros Hl Hpl Hf. unfold nltk_tokenize, nltk_tree, open_readlines, tree_write, finish.
  rewrite Hl. destruct pl as [|ch pl]; [done|]. rewrite Hf, nltk_start_eq.
  unfold lift, mbind, IO_bind, result_bind, emit, mret, IO_ret, raise.
  cbn beta iota. cbn [fst snd].
  destruct (foldM (nltk_line (ch :: pl) 0) (readlines content) _) as [v'|e]; [|done].
  by destruct (writable file_out).
Qed.

Lemma nlp_process_tree `{Externals} (nlp : Nlp) file_in file_out stanza_unique content :
  files !! file_in = Some (Text content) →
  nlp_process nlp file_in file_out stanza_unique
  = finish file_in file_out (nlp_tree nlp stanza_unique (readlines content)).
Proof.
  intros Hf. unfold nlp_process, nlp_tree, open_readlines, tree_write, finish.
  rewrite Hf. change nlp_start
    with (Ok (0, mk_nlp_vars (flat_doc (doc_of start_cursor)) 1 (par_ref start_cursor)
                   0 true None)).
  unfold lift, mbind, IO_bind, result_bind, emit, mret, IO_ret, raise.
  cbn beta iota. cbn [fst snd].
  destruct (foldM (nlp_line nlp stanza_unique 0) (readlines content) _) as [v'|e];
    [|done].
  by destruct (writable file_out).
Qed.

Lemma nltk_tokenize_writes `{Externals} file_in file_out language pl content :
  NLTK_LANGUAGES !! language = Some pl → pl ≠ [] →
  files !! file_in = Some (Text content) →
  nltk_compatible pl (readlines content) = true →
  writable file_out = true →
  nltk_tokenize file_in file_out language
  = ([OpenRead file_in;
      WriteTree file_out (xml_of_doc (nltk_doc_of pl (readlines content)))], Ok tt).
Proof.
  intros Hl Hpl Hf Hok Hw.
  rewrite (nltk_tokenize_tree _ _ _ pl content), nltk_tree_doc by done.
  unfold finish. by rewrite Hw.
Qed.

Lemma nlp_process_writes `{Externals} (nlp : Pipeline) file_in file_out
    stanza_unique content :
  files !! file_in = Some (Text content) →
  nlp_compatible nlp (readlines content) = true →
  writable file_out = true →
  nlp_process nlp file_in file_out stanza_unique
  = ([OpenRead file_in;
      WriteTree file_out (xml_of_doc (nlp_doc_of nlp (readlines content)))], Ok tt).
Proof.
  intros Hf Hok Hw.
  rewrite (nlp_process_tree _ _ _ _ content), nlp_tree_doc by done.
  unfold finish. by rewrite Hw.
Qed.

(** C6: for a language without an entry in [NLTK_LANGUAGES],
    [nltk_tokenize] raises a [ClickException] and does nothing else: no
    file is opened and no tree is written.  The same holds for
    [spacy_tokenize] and [SPACY_MODELS]. *)
Theorem C6_unsupported_language `{Externals} (file_in file_out language : str) :
  (NLTK_LANGUAGES !! language = None →
   nltk_tokenize file_in file_out language
   = ([], Raise (ClickException (nltk_message language))))
  ∧ (SPACY_MODELS !! language = None →
     spacy_tokenize file_in file_out language
     = ([], Raise (ClickException (spacy_message language)))).
Proof.
  split; intros Hl.
  - unfold nltk_tokenize. by rewrite Hl.
  - unfold spacy_tokenize. by rewrite Hl.
Qed.

Lemma C6_witness :
  (@NLTK_LANGUAGES demo !! py "xx" = None
   ∧ @nltk_tokenize demo (py "hello.txt") (py "out.xml") (py "xx")
     = ([], Raise (ClickException (nltk_message (py "xx")))))
  ∧ (@SPACY_MODELS demo !! py "xx" = None
     ∧ @spacy_tokenize demo (py "hello.txt") (py "out.xml") (py "xx")
       = ([], Raise (ClickException (spacy_message (py "xx"))))).
Proof.
  split; (split; [reflexivity|]).
  - apply (proj1 (@C6_unsupported_language demo (py "hello.txt") (py "out.xml")
                    (py "xx"))). reflexivity.
  - apply (proj2 (@C6_unsupported_language demo (py "hello.txt") (py "out.xml")
                    (py "xx"))). reflexivity.
Defined.

(** C8: [uplug_tokenize] starts the command and returns normally,
    whatever the exit status of the command and whatever it writes to its
    standard output and standard error, none of which reaches the
    caller. *)
Theorem C8_uplug_silent `{Externals} (file_in file_out language : str) :
  uplug_tokenize file_in file_out language
  = ([Spawn (uplug_command file_in file_out language)], Ok tt).
Proof.
  unfold uplug_tokenize, subprocess_call.
  by destruct (shell (uplug_command file_in file_out language)) as [[status out] err].
Qed.

(** C10: [tokenize_single] with a tokenizer that is none of the five
    constants returns without any effect, and with the TreeTagger
    constant (different from the other four) it prints its message and
    returns; no file is opened and no tree is written. *)
Theorem C10_dispatch_noop `{Externals} (file_in file_out language tokenizer : str) :
  (tokenizer ∉ [UPLUG; NLTK; SPACY; STANZA; TREETAGGER] →
   tokenize_single file_in file_out language tokenizer = ([], Ok tt))
  ∧ (TREETAGGER ∉ [UPLUG; NLTK; SPACY; STANZA] →
     tokenize_single file_in file_out language TREETAGGER
     = ([Echo (py "Using TreeTagger tokenization")], Ok tt)).
Proof.
  split; intros Hnot; unfold tokenize_single.
  - repeat (case_decide as Heq;
              [exfalso; apply Hnot; rewrite Heq; set_solver|clear Heq]).
    done.
  - do 4 (case_decide as Heq;
            [exfalso; apply Hnot; rewrite Heq; set_solver|clear Heq]).
    by rewrite decide_True.
Qed.

Lemma C10_witness :
  ((py "moses" ∉ [@UPLUG demo; @NLTK demo; @SPACY demo; @STANZA demo; @TREETAGGER demo])
   ∧ @tokenize_single demo (py "hello.txt") (py "out.xml") (py "en") (py "moses")
     = ([], Ok tt))
  ∧ ((@TREETAGGER demo ∉ [@UPLUG demo; @NLTK demo; @SPACY demo; @STANZA demo])
     ∧ @tokenize_single demo (py "hello.txt") (py "out.xml") (py "en") (@TREETAGGER demo)
       = ([Echo (py "Using TreeTagger tokenization")], Ok tt)).
Proof.
  assert (H1 : py "moses"
               ∉ [@UPLUG demo; @NLTK demo; @SPACY demo; @STANZA demo; @TREETAGGER demo])
    by (apply (bool_decide_unpack _); vm_compute; exact I).
  assert (H2 : @TREETAGGER demo ∉ [@UPLUG demo; @NLTK demo; @SPACY demo; @STANZA demo])
    by (apply (bool_decide_unpack _); vm_compute; exact I).
  split; (split; [assumption|]).
  - apply (proj1 (@C10_dispatch_noop demo (py "hello.txt") (py "out.xml") (py "en")
                    (py "moses"))), H1.
  - apply (proj2 (@C10_dispatch_noop demo (py "hello.txt") (py "out.xml") (py "en")
                    (py "moses"))), H2.
Defined.

Lemma together_word_texts t ws :
  together t ws → ∃ l a b, l ∈ mjoin (word_texts t) ∧ l = a ++ ws ++ b.
Proof.
  intros (p & s & a & b & Hp & Hs & Hws). exists (child_texts s), a, b.
  split; [|done]. apply list_elem_of_join. exists (map child_texts (xchildren p)).
  split; [by apply list_elem_of_fmap_2|].
  unfold word_texts. by apply (list_elem_of_fmap_2 (λ p, map child_texts (xchildren p))).
Qed.

(** C1, on the failing inputs: [nltk_tokenize] gives the two sentences of
    the one line [Hello world. Good bye.] the same id [s1.1], and
    [nlp_process] gives the sentences of two successive lines of one
    paragraph the same id [s1.1]. *)
Theorem C1_sentence_ids_repeat :
  map (λ pt, sentence_ids pt.2)
    (written (@nltk_tokenize demo (py "hello.txt") (py "out.xml") (py "en")))
  = [[[Some (py "s1.1"); Some (py "s1.1")]]]
  ∧ map (λ pt, sentence_ids pt.2)
      (written (@nlp_process demo demo_nlp (py "two_lines.txt") (py "out.xml") false))
    = [[[Some (py "s1.1"); Some (py "s1.1")]]].
Proof. split; vm_compute; reflexivity. Qed.

(** C2, on the failing input: for the sentences [[Mr]] and
    [[Smith, left, .]] of one line, [nlp_process] builds one sentence
    element [s1.1] with the four words [Mr], [Smith], [left], [.] in
    this order, but their ids are [w1.1.1], [w1.1.1], [w1.1.2],
    [w1.1.3]: the word counter starts again at 1 for the second
    sentence. *)
Theorem C2_word_ids_repeat :
  demo_nlp (py "Mr Smith left.")
  = [[demo_token "Mr"]; [demo_token "Smith"; demo_token "left"; demo_token "."]]
  ∧ map (λ pt, (sentence_ids pt.2, word_ids pt.2, word_texts pt.2))
      (written (@nlp_process demo demo_nlp (py "mr_smith.txt") (py "out.xml") false))
    = [([[Some (py "s1.1")]],
        [[[Some (py "w1.1.1"); Some (py "w1.1.1");
           Some (py "w1.1.2"); Some (py "w1.1.3")]]],
        [[[Some (py "Mr"); Some (py "Smith"); Some (py "left"); Some (py ".")]]])].
Proof. split; vm_compute; reflexivity. Qed.



(** C4 fails: for the lines [Mr] and [Smith left.] of one paragraph,
    [nlp_process] numbers the sentence of the second line [s1.1] again
    and does not put its words into the sentence element of [Mr]. *)
Lemma C4_merge_stops_at_line_end :
  demo_nlp (strip (py "Mr" ++ nl)) = [[demo_token "Mr"]]
  ∧ demo_nlp (strip (py "Smith left." ++ nl))
    = [[demo_token "Smith"; demo_token "left"; demo_token "."]]
  ∧ ∃ t, nlp_tree demo_nlp false [py "Mr" ++ nl; py "Smith left." ++ nl] = Ok t
         ∧ sentence_ids t = [[Some (py "s1.1"); Some (py "s1.1")]]
         ∧ ¬ together t ([Some (py "Mr")]
                         ++ [Some (py "Smith"); Some (py "left"); Some (py ".")]).
Proof.
  split_and!; [reflexivity..|].
  eexists. split; [by apply nlp_tree_doc|]. split; [vm_compute; reflexivity|].
  intros Ht. apply together_word_texts in Ht as (l & a & b & Hl & Heq).
  assert (Hw : mjoin (word_texts
                         (xml_of_doc (nlp_doc_of demo_nlp
                                        [py "Mr" ++ nl; py "Smith left." ++ nl])))
               = [[Some (py "Mr")];
                  [Some (py "Smith"); Some (py "left"); Some (py ".")]])
    by (vm_compute; reflexivity).
  rewrite Hw in Hl. apply (f_equal length) in Heq.
  rewrite !length_app in Heq.
  repeat (apply elem_of_cons in Hl as [->|Hl]; [simpl in Heq; lia|]).
  by apply elem_of_nil in Hl.
Qed.

Lemma C4_witness :
  (is_blank (py "Smith left." ++ nl) = false
   ∧ nlp_compatible demo_nlp ([py "Mr" ++ nl] ++ [py "Smith left." ++ nl]) = true)
  ∧ ∃ t t' ps p ss,
      nlp_tree demo_nlp false [py "Mr" ++ nl] = Ok t
      ∧ nlp_tree demo_nlp false ([py "Mr" ++ nl] ++ [py "Smith left." ++ nl]) = Ok t'
      ∧ xchildren t = ps ++ [p]
      ∧ xchildren t' = ps ++ [XNode (xlabel p) (xchildren p ++ ss)]
      ∧ map child_texts ss
        = map group_texts (merge_groups (demo_nlp (strip (py "Smith left." ++ nl)))).
Proof.
  split; [split; reflexivity|].
  apply (C4_merge_ends_with_line demo_nlp false [py "Mr" ++ nl] (py "Smith left." ++ nl));
    reflexivity.
Defined.

Lemma C5_witness :
  (is_blank nl = true ∧ is_blank (py "Smith left." ++ nl) = false
   ∧ demo_nlp (strip (py "Smith left." ++ nl))
     = [demo_token "Smith"; demo_token "left"; demo_token "."] :: []
   ∧ nlp_compatible demo_nlp ([py "Mr" ++ nl] ++ [nl; py "Smith left." ++ nl]) = true)
  ∧ ∃ t t' ws rest,
      nlp_tree demo_nlp false [py "Mr" ++ nl] = Ok t
      ∧ nlp_tree demo_nlp false ([py "Mr" ++ nl] ++ [nl; py "Smith left." ++ nl]) = Ok t'
      ∧ let i := S (length (xchildren t)) in
        xchildren t'
        = xchildren t
          ++ [XNode (par_label i)
                (XNode (sent_label i 1)
                   (nlp_word_nodes i 1
                      [demo_token "Smith"; demo_token "left"; demo_token "."] ++ ws)
                 :: rest)].
Proof.
  split; [split_and!; reflexivity|].
  apply (proj1 C5_blank_line_stops_merge demo_nlp false [py "Mr" ++ nl] nl
           (py "Smith left." ++ nl)
           [demo_token "Smith"; demo_token "left"; demo_token "."] []);
    reflexivity.
Defined.

Lemma C9_witness :
  (is_blank nl = true ∧ is_blank (py "  " ++ nl) = true
   ∧ @nltk_compatible demo (py "english")
       ([py "Mr" ++ nl] ++ nl :: (py "  " ++ nl) :: [py "Smith left."]) = true
   ∧ nlp_compatible demo_nlp
       ([py "Mr" ++ nl] ++ nl :: (py "  " ++ nl) :: [py "Smith left."]) = true)
  ∧ (∃ t t1 t2,
       @nltk_tree demo (py "english") [py "Mr" ++ nl] = Ok t
       ∧ @nltk_tree demo (py "english") ([py "Mr" ++ nl] ++ [nl]) = Ok t1
       ∧ @nltk_tree demo (py "english")
           ([py "Mr" ++ nl] ++ nl :: (py "  " ++ nl) :: [py "Smith left."]) = Ok t2
       ∧ length (xchildren t) = 1
       ∧ xchildren t1 = xchildren t ++ [empty_par 2]
       ∧ xchildren t2 !! 1 = Some (empty_par 2))
  ∧ (∃ t t1 t2,
       nlp_tree demo_nlp false [py "Mr" ++ nl] = Ok t
       ∧ nlp_tree demo_nlp false ([py "Mr" ++ nl] ++ [nl]) = Ok t1
       ∧ nlp_tree demo_nlp false
           ([py "Mr" ++ nl] ++ nl :: (py "  " ++ nl) :: [py "Smith left."]) = Ok t2
       ∧ length (xchildren t) = 1
       ∧ xchildren t1 = xchildren t ++ [empty_par 2]
       ∧ xchildren t2 !! 1 = Some (empty_par 2)).
Proof.
  split; [split_and!; reflexivity|].
  apply (@C9_blank_lines demo (py "english") demo_nlp false [py "Mr" ++ nl]
           [py "Smith left."] nl (py "  " ++ nl)); reflexivity.
Defined.

Lemma C7_witness :
  (@nltk_compatible demo (py "english") [py "Mr" ++ nl; nl; py "Smith left." ++ nl] = true
   ∧ nlp_compatible demo_nlp [py "Mr" ++ nl; nl; py "Smith left." ++ nl] = true)
  ∧ (∃ t, @nltk_tree demo (py "english") [py "Mr" ++ nl; nl; py "Smith left." ++ nl]
          = Ok t
          ∧ par_ids t = [Some (py "1"); Some (py "2")]
          ∧ map xtag (xchildren t) = [py "p"; py "p"])
  ∧ (∃ t, nlp_tree demo_nlp true [py "Mr" ++ nl; nl; py "Smith left." ++ nl] = Ok t
          ∧ par_ids t = [Some (py "1"); Some (py "2")]
          ∧ map xtag (xchildren t) = [py "p"; py "p"]).
Proof.
  split; [split; reflexivity|].
  pose proof (@C7_paragraph_ids demo (py "english") demo_nlp true
                [py "Mr" ++ nl; nl; py "Smith left." ++ nl] eq_refl eq_refl)
    as (Hnltk & Hnlp & _).
  split; [exact Hnltk|exact Hnlp].
Defined.

(** * Further properties *)

(** ** When lxml refuses a string *)

Lemma foldM_total {A B} (f : A → B → result A) (ok : B → bool) (Inv : A → Prop) :
  (∀ a b, Inv a → ok b = true → ∃ a', f a b = Ok a' ∧ Inv a') →
  ∀ l a, Inv a → forallb ok l = true → ∃ a', foldM f l a = Ok a' ∧ Inv a'.
Proof.
  intros Hok l. induction l as [|b l IH]; intros a Ha Hl; [by exists a|].
  cbn [forallb] in Hl. apply andb_prop in Hl as [Hb Hl].
  destruct (Hok a b Ha Hb) as (a1 & Ha1 & Hinv1).
  destruct (IH a1 Hinv1 Hl) as (a' & Ha' & Hinv').
  exists a'. split; [|done]. cbn [foldM]. by rewrite Ha1.
Qed.

Lemma foldM_refused {A B} (f : A → B → result A) (ok : B → bool) (Inv : A → Prop)
    (e : exn) :
  (∀ a b, Inv a → ok b = true → ∃ a', f a b = Ok a' ∧ Inv a') →
  (∀ a b, Inv a → ok b = false → f a b = Raise e) →
  ∀ l a, Inv a → forallb ok l = false → foldM f l a = Raise e.
Proof.
  intros Hok Hbad l. induction l as [|b l IH]; intros a Ha Hl; [done|].
  cbn [forallb] in Hl. cbn [foldM]. destruct (ok b) eqn:Hb.
  - destruct (Hok a b Ha Hb) as (a1 & -> & Hinv1). rewrite bind_Ok. by apply IH.
  - by rewrite Hbad.
Qed.

Lemma nltk_word_total i j sentence h kw :
  xml_compatible kw.2 = true → ∃ h', nltk_word i j sentence h kw = Ok h'.
Proof.
  destruct kw as [k w]. intros Hw. unfold nltk_word, SubElement.
  rewrite set_attr_ok, bind_Ok, set_text_ok by (done || apply fmt_w_compatible).
  by eexists.
Qed.

Lemma nltk_word_refused i j sentence h kw :
  xml_compatible kw.2 = false → nltk_word i j sentence h kw = Raise ValueError.
Proof.
  destruct kw as [k w]. intros Hw. unfold nltk_word, SubElement.
  rewrite set_attr_ok, bind_Ok by apply fmt_w_compatible.
  by apply set_text_refused.
Qed.

Section nltk_refused.
Context `{Externals} (pl : str).

Lemma nltk_sentence_total i j paragraph h s :
  forallb xml_compatible (word_tokenize s pl) = true →
  ∃ h', nltk_sentence pl i j paragraph h s = Ok h'.
Proof.
  intros Hok. unfold nltk_sentence, SubElement.
  rewrite set_attr_ok, bind_Ok by apply fmt_s_compatible.
  edestruct (foldM_total (nltk_word i j (length h)) (λ kw, xml_compatible kw.2)
               (λ _, True)) as (h' & Hh' & _);
    [|done|by rewrite forallb_enumerate|by eexists].
  intros a b _ Hb. destruct (nltk_word_total i j (length h) a b Hb) as [h' Hh'].
  by exists h'.
Qed.

Lemma nltk_sentence_refused i j paragraph h s :
  forallb xml_compatible (word_tokenize s pl) = false →
  nltk_sentence pl i j paragraph h s = Raise ValueError.
Proof.
  intros Hok. unfold nltk_sentence, SubElement.
  rewrite set_attr_ok, bind_Ok by apply fmt_s_compatible.
  apply (foldM_refused (nltk_word i j (length h)) (λ kw, xml_compatible kw.2)
           (λ _, True)); [| |done|by rewrite forallb_enumerate].
  - intros a b _ Hb. destruct (nltk_word_total i j (length h) a b Hb) as [h' Hh'].
    by exists h'.
  - intros a b _ Hb. by apply nltk_word_refused.
Qed.

Lemma nltk_line_total text v line :
  nltk_compatible pl [line] = true → ∃ v', nltk_line pl text v line = Ok v'.
Proof.
  intros Hok. unfold nltk_line. rewrite is_blank_truthy.
  destruct (is_blank line) eqn:Hb; cbn [negb].
  - unfold SubElement. rewrite set_attr_ok, bind_Ok by apply str_of_nat_compatible.
    by eexists.
  - edestruct (foldM_total (nltk_sentence pl (nv_i v) (nv_j v) (nv_paragraph v))
                 (λ s, forallb xml_compatible (word_tokenize s pl)) (λ _, True))
      as (h' & Hh' & _); [|done|by apply nltk_compatible_text|].
    + intros a b _ Hb'.
      destruct (nltk_sentence_total (nv_i v) (nv_j v) (nv_paragraph v) a b Hb')
        as [h' Hh']. by exists h'.
    + rewrite Hh', bind_Ok. by eexists.
Qed.

Lemma nltk_line_refused text v line :
  nltk_compatible pl [line] = false → nltk_line pl text v line = Raise ValueError.
Proof.
  intros Hok. unfold nltk_line. rewrite is_blank_truthy.
  destruct (is_blank line) eqn:Hb; cbn [negb].
  - by rewrite nltk_compatible_blank in Hok.
  - unfold nltk_compatible in Hok. rewrite text_lines_one, Hb in Hok.
    cbn [forallb] in Hok. rewrite andb_true_r in Hok.
    rewrite (foldM_refused (nltk_sentence pl (nv_i v) (nv_j v) (nv_paragraph v))
               (λ s, forallb xml_compatible (word_tokenize s pl)) (λ _, True)
               ValueError); [done| | |done|done].
    + intros a b _ Hb'.
      destruct (nltk_sentence_total (nv_i v) (nv_j v) (nv_paragraph v) a b Hb')
        as [h' Hh']. by exists h'.
    + intros a b _ Hb'. by apply nltk_sentence_refused.
Qed.

Lemma nltk_compatible_lines lines :
  forallb (λ line, nltk_compatible pl [line]) lines = nltk_compatible pl lines.
Proof.
  induction lines as [|line lines IH]; [done|].
  change (line :: lines) with ([line] ++ lines) at 2.
  rewrite nltk_compatible_app. cbn [forallb]. by rewrite IH.
Qed.

(** A word that lxml refuses ends [nltk_tokenize] with [ValueError]. *)
Lemma nltk_tree_refused lines :
  nltk_compatible pl lines = false → nltk_tree pl lines = Raise ValueError.
Proof.
  intros Hok. unfold nltk_tree. rewrite nltk_start_eq, bind_Ok. cbn [fst snd].
  rewrite (foldM_refused (nltk_line pl 0) (λ line, nltk_compatible pl [line])
             (λ _, True) ValueError); [done| | |done|by rewrite nltk_compatible_lines].
  - intros a b _ Hb. destruct (nltk_line_total 0 a b Hb) as [v' Hv']. by exists v'.
  - intros a b _ Hb. by apply nltk_line_refused.
Qed.
End nltk_refused.

Lemma nlp_word_total i j sentence h kt :
  token_compatible kt.2 = true → ∃ h', nlp_word i j sentence h kt = Ok h'.
Proof.
  destruct kt as [k t]. intros Hok. unfold nlp_word, SubElement.
  apply andb_prop in Hok as [Hok Hlem]. apply andb_prop in Hok as [Htext Htag].
  cbn [snd] in *.
  rewrite set_attr_ok, bind_Ok by apply fmt_w_compatible.
  rewrite set_text_ok, bind_Ok by done.
  rewrite set_attr_ok, bind_Ok by done.
  rewrite set_attr_ok by done. by eexists.
Qed.

Lemma nlp_word_refused i j sentence h kt :
  token_compatible kt.2 = false → nlp_word i j sentence h kt = Raise ValueError.
Proof.
  destruct kt as [k t]. intros Hok. unfold nlp_word, SubElement.
  unfold token_compatible in Hok. cbn [snd] in Hok.
  rewrite set_attr_ok, bind_Ok by apply fmt_w_compatible.
  destruct (xml_compatible (tok_text t)) eqn:Htext;
    [|by rewrite set_text_refused].
  rewrite set_text_ok, bind_Ok by done.
  destruct (xml_compatible (tok_tag t)) eqn:Htag;
    [|by rewrite set_attr_refused].
  rewrite set_attr_ok, bind_Ok by done.
  by apply set_attr_refused.
Qed.

Section nlp_refused.
Context (stanza_unique : bool).

Lemma nlp_start_new_bound v :
  pv_start_new v = true ∨ is_Some (pv_sentence v) →
  ∃ v1, nlp_start_new v = Ok v1 ∧ is_Some (pv_sentence v1)
        ∧ pv_start_new v1 = pv_start_new v.
Proof.
  intros Hv. unfold nlp_start_new. destruct (pv_start_new v) eqn:Hn.
  - unfold SubElement. rewrite set_attr_ok, bind_Ok by apply fmt_s_compatible.
    eexists. split_and!; [done|by eexists|done].
  - destruct Hv as [?|Hv]; [done|]. by exists v.
Qed.

Lemma nlp_words_total v sent :
  is_Some (pv_sentence v) → forallb token_compatible sent = true →
  ∃ h, nlp_words v sent = Ok h.
Proof.
  intros [sentence Hs] Hok. unfold nlp_words. rewrite Hs.
  destruct sent as [|t sent]; [by eexists|].
  edestruct (foldM_total (nlp_word (pv_i v) (pv_j v) sentence)
               (λ kt, token_compatible kt.2) (λ _, True)) as (h' & Hh' & _);
    [|done|by rewrite forallb_enumerate|by eexists].
  intros a b _ Hb. destruct (nlp_word_total (pv_i v) (pv_j v) sentence a b Hb)
    as [h' Hh']. by exists h'.
Qed.

Lemma nlp_words_refused v sent :
  is_Some (pv_sentence v) → forallb token_compatible sent = false →
  nlp_words v sent = Raise ValueError.
Proof.
  intros [sentence Hs] Hok. unfold nlp_words. rewrite Hs.
  destruct sent as [|t sent]; [done|].
  apply (foldM_refused (nlp_word (pv_i v) (pv_j v) sentence)
           (λ kt, token_compatible kt.2) (λ _, True));
    [| |done|by rewrite forallb_enumerate].
  - intros a b _ Hb. destruct (nlp_word_total (pv_i v) (pv_j v) sentence a b Hb)
      as [h' Hh']. by exists h'.
  - intros a b _ Hb. by apply nlp_word_refused.
Qed.

Lemma nlp_sent_total v sent :
  pv_start_new v = true ∨ is_Some (pv_sentence v) →
  forallb token_compatible sent = true →
  ∃ v', nlp_sent stanza_unique v sent = Ok v'
        ∧ (pv_start_new v' = true ∨ is_Some (pv_sentence v')).
Proof.
  intros Hv Hok. destruct (nlp_start_new_bound v Hv) as (v1 & Hv1 & Hs1 & _).
  destruct (nlp_words_total v1 sent Hs1 Hok) as [h Hh].
  unfold nlp_sent. rewrite Hv1, bind_Ok.
  destruct stanza_unique; rewrite Hh, bind_Ok; eexists; (split; [done|by right]).
Qed.

Lemma nlp_sent_refused v sent :
  pv_start_new v = true ∨ is_Some (pv_sentence v) →
  forallb token_compatible sent = false →
  nlp_sent stanza_unique v sent = Raise ValueError.
Proof.
  intros Hv Hok. destruct (nlp_start_new_bound v Hv) as (v1 & Hv1 & Hs1 & _).
  unfold nlp_sent. rewrite Hv1, bind_Ok.
  destruct stanza_unique; by rewrite (nlp_words_refused v1 sent Hs1 Hok).
Qed.

Lemma nlp_line_blank (nlp : Nlp) text v line :
  is_blank line = true → ∃ v', nlp_line nlp stanza_unique text v line = Ok v'.
Proof.
  intros Hb. unfold nlp_line. rewrite is_blank_truthy, Hb. cbn [negb].
  unfold SubElement. rewrite set_attr_ok, bind_Ok by apply str_of_nat_compatible.
  by eexists.
Qed.

Lemma nlp_line_total (nlp : Pipeline) text v line :
  nlp_compatible nlp [line] = true →
  ∃ v', nlp_line nlp stanza_unique text v line = Ok v'.
Proof.
  intros Hok. destruct (is_blank line) eqn:Hb; [by apply nlp_line_blank|].
  unfold nlp_line, sentences_of. rewrite is_blank_truthy, Hb. cbn [negb].
  edestruct (foldM_total (nlp_sent stanza_unique) (forallb token_compatible)
               (λ v, pv_start_new v = true ∨ is_Some (pv_sentence v)))
    as (v' & Hv' & _); [| |by apply nlp_compatible_text|by eexists].
  - intros a b Ha Hb'. by apply nlp_sent_total.
  - by left.
Qed.

Lemma nlp_line_refused (nlp : Pipeline) text v line :
  nlp_compatible nlp [line] = false →
  nlp_line nlp stanza_unique text v line = Raise ValueError.
Proof.
  intros Hok. destruct (is_blank line) eqn:Hb;
    [by rewrite nlp_compatible_blank in Hok|].
  unfold nlp_compatible in Hok. rewrite text_lines_one, Hb in Hok.
  cbn [forallb] in Hok. rewrite andb_true_r in Hok.
  unfold nlp_line, sentences_of. rewrite is_blank_truthy, Hb. cbn [negb].
  apply (foldM_refused (nlp_sent stanza_unique) (forallb token_compatible)
           (λ v, pv_start_new v = true ∨ is_Some (pv_sentence v)));
    [| |by left|done].
  - intros a b Ha Hb'. by apply nlp_sent_total.
  - intros a b Ha Hb'. by apply nlp_sent_refused.
Qed.

Lemma nlp_compatible_lines (nlp : Pipeline) lines :
  forallb (λ line, nlp_compatible nlp [line]) lines = nlp_compatible nlp lines.
Proof.
  induction lines as [|line lines IH]; [done|].
  change (line :: lines) with ([line] ++ lines) at 2.
  rewrite nlp_compatible_app. cbn [forallb]. by rewrite IH.
Qed.

(** A token that lxml refuses ends [nlp_process] with [ValueError]. *)
Lemma nlp_tree_refused (nlp : Pipeline) lines :
  nlp_compatible nlp lines = false →
  nlp_tree nlp stanza_unique lines = Raise ValueError.
Proof.
  intros Hok. unfold nlp_tree. rewrite nlp_start_eq, bind_Ok. cbn [fst snd].
  rewrite (foldM_refused (nlp_line nlp stanza_unique 0)
             (λ line, nlp_compatible nlp [line]) (λ _, True) ValueError);
    [done| | |done|by rewrite nlp_compatible_lines].
  - intros a b _ Hb. destruct (nlp_line_total nlp 0 a b Hb) as [v' Hv']. by exists v'.
  - intros a b _ Hb. by apply nlp_line_refused.
Qed.

End nlp_refused.

(** ** Documents that are a dict *)

Lemma foldM_app {A B} (f : A → B → result A) (l1 l2 : list B) (a : A) :
  foldM f (l1 ++ l2) a = foldM f l1 a ≫= foldM f l2.
Proof.
  revert a. induction l1 as [|b l1 IH]; intros a; [done|].
  cbn [app foldM]. destruct (f a b) as [a'|e]; [|done]. rewrite !bind_Ok. apply IH.
Qed.

Lemma foldM_ext_elem {A B} (f g : A → B → result A) (l : list B) :
  (∀ x, x ∈ l → ∀ a, f a x = g a x) → ∀ a, foldM f l a = foldM g l a.
Proof.
  induction l as [|x l IH]; intros Hfg a; [done|].
  cbn [foldM]. rewrite (Hfg x) by left. destruct (g a x) as [a'|e]; [|done].
  rewrite !bind_Ok. apply IH. intros y Hy. apply Hfg. by right.
Qed.

Lemma text_lines_elem lines l :
  l ∈ text_lines lines ↔ ∃ line, line ∈ lines ∧ is_blank line = false ∧ l = strip line.
Proof.
  unfold text_lines. rewrite list_elem_of_bind. split.
  - intros (line & Hl & Hin). exists line.
    destruct (is_blank line); [by apply elem_of_nil in Hl|].
    apply list_elem_of_singleton in Hl. done.
  - intros (line & Hin & Hb & ->). exists line. rewrite Hb. split; [left|done].
Qed.

(** The lines before the first line of text are blank. *)
Lemma text_lines_first lines l rest :
  text_lines lines = l :: rest →
  ∃ blanks line more,
    lines = blanks ++ line :: more
    ∧ Forall (λ x, is_blank x = true) blanks
    ∧ is_blank line = false ∧ strip line = l.
Proof.
  induction lines as [|x lines IH]; [done|].
  rewrite text_lines_cons. destruct (is_blank x) eqn:Hx; cbn [app].
  - intros Hl. destruct (IH Hl) as (blanks & line & more & -> & Hbl & Hb & Hs).
    exists (x :: blanks), line, more. split_and!; [done|by constructor|done..].
  - intros [= <- <-]. exists [], x, lines. split_and!; [done|constructor|done..].
Qed.

Lemma text_lines_blank lines :
  text_lines lines = [] → Forall (λ x, is_blank x = true) lines.
Proof.
  induction lines as [|x lines IH]; [constructor|].
  rewrite text_lines_cons. destruct (is_blank x) eqn:Hx; cbn [app]; [|done].
  intros Hl. constructor; [done|by apply IH].
Qed.

Section serialised.
Context (stanza_unique : bool).

Lemma nlp_key_empty v :
  pv_start_new v = true →
  ∃ v', nlp_key stanza_unique v [] = Ok v' ∧ pv_start_new v' = true.
Proof.
  intros Hn.
  destruct (nlp_start_new_bound v (or_introl Hn)) as (v1 & Hv1 & Hs1 & Hn1).
  unfold nlp_key. rewrite Hv1, bind_Ok. unfold nlp_chars.
  destruct stanza_unique; rewrite bind_Ok; eexists; (split; [done|done]).
Qed.

Lemma nlp_key_raises v key :
  pv_start_new v = true → truthy key = true →
  nlp_key stanza_unique v key
  = Raise (if stanza_unique then TypeError else AttributeError (py "text")).
Proof.
  intros Hn Hk. destruct key as [|ch key]; [done|].
  destruct (nlp_start_new_bound v (or_introl Hn)) as (v1 & Hv1 & [s Hs1] & Hn1).
  unfold nlp_key. rewrite Hv1, bind_Ok. unfold nlp_chars. rewrite Hs1.
  unfold SubElement. rewrite set_attr_ok, bind_Ok by apply fmt_w_compatible.
  by destruct stanza_unique.
Qed.

Lemma nlp_keys_raise keys v :
  pv_start_new v = true → existsb truthy keys = true →
  foldM (nlp_key stanza_unique) keys v
  = Raise (if stanza_unique then TypeError else AttributeError (py "text")).
Proof.
  revert v. induction keys as [|key keys IH]; intros v Hn Hk; [done|].
  cbn [foldM]. destruct (truthy key) eqn:Hkey.
  - by rewrite nlp_key_raises.
  - destruct key as [|ch key]; [|done]. cbn [existsb truthy orb] in Hk.
    destruct (nlp_key_empty v Hn) as (v' & -> & Hn'). rewrite bind_Ok. by apply IH.
Qed.

(** A line of text whose document is a dict with a key that is not the
    empty string. *)
Lemma nlp_line_serialised (nlp : Nlp) text v line keys :
  is_blank line = false → nlp (strip line) = Serialised keys →
  existsb truthy keys = true →
  nlp_line nlp stanza_unique text v line
  = Raise (if stanza_unique then TypeError else AttributeError (py "text")).
Proof.
  intros Hb Hdoc Hk. unfold nlp_line. rewrite is_blank_truthy, Hb. cbn [negb].
  rewrite Hdoc. by apply nlp_keys_raise.
Qed.

Lemma nlp_blanks_total (nlp : Nlp) text blanks v :
  Forall (λ x, is_blank x = true) blanks →
  ∃ v', foldM (nlp_line nlp stanza_unique text) blanks v = Ok v'.
Proof.
  intros Hbl. revert v. induction Hbl as [|x blanks Hx _ IH]; intros v; [by exists v|].
  destruct (nlp_line_blank stanza_unique nlp text v x Hx) as [v1 Hv1].
  destruct (IH v1) as [v' Hv']. exists v'. cbn [foldM]. by rewrite Hv1.
Qed.

Lemma nlp_tree_serialised (nlp : Nlp) lines l rest keys :
  text_lines lines = l :: rest → nlp l = Serialised keys →
  existsb truthy keys = true →
  nlp_tree nlp stanza_unique lines
  = Raise (if stanza_unique then TypeError else AttributeError (py "text")).
Proof.
  intros Hl Hdoc Hk.
  destruct (text_lines_first lines l rest Hl)
    as (blanks & line & more & -> & Hbl & Hb & <-).
  unfold nlp_tree. rewrite nlp_start_eq, bind_Ok. cbn [fst snd].
  rewrite foldM_app.
  destruct (nlp_blanks_total nlp 0 blanks
              (mk_nlp_vars (flat_doc (doc_of start_cursor)) 1 (par_ref start_cursor)
                 0 true None) Hbl) as [v' ->].
  rewrite bind_Ok. cbn [foldM].
  by rewrite (nlp_line_serialised nlp 0 v' line keys).
Qed.

(** The tree depends on the pipeline through the lines of text only. *)
Lemma nlp_tree_ext (nlp nlp' : Nlp) lines :
  (∀ l, l ∈ text_lines lines → nlp l = nlp' l) →
  nlp_tree nlp stanza_unique lines = nlp_tree nlp' stanza_unique lines.
Proof.
  intros Hext. unfold nlp_tree. rewrite nlp_start_eq, !bind_Ok. cbn [fst snd].
  rewrite (foldM_ext_elem (nlp_line nlp stanza_unique 0)
             (nlp_line nlp' stanza_unique 0)); [done|].
  intros line Hin v. unfold nlp_line.
  destruct (truthy (strip line)) eqn:Ht; [|done].
  rewrite Hext; [done|]. apply text_lines_elem. exists line.
  split_and!; [done| |done]. unfold is_blank. by rewrite Ht.
Qed.

(** Without a line of text the pipeline is not asked. *)
Lemma nlp_tree_blank (nlp : Nlp) lines :
  text_lines lines = [] →
  nlp_tree nlp stanza_unique lines
  = Ok (xml_of_doc (nlp_doc_of (λ _, []) lines)).
Proof.
  intros Hl.
  rewrite (nlp_tree_ext nlp (sentences_of (λ _, [])) lines).
  - apply nlp_tree_doc. unfold nlp_compatible. by rewrite Hl.
  - intros l Hin. rewrite Hl in Hin. by apply elem_of_nil in Hin.
Qed.
End serialised.

(** ** What the functions do to the files *)

Lemma nltk_tokenize_missing `{Externals} file_in file_out language pl :
  NLTK_LANGUAGES !! language = Some pl → truthy pl = true →
  files !! file_in = None →
  nltk_tokenize file_in file_out language
  = ([OpenRead file_in], Raise (OSError file_in)).
Proof.
  intros Hl Hpl Hf. unfold nltk_tokenize, open_readlines. rewrite Hl.
  destruct pl as [|ch pl]; [done|]. rewrite Hf. reflexivity.
Qed.

Lemma nlp_process_missing `{Externals} (nlp : Nlp) file_in file_out stanza_unique :
  files !! file_in = None →
  nlp_process nlp file_in file_out stanza_unique
  = ([OpenRead file_in], Raise (OSError file_in)).
Proof.
  intros Hf. unfold nlp_process, open_readlines. rewrite Hf. reflexivity.
Qed.

Lemma nltk_tokenize_undecodable `{Externals} file_in file_out language pl :
  NLTK_LANGUAGES !! language = Some pl → pl ≠ [] →
  files !! file_in = Some NotUtf8 →
  nltk_tokenize file_in file_out language
  = ([OpenRead file_in], Raise (UnicodeDecodeError file_in)).
Proof.
  intros Hl Hpl Hf. unfold nltk_tokenize, open_readlines. rewrite Hl.
  destruct pl as [|ch pl]; [done|]. rewrite Hf. reflexivity.
Qed.

Lemma nlp_process_undecodable `{Externals} (nlp : Nlp) file_in file_out stanza_unique :
  files !! file_in = Some NotUtf8 →
  nlp_process nlp file_in file_out stanza_unique
  = ([OpenRead file_in], Raise (UnicodeDecodeError file_in)).
Proof.
  intros Hf. unfold nlp_process, open_readlines. rewrite Hf. reflexivity.
Qed.

Lemma nltk_tokenize_falsy `{Externals} file_in file_out language :
  NLTK_LANGUAGES !! language = None ∨ NLTK_LANGUAGES !! language = Some [] →
  nltk_tokenize file_in file_out language
  = ([], Raise (ClickException (nltk_message language))).
Proof. intros [Hl|Hl]; unfold nltk_tokenize; by rewrite Hl. Qed.

Lemma finish_cases `{Externals} file_in file_out tree :
  (∃ e, finish file_in file_out tree = ([OpenRead file_in], Raise e))
  ∨ ∃ t, finish file_in file_out tree
         = ([OpenRead file_in; WriteTree file_out t], Ok tt).
Proof.
  unfold finish. destruct tree as [t|e]; [|left; by eexists].
  destruct (writable file_out); [right|left]; by eexists.
Qed.

Lemma nlp_process_cases `{Externals} (nlp : Nlp) file_in file_out stanza_unique :
  (∃ e, nlp_process nlp file_in file_out stanza_unique
        = ([OpenRead file_in], Raise e))
  ∨ ∃ t, nlp_process nlp file_in file_out stanza_unique
         = ([OpenRead file_in; WriteTree file_out t], Ok tt).
Proof.
  destruct (files !! file_in) as [[content|]|] eqn:Hf.
  - rewrite (nlp_process_tree _ _ _ _ content) by done. apply finish_cases.
  - left. eexists. by apply nlp_process_undecodable.
  - left. eexists. by apply nlp_process_missing.
Qed.

Lemma nltk_tokenize_cases `{Externals} file_in file_out language :
  (∃ e, nltk_tokenize file_in file_out language = ([], Raise e))
  ∨ (∃ e, nltk_tokenize file_in file_out language
          = ([OpenRead file_in], Raise e))
  ∨ ∃ t, nltk_tokenize file_in file_out language
         = ([OpenRead file_in; WriteTree file_out t], Ok tt).
Proof.
  destruct (NLTK_LANGUAGES !! language) as [[|ch pl]|] eqn:Hl.
  - left. eexists. apply nltk_tokenize_falsy. by right.
  - right. destruct (files !! file_in) as [[content|]|] eqn:Hf.
    + rewrite (nltk_tokenize_tree _ _ _ (ch :: pl) content) by done.
      apply finish_cases.
    + left. eexists. by eapply nltk_tokenize_undecodable.
    + left. eexists. by eapply nltk_tokenize_missing.
  - left. eexists. apply nltk_tokenize_falsy. by left.
Qed.

Lemma spacy_tokenize_cases `{Externals} file_in file_out language :
  (∃ e, spacy_tokenize file_in file_out language = ([], Raise e))
  ∨ (∃ e, spacy_tokenize file_in file_out language
          = ([OpenRead file_in], Raise e))
  ∨ ∃ t, spacy_tokenize file_in file_out language
         = ([OpenRead file_in; WriteTree file_out t], Ok tt).
Proof.
  unfold spacy_tokenize.
  destruct (SPACY_MODELS !! language) as [[|ch m]|]; [left; by eexists| |left; by eexists].
  destruct (spacy_load (ch :: m)) as [nlp|]; [|left; by eexists].
  right. apply nlp_process_cases.
Qed.

Lemma stanza_tokenize_cases `{Externals} file_in file_out language :
  (∃ e, stanza_tokenize file_in file_out language = ([], Raise e))
  ∨ (∃ e, stanza_tokenize file_in file_out language
          = ([OpenRead file_in], Raise e))
  ∨ ∃ t, stanza_tokenize file_in file_out language
         = ([OpenRead file_in; WriteTree file_out t], Ok tt).
Proof.
  unfold stanza_tokenize.
  destruct (stanza_download language); [|left; by eexists].
  right. destruct (spacy_stanza_load_pipeline language _); apply nlp_process_cases.
Qed.

Lemma echo_then {A} msg (io : IO A) :
  (emit (Echo msg) ≫= λ _, io) = (Echo msg :: io.1, io.2).
Proof. destruct io as [t [a|e]]; reflexivity. Qed.

Lemma uplug_tokenize_effects `{Externals} file_in file_out language :
  uplug_tokenize file_in file_out language
  = ([Spawn (uplug_command file_in file_out language)], Ok tt).
Proof.
  unfold uplug_tokenize, subprocess_call.
  by destruct (shell (uplug_command file_in file_out language)) as [[status out] err].
Qed.

(** X16: whatever tokenizer and language, [tokenize_single] itself
    opens no file but [file_in] and writes no tree but to [file_out], at
    most one, and none when it raises. *)
Theorem X16_touches_only `{Externals} (file_in file_out language tokenizer : str) :
  Forall (touches_only file_in file_out)
    (tokenize_single file_in file_out language tokenizer).1
  ∧ length (written (tokenize_single file_in file_out language tokenizer)) ≤ 1
  ∧ (raises (tokenize_single file_in file_out language tokenizer) →
     written (tokenize_single file_in file_out language tokenizer) = []).
Proof.
  unfold tokenize_single. repeat case_decide.
  - rewrite echo_then, uplug_tokenize_effects.
    split_and!; [by repeat constructor|simpl; lia|done].
  - rewrite echo_then.
    destruct (nltk_tokenize_cases file_in file_out language)
      as [[e ->]|[[e ->]|[t ->]]]; (split_and!; [by repeat constructor|simpl; lia|done]).
  - rewrite echo_then.
    destruct (spacy_tokenize_cases file_in file_out language)
      as [[e ->]|[[e ->]|[t ->]]]; (split_and!; [by repeat constructor|simpl; lia|done]).
  - rewrite echo_then.
    destruct (stanza_tokenize_cases file_in file_out language)
      as [[e ->]|[[e ->]|[t ->]]]; (split_and!; [by repeat constructor|simpl; lia|done]).
  - split_and!; [by repeat constructor|simpl; lia|done].
  - split_and!; [by repeat constructor|simpl; lia|done].
Qed.

Lemma X16_witness :
  raises (@tokenize_single demo (py "missing.txt") (py "out.xml") (py "en") (py "nltk"))
  ∧ written (@tokenize_single demo (py "missing.txt") (py "out.xml") (py "en")
               (py "nltk")) = [].
Proof.
  assert (Hr : raises (@tokenize_single demo (py "missing.txt") (py "out.xml") (py "en")
                         (py "nltk"))) by exact I.
  split; [exact Hr|].
  exact (proj2 (proj2 (@X16_touches_only demo (py "missing.txt") (py "out.xml") (py "en")
                         (py "nltk"))) Hr).
Defined.

(** X13: when the input file cannot be opened, [nlp_process] raises the
    [OSError] of [open] and writes nothing, and so do [nltk_tokenize],
    [spacy_tokenize] and [stanza_tokenize] once their set-up succeeded:
    no handler of the module catches it. *)
Theorem X13_missing_input `{Externals} (nlp : Pipeline) (stanza_unique : bool)
    (file_in file_out language : str) :
  files !! file_in = None →
  let failed := ([OpenRead file_in], Raise (OSError file_in)) in
  nlp_process nlp file_in file_out stanza_unique = failed
  ∧ (∀ pl, NLTK_LANGUAGES !! language = Some pl → pl ≠ [] →
       nltk_tokenize file_in file_out language = failed)
  ∧ (∀ m, SPACY_MODELS !! language = Some m → m ≠ [] → is_Some (spacy_load m) →
       spacy_tokenize file_in file_out language = failed)
  ∧ (stanza_download language = true →
       stanza_tokenize file_in file_out language = failed).
Proof.
  intros Hf failed. subst failed. split_and!.
  - by apply nlp_process_missing.
  - intros pl Hl Hpl. eapply nltk_tokenize_missing; [done| |done]. by destruct pl.
  - intros m Hm Hne [nlp0 Hload]. unfold spacy_tokenize. rewrite Hm.
    destruct m as [|ch m]; [done|]. rewrite Hload. by apply nlp_process_missing.
  - intros Hd. unfold stanza_tokenize. rewrite Hd.
    destruct (spacy_stanza_load_pipeline language _); by apply nlp_process_missing.
Qed.

Lemma X13_witness :
  @files demo !! py "missing.txt" = None
  ∧ @nlp_process demo demo_nlp (py "missing.txt") (py "out.xml") false
    = ([OpenRead (py "missing.txt")], Raise (OSError (py "missing.txt")))
  ∧ (@NLTK_LANGUAGES demo !! py "en" = Some (py "english") ∧ py "english" ≠ []
     ∧ @nltk_tokenize demo (py "missing.txt") (py "out.xml") (py "en")
       = ([OpenRead (py "missing.txt")], Raise (OSError (py "missing.txt"))))
  ∧ (@SPACY_MODELS demo !! py "en" = Some (py "en_core_web_sm")
     ∧ py "en_core_web_sm" ≠ []
     ∧ is_Some (@spacy_load demo (py "en_core_web_sm"))
     ∧ @spacy_tokenize demo (py "missing.txt") (py "out.xml") (py "en")
       = ([OpenRead (py "missing.txt")], Raise (OSError (py "missing.txt"))))
  ∧ (@stanza_download demo (py "en") = true
     ∧ @stanza_tokenize demo (py "missing.txt") (py "out.xml") (py "en")
       = ([OpenRead (py "missing.txt")], Raise (OSError (py "missing.txt")))).
Proof.
  assert (Hf : @files demo !! py "missing.txt" = None) by reflexivity.
  destruct (@X13_missing_input demo demo_nlp false (py "missing.txt") (py "out.xml")
              (py "en") Hf) as (H1 & H2 & H3 & H4).
  split_and!; [exact Hf|exact H1|reflexivity|done| |reflexivity|done|by eexists| |
               reflexivity|].
  - apply (H2 (py "english")); [reflexivity|done].
  - apply (H3 (py "en_core_web_sm")); [reflexivity|done|by eexists].
  - apply H4. reflexivity.
Defined.

(** X14: a language whose entry in [NLTK_LANGUAGES] or [SPACY_MODELS]
    is the empty string is treated like a language without entry: the
    [ClickException], before any file is opened. *)
Theorem X14_empty_mapping_value `{Externals} (file_in file_out language : str) :
  (NLTK_LANGUAGES !! language = Some [] →
   nltk_tokenize file_in file_out language
   = ([], Raise (ClickException (nltk_message language))))
  ∧ (SPACY_MODELS !! language = Some [] →
     spacy_tokenize file_in file_out language
     = ([], Raise (ClickException (spacy_message language)))).
Proof.
  split; intros Hl.
  - apply nltk_tokenize_falsy. by right.
  - unfold spacy_tokenize. by rewrite Hl.
Qed.

Lemma X14_witness :
  (@NLTK_LANGUAGES demo_offline !! py "xx" = Some []
   ∧ @nltk_tokenize demo_offline (py "hello.txt") (py "out.xml") (py "xx")
     = ([], Raise (ClickException (nltk_message (py "xx")))))
  ∧ (@SPACY_MODELS demo_offline !! py "xx" = Some []
     ∧ @spacy_tokenize demo_offline (py "hello.txt") (py "out.xml") (py "xx")
       = ([], Raise (ClickException (spacy_message (py "xx"))))).
Proof.
  split; (split; [reflexivity|]).
  - apply (proj1 (@X14_empty_mapping_value demo_offline (py "hello.txt") (py "out.xml")
                    (py "xx"))). reflexivity.
  - apply (proj2 (@X14_empty_mapping_value demo_offline (py "hello.txt") (py "out.xml")
                    (py "xx"))). reflexivity.
Defined.

(** X15: a spacy model that cannot be loaded and a stanza download that
    fails both end in a [ClickException] with the message of the module,
    before the input file is opened and without any output. *)
Theorem X15_setup_failures `{Externals} (file_in file_out language : str) :
  (∀ m, SPACY_MODELS !! language = Some m → m ≠ [] → spacy_load m = None →
     spacy_tokenize file_in file_out language
     = ([], Raise (ClickException (spacy_model_message language m))))
  ∧ (stanza_download language = false →
     stanza_tokenize file_in file_out language
     = ([], Raise (ClickException (stanza_message language)))).
Proof.
  split.
  - intros m Hm Hne Hload. unfold spacy_tokenize. rewrite Hm.
    destruct m as [|ch m]; [done|]. by rewrite Hload.
  - intros Hd. unfold stanza_tokenize. by rewrite Hd.
Qed.

Lemma X15_witness :
  (@SPACY_MODELS demo_offline !! py "en" = Some (py "en_core_web_sm")
   ∧ py "en_core_web_sm" ≠ []
   ∧ @spacy_load demo_offline (py "en_core_web_sm") = None
   ∧ @spacy_tokenize demo_offline (py "hello.txt") (py "out.xml") (py "en")
     = ([], Raise (ClickException
                     (spacy_model_message (py "en") (py "en_core_web_sm")))))
  ∧ (@stanza_download demo_offline (py "tlh") = false
     ∧ @stanza_tokenize demo_offline (py "hello.txt") (py "out.xml") (py "tlh")
       = ([], Raise (ClickException (stanza_message (py "tlh"))))).
Proof.
  split.
  - split_and!; [reflexivity|done|reflexivity|].
    apply (proj1 (@X15_setup_failures demo_offline (py "hello.txt") (py "out.xml")
                    (py "en")) (py "en_core_web_sm")); [reflexivity|done|reflexivity].
  - split; [reflexivity|].
    apply (proj2 (@X15_setup_failures demo_offline (py "hello.txt") (py "out.xml")
                    (py "tlh"))). reflexivity.
Defined.

(** X21: an input file that can be opened but is not UTF-8 ends
    [nlp_process] and [nltk_tokenize] with the [UnicodeDecodeError] of
    [readlines], and an output path that cannot be written ends them with
    the [OSError] of [tree.write] after the whole input was processed; in
    both cases nothing is written. *)
Theorem X21_io_failures `{Externals} (nlp : Pipeline) (stanza_unique : bool)
    (file_in file_out language pl : str) :
  NLTK_LANGUAGES !! language = Some pl → pl ≠ [] →
  (files !! file_in = Some NotUtf8 →
   nlp_process nlp file_in file_out stanza_unique
   = ([OpenRead file_in], Raise (UnicodeDecodeError file_in))
   ∧ nltk_tokenize file_in file_out language
     = ([OpenRead file_in], Raise (UnicodeDecodeError file_in)))
  ∧ (∀ content,
       files !! file_in = Some (Text content) → writable file_out = false →
       (nlp_compatible nlp (readlines content) = true →
        nlp_process nlp file_in file_out stanza_unique
        = ([OpenRead file_in], Raise (OSError file_out)))
       ∧ (nltk_compatible pl (readlines content) = true →
          nltk_tokenize file_in file_out language
          = ([OpenRead file_in], Raise (OSError file_out)))).
Proof.
  intros Hl Hpl. split.
  - intros Hf. split; [by apply nlp_process_undecodable|].
    by eapply nltk_tokenize_undecodable.
  - intros content Hf Hw. split; intros Hok.
    + rewrite (nlp_process_tree _ _ _ _ content), nlp_tree_doc by done.
      unfold finish. by rewrite Hw.
    + rewrite (nltk_tokenize_tree _ _ _ pl content), nltk_tree_doc by done.
      unfold finish. by rewrite Hw.
Qed.

Lemma X21_witness :
  (@NLTK_LANGUAGES demo_offline !! py "en" = Some (py "english") ∧ py "english" ≠ [])
  ∧ (@files demo_offline !! py "latin1.txt" = Some NotUtf8
     ∧ @nlp_process demo_offline demo_nlp (py "latin1.txt") (py "out.xml") true
       = ([OpenRead (py "latin1.txt")], Raise (UnicodeDecodeError (py "latin1.txt")))
     ∧ @nltk_tokenize demo_offline (py "latin1.txt") (py "out.xml") (py "en")
       = ([OpenRead (py "latin1.txt")], Raise (UnicodeDecodeError (py "latin1.txt"))))
  ∧ (@files demo_offline !! py "hello.txt" = Some (Text (py "Hello world. Good bye." ++ nl))
     ∧ @writable demo_offline (py "/proc/out.xml") = false
     ∧ nlp_compatible demo_nlp (readlines (py "Hello world. Good bye." ++ nl)) = true
     ∧ @nltk_compatible demo_offline (py "english")
         (readlines (py "Hello world. Good bye." ++ nl)) = true
     ∧ @nlp_process demo_offline demo_nlp (py "hello.txt") (py "/proc/out.xml") true
       = ([OpenRead (py "hello.txt")], Raise (OSError (py "/proc/out.xml")))
     ∧ @nltk_tokenize demo_offline (py "hello.txt") (py "/proc/out.xml") (py "en")
       = ([OpenRead (py "hello.txt")], Raise (OSError (py "/proc/out.xml")))).
Proof.
  assert (Hne : py "english" ≠ []) by done.
  split; [split; [reflexivity|exact Hne]|]. split.
  - split; [reflexivity|].
    apply (proj1 (@X21_io_failures demo_offline demo_nlp true (py "latin1.txt")
                    (py "out.xml") (py "en") (py "english") eq_refl Hne)).
    reflexivity.
  - split_and!; [reflexivity..| |].
    + apply (proj2 (@X21_io_failures demo_offline demo_nlp true (py "hello.txt")
                      (py "/proc/out.xml") (py "en") (py "english") eq_refl Hne)
               (py "Hello world. Good bye." ++ nl)); reflexivity.
    + apply (proj2 (@X21_io_failures demo_offline demo_nlp true (py "hello.txt")
                      (py "/proc/out.xml") (py "en") (py "english") eq_refl Hne)
               (py "Hello world. Good bye." ++ nl)); reflexivity.
Defined.

(** ** The words of the documents *)

Lemma all_words_xml_of_doc d :
  all_words (xml_of_doc d) = map xml_of_word (doc_words d).
Proof.
  unfold all_words, doc_words. rewrite xchildren_xml_of_doc.
  induction (d_pars d) as [|p ps IH]; [done|].
  cbn [map]. rewrite !bind_cons, map_app, IH. f_equal.
  unfold xml_of_par. cbn [xchildren].
  induction (p_sents p) as [|s ss IHs]; [done|].
  cbn [map]. rewrite !bind_cons, map_app, IHs. done.
Qed.

Lemma doc_words_snoc_par d d' l' :
  d_pars d' = d_pars d ++ [mkPar l' []] → doc_words d' = doc_words d.
Proof.
  unfold doc_words. intros ->. rewrite bind_app, bind_cons. simpl.
  by rewrite app_nil_r.
Qed.

Lemma doc_words_snoc_sents d d' closed l ss new :
  d_pars d = closed ++ [mkPar l ss] →
  d_pars d' = closed ++ [mkPar l (ss ++ new)] →
  doc_words d' = doc_words d ++ (new ≫= s_words).
Proof.
  unfold doc_words. intros -> ->. rewrite !bind_app, !bind_cons. cbn [p_sents].
  rewrite bind_app. simpl. by rewrite !app_nil_r, app_assoc.
Qed.

Lemma word_view_enumerate i j k c :
  map (λ kt, word_view (xml_of_word (nlp_word_label i j kt))) (enumerate k c)
  = map token_view c.
Proof.
  revert k. induction c as [|t c IH]; intros k; [done|].
  cbn [enumerate map]. by rewrite IH.
Qed.

Lemma word_view_numbered i j gs :
  map (λ w, word_view (xml_of_word w)) (numbered i j gs ≫= s_words)
  = mjoin gs ≫= map token_view.
Proof.
  revert j. induction gs as [|g gs IH]; intros j; [done|].
  cbn [numbered]. rewrite bind_cons, map_app, IH. cbn [s_words mjoin list_join].
  rewrite bind_app. f_equal. unfold group_words.
  induction g as [|c g IHg]; [done|].
  rewrite !bind_cons, map_app, IHg, map_map. by rewrite word_view_enumerate.
Qed.

Lemma text_lines_snoc lines line :
  text_lines (lines ++ [line])
  = text_lines lines ++ (if is_blank line then [] else [strip line]).
Proof. unfold text_lines. rewrite bind_app, bind_cons. simpl. by rewrite app_nil_r. Qed.

Lemma nlp_doc_words (nlp : Pipeline) lines :
  map (λ w, word_view (xml_of_word w)) (doc_words (nlp_doc_of nlp lines))
  = text_lines lines ≫= λ line, nlp line ≫= map token_view.
Proof.
  induction lines as [|line lines IH] using rev_ind; [done|].
  rewrite text_lines_snoc, bind_app, <- IH. destruct (is_blank line) eqn:Hb.
  - rewrite app_nil_r. f_equal.
    by apply (doc_words_snoc_par _ _ _ (nlp_doc_snoc_blank nlp lines line Hb)).
  - destruct (nlp_doc_snoc_text nlp lines line Hb) as (closed & l & ss & H0 & H1).
    rewrite (doc_words_snoc_sents _ _ _ _ _ _ H0 H1), map_app. f_equal.
    unfold line_sents. rewrite word_view_numbered, merge_groups_join.
    rewrite bind_cons. simpl. by rewrite app_nil_r.
Qed.

Lemma nltk_doc_words `{Externals} pl lines :
  map (λ w, word_view (xml_of_word w)) (doc_words (nltk_doc_of pl lines))
  = text_lines lines ≫= λ line,
      sent_tokenize line pl ≫= λ s,
        map (λ w, (Some w, None, None)) (word_tokenize s pl).
Proof.
  induction lines as [|line lines IH] using rev_ind; [done|].
  rewrite text_lines_snoc, bind_app, <- IH. destruct (is_blank line) eqn:Hb.
  - rewrite app_nil_r. f_equal.
    by apply (doc_words_snoc_par _ _ _ (nltk_doc_snoc_blank pl lines line Hb)).
  - destruct (nltk_doc_snoc_text pl lines line Hb) as (closed & l & ss & H0 & H1).
    rewrite (doc_words_snoc_sents _ _ _ _ _ _ H0 H1), map_app. f_equal.
    rewrite bind_cons. simpl. rewrite app_nil_r. unfold nltk_line_sents.
    clear H0 H1. induction (sent_tokenize (strip line) pl) as [|s sents IHs]; [done|].
    cbn [map]. rewrite !bind_cons, map_app, IHs. f_equal. cbn [s_words].
    rewrite map_map. generalize 1.
    induction (word_tokenize s pl) as [|w ws IHw]; intros k; [done|].
    cbn [enumerate map]. by rewrite IHw.
Qed.

Lemma nlp_written_words nlp lines :
  map word_view (all_words (xml_of_doc (nlp_doc_of nlp lines)))
  = text_lines lines ≫= λ line, nlp line ≫= map token_view.
Proof. by rewrite all_words_xml_of_doc, map_map, nlp_doc_words. Qed.

Lemma nltk_written_words `{Externals} pl lines :
  map word_view (all_words (xml_of_doc (nltk_doc_of pl lines)))
  = text_lines lines ≫= λ line,
      sent_tokenize line pl ≫= λ s,
        map (λ w, (Some w, None, None)) (word_tokenize s pl).
Proof. by rewrite all_words_xml_of_doc, map_map, nltk_doc_words. Qed.

(** X1: [nlp_process] on an input file that is text, with an output path
    that can be written and a pipeline whose documents give the list of
    their sentences.  If lxml accepts text, tag and lemma of every token
    of the lines, the call returns normally after one read of [file_in]
    and one write of a tree to [file_out] (the unbound [sentence] is never
    read), and the word elements of that tree, in document order, carry
    text, [tree] and [lem] of exactly the tokens the pipeline gave for the
    stripped non-blank lines, in their order: merging moves no token,
    drops none and repeats none.  If lxml refuses one of these strings,
    the call ends with its [ValueError] and nothing is written. *)
Theorem X1_nlp_process_words `{Externals} (nlp : Pipeline) (file_in file_out : str)
    (stanza_unique : bool) (content : str) :
  files !! file_in = Some (Text content) →
  writable file_out = true →
  (nlp_compatible nlp (readlines content) = true →
   ∃ t, nlp_process nlp file_in file_out stanza_unique
        = ([OpenRead file_in; WriteTree file_out t], Ok tt)
        ∧ map word_view (all_words t)
          = text_lines (readlines content) ≫= λ line, nlp line ≫= map token_view)
  ∧ (nlp_compatible nlp (readlines content) = false →
     nlp_process nlp file_in file_out stanza_unique
     = ([OpenRead file_in], Raise ValueError)).
Proof.
  intros Hf Hw. split; intros Hok.
  - eexists. split; [by apply nlp_process_writes|apply nlp_written_words].
  - by rewrite (nlp_process_tree _ _ _ _ content), nlp_tree_refused.
Qed.

Lemma X1_witness :
  (@files demo !! py "mr_smith.txt" = Some (Text (py "Mr Smith left." ++ nl))
   ∧ @writable demo (py "out.xml") = true
   ∧ nlp_compatible demo_nlp (readlines (py "Mr Smith left." ++ nl)) = true
   ∧ ∃ t, @nlp_process demo demo_nlp (py "mr_smith.txt") (py "out.xml") true
          = ([OpenRead (py "mr_smith.txt"); WriteTree (py "out.xml") t], Ok tt)
          ∧ map word_view (all_words t)
            = text_lines (readlines (py "Mr Smith left." ++ nl)) ≫= λ line,
                demo_nlp line ≫= map token_view)
  ∧ (@files demo !! py "control.txt" = Some (Text (py "Mr" ++ nl ++ bell_line ++ nl))
     ∧ @writable demo (py "out.xml") = true
     ∧ nlp_compatible demo_nlp (readlines (py "Mr" ++ nl ++ bell_line ++ nl)) = false
     ∧ @nlp_process demo demo_nlp (py "control.txt") (py "out.xml") true
       = ([OpenRead (py "control.txt")], Raise ValueError)).
Proof.
  split.
  - split_and!; [reflexivity..|].
    apply (proj1 (@X1_nlp_process_words demo demo_nlp (py "mr_smith.txt") (py "out.xml")
                    true (py "Mr Smith left." ++ nl) eq_refl eq_refl)).
    reflexivity.
  - split_and!; [reflexivity..|].
    apply (proj2 (@X1_nlp_process_words demo demo_nlp (py "control.txt") (py "out.xml")
                    true (py "Mr" ++ nl ++ bell_line ++ nl) eq_refl eq_refl)).
    reflexivity.
Defined.

(** X2: [nltk_tokenize] for a language of [NLTK_LANGUAGES], on an input
    file that is text, with an output path that can be written.  If lxml
    accepts every word of the lines, the call returns normally after one
    read and one write, and the word elements of the tree, in document
    order, carry as text the words of [word_tokenize] for every sentence
    of [sent_tokenize] of every stripped non-blank line, and neither
    [tree] nor [lem].  If lxml refuses a word, the call ends with its
    [ValueError] and nothing is written. *)
Theorem X2_nltk_tokenize_words `{Externals} (file_in file_out language pl content : str) :
  NLTK_LANGUAGES !! language = Some pl → pl ≠ [] →
  files !! file_in = Some (Text content) →
  writable file_out = true →
  (nltk_compatible pl (readlines content) = true →
   ∃ t, nltk_tokenize file_in file_out language
        = ([OpenRead file_in; WriteTree file_out t], Ok tt)
        ∧ map word_view (all_words t)
          = text_lines (readlines content) ≫= λ line,
              sent_tokenize line pl ≫= λ s,
                map (λ w, (Some w, None, None)) (word_tokenize s pl))
  ∧ (nltk_compatible pl (readlines content) = false →
     nltk_tokenize file_in file_out language
     = ([OpenRead file_in], Raise ValueError)).
Proof.
  intros Hl Hpl Hf Hw. split; intros Hok.
  - eexists. split; [by eapply nltk_tokenize_writes|apply nltk_written_words].
  - by rewrite (nltk_tokenize_tree _ _ _ pl content), nltk_tree_refused.
Qed.

Lemma X2_witness :
  (@NLTK_LANGUAGES demo !! py "en" = Some (py "english") ∧ py "english" ≠ [])
  ∧ (@files demo !! py "hello.txt" = Some (Text (py "Hello world. Good bye." ++ nl))
     ∧ @writable demo (py "out.xml") = true
     ∧ @nltk_compatible demo (py "english")
         (readlines (py "Hello world. Good bye." ++ nl)) = true
     ∧ ∃ t, @nltk_tokenize demo (py "hello.txt") (py "out.xml") (py "en")
            = ([OpenRead (py "hello.txt"); WriteTree (py "out.xml") t], Ok tt)
            ∧ map word_view (all_words t)
              = text_lines (readlines (py "Hello world. Good bye." ++ nl)) ≫= λ line,
                  @sent_tokenize demo line (py "english") ≫= λ s,
                    map (λ w, (Some w, None, None))
                      (@word_tokenize demo s (py "english")))
  ∧ (@files demo !! py "control.txt" = Some (Text (py "Mr" ++ nl ++ bell_line ++ nl))
     ∧ @writable demo (py "out.xml") = true
     ∧ @nltk_compatible demo (py "english")
         (readlines (py "Mr" ++ nl ++ bell_line ++ nl)) = false
     ∧ @nltk_tokenize demo (py "control.txt") (py "out.xml") (py "en")
       = ([OpenRead (py "control.txt")], Raise ValueError)).
Proof.
  assert (Hne : py "english" ≠ []) by done.
  split; [split; [reflexivity|exact Hne]|]. split.
  - split_and!; [reflexivity..|].
    apply (proj1 (@X2_nltk_tokenize_words demo (py "hello.txt") (py "out.xml") (py "en")
                    (py "english") (py "Hello world. Good bye." ++ nl)
                    eq_refl Hne eq_refl eq_refl)).
    reflexivity.
  - split_and!; [reflexivity..|].
    apply (proj2 (@X2_nltk_tokenize_words demo (py "control.txt") (py "out.xml") (py "en")
                    (py "english") (py "Mr" ++ nl ++ bell_line ++ nl)
                    eq_refl Hne eq_refl eq_refl)).
    reflexivity.
Defined.



(** X19: a pipeline whose documents give a dict, as spaCy's [Doc.to_dict]
    does.  When the input has a line of text and the dict of the first one
    has a key that is not the empty string, [spacy_tokenize] and the
    [spacy_stanza] branch of [stanza_tokenize] end with the
    [AttributeError] of [token.text], read on a character of the key,
    after the input was read; nothing is written. *)
Theorem X19_spacy_documents `{Externals} (file_in file_out language content : str)
    (nlp0 : Nlp) (l : str) (rest keys : list str) :
  files !! file_in = Some (Text content) →
  text_lines (readlines content) = l :: rest →
  add_pipe (py "sentencizer") nlp0 l = Serialised keys →
  existsb truthy keys = true →
  (∀ m, SPACY_MODELS !! language = Some m → m ≠ [] → spacy_load m = Some nlp0 →
     spacy_tokenize file_in file_out language
     = ([OpenRead file_in], Raise (AttributeError (py "text"))))
  ∧ (stanza_download language = true →
     spacy_stanza_load_pipeline language (py "tokenize,pos,lemma") = Some nlp0 →
     stanza_tokenize file_in file_out language
     = ([OpenRead file_in], Raise (AttributeError (py "text")))).
Proof.
  intros Hf Hl Hdoc Hk.
  assert (Hp : nlp_process (add_pipe (py "sentencizer") nlp0) file_in file_out false
               = ([OpenRead file_in], Raise (AttributeError (py "text")))).
  { rewrite (nlp_process_tree _ _ _ _ content) by done.
    by rewrite (nlp_tree_serialised false _ _ l rest keys). }
  split.
  - intros m Hm Hne Hload. unfold spacy_tokenize. rewrite Hm.
    destruct m as [|ch m]; [done|]. by rewrite Hload.
  - intros Hd Hload. unfold stanza_tokenize. by rewrite Hd, Hload.
Qed.

Lemma X19_witness :
  (@files demo !! py "hello.txt" = Some (Text (py "Hello world. Good bye." ++ nl))
   ∧ text_lines (readlines (py "Hello world. Good bye." ++ nl))
     = py "Hello world. Good bye." :: []
   ∧ @add_pipe demo (py "sentencizer") demo_spacy (py "Hello world. Good bye.")
     = Serialised [py "text"; py "array_head"; py "array_body"; py "sentiment";
                   py "tensor"; py "cats"; py "spans"; py "strings";
                   py "has_unknown_spaces"]
   ∧ existsb truthy [py "text"; py "array_head"; py "array_body"; py "sentiment";
                     py "tensor"; py "cats"; py "spans"; py "strings";
                     py "has_unknown_spaces"] = true)
  ∧ (@SPACY_MODELS demo !! py "en" = Some (py "en_core_web_sm")
     ∧ py "en_core_web_sm" ≠ []
     ∧ @spacy_load demo (py "en_core_web_sm") = Some demo_spacy
     ∧ @spacy_tokenize demo (py "hello.txt") (py "out.xml") (py "en")
       = ([OpenRead (py "hello.txt")], Raise (AttributeError (py "text"))))
  ∧ (@stanza_download demo (py "en") = true
     ∧ @spacy_stanza_load_pipeline demo (py "en") (py "tokenize,pos,lemma")
       = Some demo_spacy
     ∧ @stanza_tokenize demo (py "hello.txt") (py "out.xml") (py "en")
       = ([OpenRead (py "hello.txt")], Raise (AttributeError (py "text")))).
Proof.
  assert (Hne : py "en_core_web_sm" ≠ []) by done.
  pose proof (@X19_spacy_documents demo (py "hello.txt") (py "out.xml") (py "en")
                (py "Hello world. Good bye." ++ nl) demo_spacy
                (py "Hello world. Good bye.") [] _ eq_refl eq_refl eq_refl eq_refl)
    as [Hspacy Hstanza].
  split; [split_and!; reflexivity|]. split.
  - split_and!; [reflexivity|exact Hne|reflexivity|].
    exact (Hspacy (py "en_core_web_sm") eq_refl Hne eq_refl).
  - split_and!; [reflexivity..|]. exact (Hstanza eq_refl eq_refl).
Defined.

Lemma blank_doc (nlp : Pipeline) lines :
  Forall (λ x, is_blank x = true) lines →
  d_pars (nlp_doc_of nlp lines)
  = map (λ i, mkPar (par_label i) []) (seq 1 (S (count_blank lines))).
Proof.
  induction lines as [|b lines IH] using rev_ind; intros Hbl; [done|].
  apply Forall_app in Hbl as [Hbl Hb]. apply Forall_inv in Hb.
  rewrite nlp_doc_snoc_blank, IH, count_blank_snoc, Hb by done.
  rewrite Nat.add_1_r, (seq_S (S (count_blank lines))), map_app. done.
Qed.

(** X20: when no line of the input is text (an empty file, or blank lines
    only), no pipeline is asked: [nlp_process] succeeds with every
    pipeline, also one of spaCy, and writes one paragraph more than there
    are lines, all empty. *)
Theorem X20_no_text `{Externals} (nlp : Nlp) (file_in file_out : str)
    (stanza_unique : bool) (content : str) :
  files !! file_in = Some (Text content) →
  writable file_out = true →
  text_lines (readlines content) = [] →
  ∃ t, nlp_process nlp file_in file_out stanza_unique
       = ([OpenRead file_in; WriteTree file_out t], Ok tt)
       ∧ xchildren t = map empty_par (seq 1 (S (length (readlines content)))).
Proof.
  intros Hf Hw Hl. eexists. split.
  - rewrite (nlp_process_tree _ _ _ _ content), nlp_tree_blank by done.
    unfold finish. by rewrite Hw.
  - pose proof (text_lines_blank _ Hl) as Hbl.
    rewrite xchildren_xml_of_doc, blank_doc, map_map by done.
    f_equal. f_equal. f_equal. clear Hl.
    induction Hbl as [|x lines Hx _ IH]; [done|]. simpl. by rewrite Hx, IH.
Qed.

Lemma X20_witness :
  (@files demo !! py "blank.txt" = Some (Text (nl ++ py "  " ++ nl))
   ∧ @writable demo (py "out.xml") = true
   ∧ text_lines (readlines (nl ++ py "  " ++ nl)) = [])
  ∧ ∃ t, @nlp_process demo demo_spacy (py "blank.txt") (py "out.xml") false
         = ([OpenRead (py "blank.txt"); WriteTree (py "out.xml") t], Ok tt)
         ∧ xchildren t
           = map empty_par (seq 1 (S (length (readlines (nl ++ py "  " ++ nl))))).
Proof.
  split; [split_and!; reflexivity|].
  apply (@X20_no_text demo demo_spacy (py "blank.txt") (py "out.xml") false
           (nl ++ py "  " ++ nl)); reflexivity.
Defined.

(** ** The id formats *)

Lemma digits_dot d1 d2 x y :
  digits d1 ++ 46%N :: x = digits d2 ++ 46%N :: y → d1 = d2 ∧ x = y.
Proof.
  revert d2. induction d1; intros d2 Heq; destruct d2; simpl in Heq;
    simplify_eq; try done;
    match goal with
    | IH : ∀ d, _ → _ = d ∧ _, H : _ ++ _ = _ ++ _ |- _ =>
        destruct (IH _ H) as [-> ->]; done
    end.
Qed.

Lemma to_uint_inj n m : Nat.to_uint n = Nat.to_uint m → n = m.
Proof.
  intros Heq. rewrite <- (Unsigned.of_to n), <- (Unsigned.of_to m). by rewrite Heq.
Qed.

Lemma fmt_s_inj i j i' j' : fmt_s i j = fmt_s i' j' → i = i' ∧ j = j'.
Proof.
  unfold fmt_s, str_of_nat. intros Heq. simpl in Heq. injection Heq as Heq.
  apply digits_dot in Heq as [Hi Hj]. apply digits_inj in Hj.
  split; by apply to_uint_inj.
Qed.

Lemma fmt_w_inj i j k i' j' k' :
  fmt_w i j k = fmt_w i' j' k' → i = i' ∧ j = j' ∧ k = k'.
Proof.
  unfold fmt_w, str_of_nat. intros Heq. simpl in Heq. injection Heq as Heq.
  apply digits_dot in Heq as [Hi Heq]. apply digits_dot in Heq as [Hj Hk].
  apply digits_inj in Hk. split_and!; by apply to_uint_inj.
Qed.

(** X17: the ids are unambiguous: [s{i}.{j}] determines [i] and [j],
    [w{i}.{j}.{k}] determines [i], [j] and [k], and no sentence id is a
    word id. *)
Theorem X17_ids_injective (i j k i' j' k' : nat) :
  (fmt_s i j = fmt_s i' j' ↔ i = i' ∧ j = j')
  ∧ (fmt_w i j k = fmt_w i' j' k' ↔ i = i' ∧ j = j' ∧ k = k')
  ∧ fmt_s i j ≠ fmt_w i' j' k'.
Proof.
  split_and!.
  - split; [apply fmt_s_inj|]. by intros [-> ->].
  - split; [apply fmt_w_inj|]. by intros (-> & -> & ->).
  - unfold fmt_s, fmt_w. intros Heq. simpl in Heq. done.
Qed.

(** ** The ids of sentences and words *)

Lemma merge_groups_apart cands :
  Forall (λ c, length c ≠ 1) cands → merge_groups cands = map (λ c, [c]) cands.
Proof.
  induction 1 as [|c cs Hc _ IH]; [done|].
  rewrite merge_groups_other by done. by rewrite IH.
Qed.

Section builder_sentences.
Context {St : Type} (cur : St → cursor) (idx : St → nat) (step : St → str → St).
Context (Inv : St → Prop) (P : nat → Sent → Prop).
Hypothesis step_inv : ∀ st line, Inv st → Inv (step st line).
Hypothesis step_blank : ∀ st line,
  is_blank line = true →
  cur (step st line) = open_par (par_label (idx st + 1)) (cur st)
  ∧ idx (step st line) = idx st + 1.
Hypothesis step_text : ∀ st line,
  Inv st → is_blank line = false →
  ∃ new,
    c_closed (cur (step st line)) = c_closed (cur st)
    ∧ c_plabel (cur (step st line)) = c_plabel (cur st)
    ∧ sents_all (cur (step st line)) = sents_all (cur st) ++ new
    ∧ Forall (P (idx st)) new
    ∧ idx (step st line) = idx st.

Lemma build_numbered_step st line :
  Inv st →
  length (d_pars (doc_of (cur st))) = idx st →
  pars_numbered P (doc_of (cur st)) →
  length (d_pars (doc_of (cur (step st line)))) = idx (step st line)
  ∧ pars_numbered P (doc_of (cur (step st line))).
Proof.
  intros Hinv Hlen Hgood. destruct (is_blank line) eqn:Hb.
  - destruct (step_blank st line Hb) as [-> ->].
    unfold doc_of in *. cbn [d_pars open_par c_closed] in *.
    split; [rewrite length_app; simpl; lia|].
    intros n p Hn. apply lookup_app_Some in Hn as [Hn|[Hge Hn]].
    + by apply Hgood.
    + apply list_lookup_singleton_Some in Hn as [Hn <-].
      replace (S n) with (idx st + 1) by lia. by split.
  - destruct (step_text st line Hinv Hb) as (new & Hc & Hp & Hs & Hnew & ->).
    unfold doc_of, current_par in *. cbn [d_pars] in *.
    fold (sents_all (cur (step st line))). fold (sents_all (cur st)) in Hlen, Hgood.
    rewrite Hc, Hp, Hs. rewrite length_app in *. split; [done|].
    intros n p Hn. apply lookup_app_Some in Hn as [Hn|[Hge Hn]].
    + apply Hgood. by apply lookup_app_l_Some.
    + apply list_lookup_singleton_Some in Hn as [Hn <-].
      destruct (Hgood n (mkPar (c_plabel (cur st)) (sents_all (cur st))))
        as [Hl Hss].
      { cbn [d_pars]. rewrite lookup_app_r by done. by rewrite Hn. }
      split; [done|]. cbn [p_sents] in *. apply Forall_app. split; [done|].
      replace (S n) with (idx st) by (simpl in Hlen; lia). done.
Qed.

Lemma build_numbered lines st :
  Inv st →
  length (d_pars (doc_of (cur st))) = idx st →
  pars_numbered P (doc_of (cur st)) →
  pars_numbered P (doc_of (cur (foldl step st lines))).
Proof.
  revert st. induction lines as [|line lines IH]; intros st Hinv Hlen Hgood; [done|].
  cbn [foldl]. destruct (build_numbered_step st line Hinv Hlen Hgood).
  apply IH; auto.
Qed.
End builder_sentences.

Lemma start_numbered P : pars_numbered P (doc_of start_cursor).
Proof.
  intros n p Hn. destruct n as [|n]; [|done]. injection Hn as <-. by split.
Qed.

Lemma length_enumerate {A} k (ws : list A) : length (enumerate k ws) = length ws.
Proof.
  revert k. induction ws as [|w ws IH]; intros k; [done|].
  cbn [enumerate length]. by rewrite IH.
Qed.

Lemma enumerate_ge {A} k (c : list A) (kt : nat * A) :
  kt ∈ enumerate k c → k ≤ kt.1.
Proof.
  revert k. induction c as [|t c IHc]; intros k Hin; [by apply elem_of_nil in Hin|].
  cbn [enumerate] in Hin. apply elem_of_cons in Hin as [->|Hin]; [simpl; lia|].
  apply IHc in Hin. lia.
Qed.

Lemma numbered_ok i j gs : Forall (nlp_sent_ok i) (numbered i j gs).
Proof.
  revert j. induction gs as [|g gs IH]; intros j; [constructor|].
  cbn [numbered]. constructor; [|apply IH].
  exists (S j). split_and!; [lia|done|]. cbn [s_words]. unfold group_words.
  apply Forall_forall. intros w Hw.
  apply list_elem_of_bind in Hw as (c & Hw & _).
  apply list_elem_of_fmap in Hw as (kt & -> & Hkt). exists kt. split; [|done].
  by apply (enumerate_ge 1 c).
Qed.

Lemma nlp_doc_numbered (nlp : Pipeline) lines :
  pars_numbered nlp_sent_ok (nlp_doc_of nlp lines).
Proof.
  apply (build_numbered snd fst (nlp_line_doc nlp) (λ _, True) nlp_sent_ok);
    [done|apply nlp_step_blank| |done|done|apply start_numbered].
  intros st line _ Hb.
  destruct (nlp_line_doc_text nlp st line Hb) as (c' & -> & Hr & Hc & Hp & Hs).
  eexists. split_and!; [done..| |done]. apply numbered_ok.
Qed.

Lemma nltk_doc_numbered `{Externals} pl lines :
  pars_numbered nltk_sent_ok (nltk_doc_of pl lines).
Proof.
  apply (build_numbered nd_cursor nd_i (nltk_line_doc pl) (λ d, 1 ≤ nd_j d)
           nltk_sent_ok);
    [|apply nltk_step_blank| |done|done|apply start_numbered].
  - intros d line Hj. unfold nltk_line_doc. destruct (truthy (strip line)); simpl; lia.
  - intros d line Hj Hb. unfold nltk_line_doc. rewrite is_blank_truthy, Hb.
    cbn [negb nd_cursor nd_i].
    destruct (nltk_sentences_doc_spec pl (nd_i d) (nd_j d)
                (sent_tokenize (strip line) pl) (nd_cursor d)) as (Hr & Hc & Hp & Hs).
    eexists. split_and!; [done..| |done]. unfold nltk_line_sents.
    apply Forall_fmap, Forall_forall. intros s _. by eexists _, _.
Qed.

Lemma enumerate_ids {A} (f : nat → str) k (ws : list A) :
  map (λ kw : nat * A, Some (f kw.1)) (enumerate k ws)
  = map (λ k, Some (f k)) (seq k (length ws)).
Proof.
  revert k. induction ws as [|w ws IH]; intros k; [done|].
  cbn [enumerate map length seq]. by rewrite IH.
Qed.

Lemma nlp_sent_ok_xml i s : nlp_sent_ok i s → ids_fit i (xml_of_sent s).
Proof.
  intros (j & Hj & Hl & Hw). exists j. split_and!; [done|..].
  - unfold xattr, xml_of_sent. cbn [xlabel]. by rewrite Hl.
  - unfold xml_of_sent. cbn [xchildren]. apply Forall_fmap.
    eapply Forall_impl; [done|]. intros w ([k t] & Hk & ->). by exists k.
Qed.

Lemma nltk_sent_ok_xml i s : nltk_sent_ok i s → words_numbered i (xml_of_sent s).
Proof.
  intros (j & ws & Hj & Hl & Hw). exists j. split_and!; [done|..].
  - unfold xattr, xml_of_sent. cbn [xlabel]. by rewrite Hl.
  - unfold child_ids, xml_of_sent. cbn [xchildren].
    rewrite Hw, !map_map, !length_map, length_enumerate.
    by rewrite <- (enumerate_ids (fmt_w i j) 1 ws).
Qed.

Lemma pars_numbered_xml P Q d :
  (∀ i s, P i s → Q i (xml_of_sent s)) →
  pars_numbered P d →
  ∀ n p, xchildren (xml_of_doc d) !! n = Some p →
    xattr (py "id") p = Some (str_of_nat (S n)) ∧ Forall (Q (S n)) (xchildren p).
Proof.
  intros HPQ Hd n p Hn. rewrite xchildren_xml_of_doc, list_lookup_fmap in Hn.
  destruct (d_pars d !! n) as [p0|] eqn:Hp0; [|done]. injection Hn as <-.
  destruct (Hd n p0 Hp0) as [Hl Hs]. split.
  - unfold xattr, xml_of_par. cbn [xlabel]. by rewrite Hl.
  - unfold xml_of_par. cbn [xchildren]. apply Forall_fmap.
    eapply Forall_impl; [done|]. intros s. apply HPQ.
Qed.

Lemma Forall_enumerate {A} (P : nat * A → Prop) k (l : list A) :
  (∀ n x, l !! n = Some x → P (k + n, x)) → Forall P (enumerate k l).
Proof.
  revert k. induction l as [|x l IH]; intros k Hl; [constructor|].
  cbn [enumerate]. constructor.
  - rewrite <- (Nat.add_0_r k). by apply Hl.
  - apply IH. intros n y Hn. rewrite Nat.add_succ_comm. by apply Hl.
Qed.

Lemma words_numbered_NoDup i s : words_numbered i s → NoDup (child_ids s).
Proof.
  intros (j & _ & _ & ->). apply NoDup_fmap_2; [|apply NoDup_seq].
  intros k k' Heq. assert (Hw : fmt_w i j k = fmt_w i j k') by congruence.
  by apply fmt_w_inj in Hw as (_ & _ & ?).
Qed.

(** X4: in the tree of [nlp_process], built from tokens that lxml
    accepts, the paragraph at place [i] (from 1) has the id [i], every
    sentence element in it has an id [s{i}.{j}] with [j] at least 1, and
    every word of that element an id [w{i}.{j}.{k}] with the same [i] and
    [j] and [k] at least 1. *)
Theorem X4_nlp_ids (nlp : Pipeline) (stanza_unique : bool) (lines : list str) :
  nlp_compatible nlp lines = true →
  ∃ t, nlp_tree nlp stanza_unique lines = Ok t
       ∧ Forall (λ ip, xattr (py "id") ip.2 = Some (str_of_nat ip.1)
                       ∧ Forall (ids_fit ip.1) (xchildren ip.2))
           (enumerate 1 (xchildren t)).
Proof.
  intros Hok. eexists. split; [by apply nlp_tree_doc|]. apply Forall_enumerate.
  apply (pars_numbered_xml nlp_sent_ok); [apply nlp_sent_ok_xml|apply nlp_doc_numbered].
Qed.

Lemma X4_witness :
  nlp_compatible demo_nlp [py "Mr Smith left." ++ nl; nl; py "Good bye." ++ nl] = true
  ∧ ∃ t, nlp_tree demo_nlp true [py "Mr Smith left." ++ nl; nl; py "Good bye." ++ nl]
         = Ok t
         ∧ Forall (λ ip, xattr (py "id") ip.2 = Some (str_of_nat ip.1)
                         ∧ Forall (ids_fit ip.1) (xchildren ip.2))
             (enumerate 1 (xchildren t)).
Proof.
  split; [reflexivity|].
  apply (X4_nlp_ids demo_nlp true [py "Mr Smith left." ++ nl; nl; py "Good bye." ++ nl]).
  reflexivity.
Defined.

(** X5: in the tree of [nltk_tokenize], built from words that lxml
    accepts, the paragraph at place [i] (from 1) has the id [i], every
    sentence element in it has an id [s{i}.{j}] with [j] at least 1, and
    its words have the ids [w{i}.{j}.1], [w{i}.{j}.2], ... in this order,
    no two of them equal. *)
Theorem X5_nltk_ids `{Externals} (pl : str) (lines : list str) :
  nltk_compatible pl lines = true →
  ∃ t, nltk_tree pl lines = Ok t
       ∧ Forall (λ ip, xattr (py "id") ip.2 = Some (str_of_nat ip.1)
                       ∧ Forall (λ s, words_numbered ip.1 s ∧ NoDup (child_ids s))
                           (xchildren ip.2))
           (enumerate 1 (xchildren t)).
Proof.
  intros Hok. eexists. split; [by apply nltk_tree_doc|]. apply Forall_enumerate.
  apply (pars_numbered_xml nltk_sent_ok
           (λ i s, words_numbered i s ∧ NoDup (child_ids s)));
    [|apply nltk_doc_numbered].
  intros i s Hs. apply nltk_sent_ok_xml in Hs. split; [done|].
  by apply (words_numbered_NoDup i).
Qed.

Lemma X5_witness :
  @nltk_compatible demo (py "english")
    [py "Hello world. Good bye." ++ nl; nl; py "Mr" ++ nl] = true
  ∧ ∃ t, @nltk_tree demo (py "english")
           [py "Hello world. Good bye." ++ nl; nl; py "Mr" ++ nl] = Ok t
         ∧ Forall (λ ip, xattr (py "id") ip.2 = Some (str_of_nat ip.1)
                         ∧ Forall (λ s, words_numbered ip.1 s ∧ NoDup (child_ids s))
                             (xchildren ip.2))
             (enumerate 1 (xchildren t)).
Proof.
  split; [reflexivity|].
  apply (@X5_nltk_ids demo (py "english")
           [py "Hello world. Good bye." ++ nl; nl; py "Mr" ++ nl]).
  reflexivity.
Defined.

Lemma numbered_plain i j cs :
  Forall (nlp_sent_plain i) (numbered i j (map (λ c, [c]) cs)).
Proof.
  revert j. induction cs as [|c cs IH]; intros j; [constructor|].
  cbn [map numbered]. constructor; [|apply IH].
  exists (S j), c. split_and!; [lia|done|]. cbn [s_words]. unfold group_words.
  rewrite bind_cons. simpl. by rewrite app_nil_r.
Qed.

Lemma foldl_ext_elem {A B} (f g : A → B → A) (l : list B) :
  (∀ x, x ∈ l → ∀ a, f a x = g a x) → ∀ a, foldl f a l = foldl g a l.
Proof.
  induction l as [|x l IH]; intros Hfg a; [done|].
  cbn [foldl]. rewrite (Hfg x) by left. apply IH.
  intros y Hy. apply Hfg. by right.
Qed.

Lemma nlp_doc_of_ext nlp nlp' lines :
  (∀ line, line ∈ text_lines lines → nlp line = nlp' line) →
  nlp_doc_of nlp lines = nlp_doc_of nlp' lines.
Proof.
  intros Hext. unfold nlp_doc_of. f_equal. f_equal.
  apply foldl_ext_elem. intros line Hin ic. unfold nlp_line_doc.
  destruct (truthy (strip line)) eqn:Ht; [|done].
  rewrite Hext; [done|]. apply text_lines_elem. exists line.
  split_and!; [done| |done]. unfold is_blank. by rewrite Ht.
Qed.

Lemma nlp_doc_plain nlp lines :
  (∀ line, never_single nlp line) →
  pars_numbered nlp_sent_plain (nlp_doc_of nlp lines).
Proof.
  intros Hnlp.
  apply (build_numbered snd fst (nlp_line_doc nlp) (λ _, True) nlp_sent_plain);
    [done|apply nlp_step_blank| |done|done|apply start_numbered].
  intros st line _ Hb.
  destruct (nlp_line_doc_text nlp st line Hb) as (c' & -> & Hr & Hc & Hp & Hs).
  eexists. split_and!; [done..| |done]. unfold line_sents.
  rewrite merge_groups_apart by apply Hnlp. apply numbered_plain.
Qed.

Lemma nlp_sent_plain_xml i s : nlp_sent_plain i s → words_numbered i (xml_of_sent s).
Proof.
  intros (j & c & Hj & Hl & Hw). exists j. split_and!; [done|..].
  - unfold xattr, xml_of_sent. cbn [xlabel]. by rewrite Hl.
  - unfold child_ids, xml_of_sent. cbn [xchildren].
    rewrite Hw, !map_map, !length_map, length_enumerate.
    by rewrite <- (enumerate_ids (fmt_w i j) 1 c).
Qed.

(** X6: when no sentence that the pipeline returns for the lines of the
    input has exactly one token (and lxml accepts the tokens), the merge
    safeguard never acts and the words of every sentence element of
    [nlp_process] have the ids [w{i}.{j}.1], [w{i}.{j}.2], ... in this
    order, no two of them equal. *)
Theorem X6_nlp_ids_without_merge (nlp : Pipeline) (stanza_unique : bool)
    (lines : list str) :
  Forall (never_single nlp) (text_lines lines) →
  nlp_compatible nlp lines = true →
  ∃ t, nlp_tree nlp stanza_unique lines = Ok t
       ∧ Forall (λ ip, Forall (λ s, words_numbered ip.1 s ∧ NoDup (child_ids s))
                         (xchildren ip.2))
           (enumerate 1 (xchildren t)).
Proof.
  intros Hnlp Hok. rewrite Forall_forall in Hnlp.
  set (nlp' := λ line, if decide (line ∈ text_lines lines) then nlp line else []).
  assert (Hext : ∀ line, line ∈ text_lines lines → nlp line = nlp' line).
  { intros line Hin. unfold nlp'. by rewrite decide_True. }
  assert (Hnlp' : ∀ line, never_single nlp' line).
  { intros line. unfold nlp', never_single. case_decide; [by apply Hnlp|constructor]. }
  eexists. split; [by apply nlp_tree_doc|].
  rewrite (nlp_doc_of_ext nlp nlp' lines Hext).
  apply Forall_enumerate. intros n p Hn.
  destruct (pars_numbered_xml nlp_sent_plain
              (λ i s, words_numbered i s ∧ NoDup (child_ids s))
              (nlp_doc_of nlp' lines)) with (n := n) (p := p) as [_ Hp];
    [|by apply nlp_doc_plain|done|done].
  intros i s Hs. apply nlp_sent_plain_xml in Hs. split; [done|].
  by apply (words_numbered_NoDup i).
Qed.

Lemma X6_witness :
  (Forall (never_single demo_nlp)
     (text_lines [py "Hello world. Good bye." ++ nl; nl; py "Smith left." ++ nl])
   ∧ nlp_compatible demo_nlp
       [py "Hello world. Good bye." ++ nl; nl; py "Smith left." ++ nl] = true)
  ∧ ∃ t, nlp_tree demo_nlp true
           [py "Hello world. Good bye." ++ nl; nl; py "Smith left." ++ nl] = Ok t
         ∧ Forall (λ ip, Forall (λ s, words_numbered ip.1 s ∧ NoDup (child_ids s))
                           (xchildren ip.2))
             (enumerate 1 (xchildren t)).
Proof.
  assert (H : Forall (never_single demo_nlp)
                (text_lines [py "Hello world. Good bye." ++ nl; nl;
                             py "Smith left." ++ nl])).
  { repeat constructor; vm_compute; lia. }
  split; [split; [exact H|reflexivity]|].
  exact (X6_nlp_ids_without_merge demo_nlp true _ H eq_refl).
Defined.

(** ** The sentences of one line *)

(** X7: in [nlp_process] a line of text (with tokens that lxml accepts)
    adds to the current paragraph one sentence element for its first
    sentence and one for every sentence that follows a sentence of more or
    less than one token, and numbers them [s{i}.1], [s{i}.2], ... with
    [i] one more than the number of blank lines before: the sentence
    counter starts again with every line. *)
Theorem X7_nlp_line_numbering (nlp : Pipeline) (stanza_unique : bool)
    (lines : list str) (line : str) :
  is_blank line = false →
  nlp_compatible nlp (lines ++ [line]) = true →
  ∃ t t' ps p ss,
    nlp_tree nlp stanza_unique lines = Ok t
    ∧ nlp_tree nlp stanza_unique (lines ++ [line]) = Ok t'
    ∧ xchildren t = ps ++ [p]
    ∧ xchildren t' = ps ++ [XNode (xlabel p) (xchildren p ++ ss)]
    ∧ length ss = opened (nlp (strip line))
    ∧ map (xattr (py "id")) ss
      = map (λ j, Some (fmt_s (S (count_blank lines)) j)) (seq 1 (length ss)).
Proof.
  intros Hb Hok. pose proof (nlp_compatible_prefix _ _ _ Hok) as Hok0.
  destruct (nlp_doc_snoc_text nlp lines line Hb) as (closed & l & ss & H0 & H1).
  destruct (snoc_text_xml _ _ _ _ _ _ H0 H1) as (ps & p & Hp & Hp').
  eexists _, _, ps, p, _. split_and!; [by apply nlp_tree_doc..|done|done| |].
  - unfold line_sents. by rewrite length_map, length_numbered, merge_groups_length.
  - rewrite map_map. unfold line_sents.
    by rewrite numbered_ids, length_map, length_numbered.
Qed.

Lemma X7_witness :
  (is_blank (py "Good bye." ++ nl) = false
   ∧ nlp_compatible demo_nlp ([py "Hello world." ++ nl] ++ [py "Good bye." ++ nl]) = true)
  ∧ ∃ t t' ps p ss,
      nlp_tree demo_nlp true [py "Hello world." ++ nl] = Ok t
      ∧ nlp_tree demo_nlp true ([py "Hello world." ++ nl] ++ [py "Good bye." ++ nl])
        = Ok t'
      ∧ xchildren t = ps ++ [p]
      ∧ xchildren t' = ps ++ [XNode (xlabel p) (xchildren p ++ ss)]
      ∧ length ss = opened (demo_nlp (strip (py "Good bye." ++ nl)))
      ∧ map (xattr (py "id")) ss
        = map (λ j, Some (fmt_s (S (count_blank [py "Hello world." ++ nl])) j))
            (seq 1 (length ss)).
Proof.
  split; [split; reflexivity|].
  apply (X7_nlp_line_numbering demo_nlp true [py "Hello world." ++ nl]
           (py "Good bye." ++ nl)); reflexivity.
Defined.

(** X8: in [nltk_tokenize] a line of text (with words that lxml accepts)
    adds to the current paragraph one sentence element per sentence of
    [sent_tokenize], holding the words of [word_tokenize], and all of them
    get the same id [s{i}.{j}], with [i] one more than the number of blank
    lines before and [j] one more than the number of lines of text since
    the last blank line: [j] counts lines, not sentences. *)
Theorem X8_nltk_line_numbering `{Externals} (pl : str) (lines : list str) (line : str) :
  is_blank line = false →
  nltk_compatible pl (lines ++ [line]) = true →
  ∃ t t' ps p ss,
    nltk_tree pl lines = Ok t
    ∧ nltk_tree pl (lines ++ [line]) = Ok t'
    ∧ xchildren t = ps ++ [p]
    ∧ xchildren t' = ps ++ [XNode (xlabel p) (xchildren p ++ ss)]
    ∧ map (xattr (py "id")) ss
      = map (λ _, Some (fmt_s (S (count_blank lines)) (S (trailing_text lines))))
          (sent_tokenize (strip line) pl)
    ∧ map child_texts ss
      = map (λ s, map Some (word_tokenize s pl)) (sent_tokenize (strip line) pl).
Proof.
  intros Hb Hok. pose proof (nltk_compatible_prefix _ _ _ Hok) as Hok0.
  destruct (nltk_doc_snoc_text pl lines line Hb) as (closed & l & ss & H0 & H1).
  destruct (snoc_text_xml _ _ _ _ _ _ H0 H1) as (ps & p & Hp & Hp').
  eexists _, _, ps, p, _. split_and!; [by apply nltk_tree_doc..|done|done| |].
  - unfold nltk_line_sents. by rewrite !map_map.
  - apply child_texts_nltk_line_sents.
Qed.

Lemma X8_witness :
  (is_blank (py "Hello world. Good bye." ++ nl) = false
   ∧ @nltk_compatible demo (py "english")
       ([py "Mr" ++ nl] ++ [py "Hello world. Good bye." ++ nl]) = true)
  ∧ ∃ t t' ps p ss,
      @nltk_tree demo (py "english") [py "Mr" ++ nl] = Ok t
      ∧ @nltk_tree demo (py "english")
          ([py "Mr" ++ nl] ++ [py "Hello world. Good bye." ++ nl]) = Ok t'
      ∧ xchildren t = ps ++ [p]
      ∧ xchildren t' = ps ++ [XNode (xlabel p) (xchildren p ++ ss)]
      ∧ map (xattr (py "id")) ss
        = map (λ _, Some (fmt_s (S (count_blank [py "Mr" ++ nl]))
                           (S (trailing_text [py "Mr" ++ nl]))))
            (@sent_tokenize demo (strip (py "Hello world. Good bye." ++ nl))
               (py "english"))
      ∧ map child_texts ss
        = map (λ s, map Some (@word_tokenize demo s (py "english")))
            (@sent_tokenize demo (strip (py "Hello world. Good bye." ++ nl))
               (py "english")).
Proof.
  split; [split; reflexivity|].
  apply (@X8_nltk_line_numbering demo (py "english") [py "Mr" ++ nl]
           (py "Hello world. Good bye." ++ nl)); reflexivity.
Defined.

(** ** Blank lines and the lines of a file *)

Lemma lstrip_nil s : lstrip s = [] ↔ all_space s.
Proof.
  unfold all_space. induction s as [|c s IH]; simpl.
  - split; [constructor|done].
  - destruct (isspace c) eqn:Hc.
    + rewrite IH. split; [by constructor|by inversion 1].
    + split; [done|]. inversion 1. congruence.
Qed.

Lemma lstrip_all_space s : all_space (lstrip s) ↔ all_space s.
Proof.
  unfold all_space. induction s as [|c s IH]; simpl; [done|].
  destruct (isspace c) eqn:Hc; [|done].
  rewrite IH. split; [by constructor|by inversion 1].
Qed.

Lemma all_space_rev s : all_space (rev s) ↔ all_space s.
Proof.
  unfold all_space. split; intros Hs.
  - rewrite <- (rev_involutive s). by apply Forall_rev.
  - by apply Forall_rev.
Qed.

Lemma rstrip_nil s : rstrip s = [] ↔ all_space s.
Proof.
  unfold rstrip. rewrite <- all_space_rev, <- lstrip_nil.
  split; [|by intros ->].
  intros Hr. apply (f_equal (@rev N)) in Hr. by rewrite rev_involutive in Hr.
Qed.

Lemma strip_nil s : strip s = [] ↔ all_space s.
Proof. unfold strip. by rewrite rstrip_nil, lstrip_all_space. Qed.

(** X10: a line is blank for the builders, and so opens a new
    paragraph, exactly when all its characters are white space
    ([str.isspace]); the empty line is one of them. *)
Theorem X10_blank_iff_whitespace (line : str) :
  is_blank line = true ↔ all_space line.
Proof.
  rewrite <- strip_nil. unfold is_blank. destruct (strip line); simpl; split; done.
Qed.

Lemma split_lines_join cur s : mjoin (split_lines cur s) = rev cur ++ s.
Proof.
  revert cur. induction s as [|c s IH]; intros cur; simpl.
  - destruct cur; simpl; by rewrite ?app_nil_r.
  - destruct (c =? 10)%N eqn:Hc.
    + cbn [mjoin list_join]. rewrite IH. simpl. by rewrite <- app_assoc.
    + rewrite IH. simpl. by rewrite <- app_assoc.
Qed.

Lemma elem_of_rev_iff (x : N) (l : str) : x ∈ rev l ↔ x ∈ l.
Proof. rewrite !list_elem_of_In. symmetry. apply in_rev. Qed.

Lemma split_lines_shape cur s :
  10%N ∉ cur →
  Forall (λ l, ∃ body, (10%N ∉ body)
                 ∧ (l = body ++ [10%N] ∨ (l = body ∧ body ≠ [])))
    (split_lines cur s).
Proof.
  revert cur. induction s as [|c s IH]; intros cur Hcur; simpl.
  - destruct cur as [|c0 cur]; [constructor|]. constructor; [|constructor].
    exists (rev (c0 :: cur)). split_and!.
    + by rewrite elem_of_rev_iff.
    + right. split; [done|]. simpl. by destruct (rev cur).
  - destruct (N.eqb_spec c 10) as [->|Hc].
    + constructor; [|apply IH; by apply not_elem_of_nil].
      exists (rev cur). split; [|by left].
      by rewrite elem_of_rev_iff.
    + apply IH. by apply not_elem_of_cons.
Qed.

Lemma universal_newlines_other c s :
  c ≠ 13%N → universal_newlines (c :: s) = c :: universal_newlines s.
Proof.
  intros Hc. cbn [universal_newlines]. repeat case_match; done.
Qed.

Lemma universal_newlines_cr s :
  universal_newlines (13%N :: s)
  = 10%N :: universal_newlines (match s with 10%N :: s' => s' | _ => s end).
Proof.
  cbn [universal_newlines]. repeat case_match; simplify_eq; done.
Qed.

Lemma universal_newlines_no_cr s : 13%N ∉ universal_newlines s.
Proof.
  assert (∀ n s, length s ≤ n → 13%N ∉ universal_newlines s) as Hgen.
  { clear s. induction n as [|n IH]; intros s Hn.
    - destruct s; [apply not_elem_of_nil|simpl in Hn; lia].
    - destruct s as [|c s]; [apply not_elem_of_nil|]. simpl in Hn.
      destruct (decide (c = 13%N)) as [->|Hc].
      + rewrite universal_newlines_cr. apply not_elem_of_cons. split; [done|].
        apply IH. repeat case_match; simplify_eq; simpl in *; lia.
      + rewrite universal_newlines_other by done.
        apply not_elem_of_cons. split; [done|]. apply IH. lia. }
  by apply (Hgen (length s)).
Qed.

Lemma readlines_shape content :
  Forall (λ l, ∃ body, (10%N ∉ body) ∧ (13%N ∉ body)
                 ∧ (l = body ++ [10%N] ∨ (l = body ∧ body ≠ [])))
    (readlines content).
Proof.
  pose proof (split_lines_shape [] (universal_newlines content)
                (not_elem_of_nil _)) as Hs.
  pose proof (universal_newlines_no_cr content) as Hcr.
  pose proof (split_lines_join [] (universal_newlines content)) as Hj.
  simpl in Hj. rewrite <- Hj in Hcr. unfold readlines.
  apply Forall_forall. intros l Hl.
  rewrite Forall_forall in Hs. destruct (Hs l Hl) as (body & Hb & Hshape).
  exists body. split_and!; [done| |done].
  intros Hin. apply Hcr. apply list_elem_of_join. exists l. split; [|done].
  destruct Hshape as [->|[-> _]]; [|done]. apply elem_of_app. by left.
Qed.

(** X11: the lines that the builders read, put together again, are the
    content of the file with [\r\n] and [\r] turned into [\n]; every line
    has no line break inside, and ends in [\n] or is the non-empty last
    line of a file without final line break. *)
Theorem X11_readlines (content : str) :
  mjoin (readlines content) = universal_newlines content
  ∧ Forall (λ l, ∃ body, (10%N ∉ body) ∧ (13%N ∉ body)
                   ∧ (l = body ++ [10%N] ∨ (l = body ∧ body ≠ [])))
      (readlines content).
Proof. split; [apply split_lines_join|apply readlines_shape]. Qed.

Lemma lstrip_suffix s : lstrip s `suffix_of` s.
Proof.
  induction s as [|c s IH]; simpl; [done|].
  destruct (isspace c); [by apply suffix_cons_r|done].
Qed.

Lemma lstrip_head s c : head (lstrip s) = Some c → isspace c = false.
Proof.
  induction s as [|c0 s IH]; simpl; [done|].
  destruct (isspace c0) eqn:Hc0; [done|]. simpl. by intros [= <-].
Qed.

Lemma rstrip_prefix s : rstrip s `prefix_of` s.
Proof.
  unfold rstrip. destruct (lstrip_suffix (rev s)) as [k Hk].
  exists (rev k). apply (f_equal (@rev N)) in Hk.
  by rewrite rev_involutive, rev_app_distr in Hk.
Qed.

Lemma last_rev_head (s : str) : last (rev s) = head s.
Proof. destruct s as [|c s]; [done|]. simpl. by rewrite last_snoc. Qed.

Lemma rstrip_last s c : last (rstrip s) = Some c → isspace c = false.
Proof. unfold rstrip. rewrite last_rev_head. apply lstrip_head. Qed.

Lemma lstrip_snoc s c :
  ¬ all_space s → lstrip (s ++ [c]) = lstrip s ++ [c].
Proof.
  unfold all_space. induction s as [|c0 s IH]; intros Hs; simpl.
  - destruct Hs. constructor.
  - destruct (isspace c0) eqn:Hc0; [|done].
    apply IH. intros Hall. apply Hs. by constructor.
Qed.

Lemma strip_snoc_space s c : isspace c = true → strip (s ++ [c]) = strip s.
Proof.
  intros Hc. unfold strip. destruct (decide (all_space s)) as [Hs|Hs].
  - assert (Hs' : all_space (s ++ [c])).
    { apply Forall_app. split; [done|]. by repeat constructor. }
    apply lstrip_nil in Hs, Hs'. by rewrite Hs, Hs'.
  - rewrite lstrip_snoc by done. unfold rstrip.
    rewrite rev_app_distr. simpl. by rewrite Hc.
Qed.

Lemma strip_elem s c : c ∈ strip s → c ∈ s.
Proof.
  intros Hc. unfold strip in Hc.
  destruct (rstrip_prefix (lstrip s)) as [k Hk].
  destruct (lstrip_suffix s) as [k' Hk'].
  rewrite Hk', Hk, !elem_of_app. auto.
Qed.

Lemma strip_clean_ends s :
  strip s ≠ [] →
  (∃ c, head (strip s) = Some c ∧ isspace c = false)
  ∧ (∃ c, last (strip s) = Some c ∧ isspace c = false).
Proof.
  intros Hne. split.
  - unfold strip in *. destruct (rstrip_prefix (lstrip s)) as [k Hk].
    destruct (rstrip (lstrip s)) as [|c r] eqn:Hr; [done|].
    exists c. split; [done|]. apply (lstrip_head s). by rewrite Hk.
  - destruct (last (strip s)) as [c|] eqn:Hl.
    + exists c. split; [done|]. by apply (rstrip_last (lstrip s)).
    + apply last_None in Hl. done.
Qed.

(** X12: every string that the builders hand to a tokenizer is not
    empty, begins and ends with a character that is not white space, and
    contains neither [\n] nor [\r]. *)
Theorem X12_tokenizer_input (content : str) :
  Forall clean (text_lines (readlines content)).
Proof.
  apply Forall_forall. intros l Hl.
  apply text_lines_elem in Hl as (line & Hin & Hb & ->).
  pose proof (readlines_shape content) as Hshape. rewrite Forall_forall in Hshape.
  destruct (Hshape line Hin) as (body & H10 & H13 & Hline).
  assert (Hne : strip line ≠ []).
  { unfold is_blank in Hb. by destruct (strip line). }
  destruct (strip_clean_ends line Hne) as [Hh Ht].
  assert (Hbody : ∀ c, c ∈ strip line → c ∈ body).
  { intros c Hc. destruct Hline as [->|[-> _]]; [|by apply strip_elem].
    rewrite strip_snoc_space in Hc by done. by apply strip_elem. }
  unfold clean. split_and!; [done|done|..]; intros Hc; apply Hbody in Hc; done.
Qed.

Lemma foldM_strip {St} (step : St → str → result St) :
  (∀ st l l', strip l = strip l' → step st l = step st l') →
  ∀ lines lines' st, map strip lines = map strip lines' →
    foldM step lines st = foldM step lines' st.
Proof.
  intros Hstep lines. induction lines as [|l lines IH]; intros [|l' lines'] st Heq;
    try done.
  injection Heq as Hl Heq. cbn [foldM]. rewrite (Hstep st l l' Hl).
  destruct (step st l') as [st'|e]; [|done]. rewrite !bind_Ok. by apply IH.
Qed.

(** X9: what [nltk_tokenize] and [nlp_process] build, tree or exception,
    depends on the lines only through their stripped form: indentation,
    trailing white space and the line terminator make no difference. *)
Theorem X9_strip_invariance `{Externals} (pl : str) (nlp : Pipeline)
    (stanza_unique : bool) (lines lines' : list str) :
  map strip lines = map strip lines' →
  nltk_tree pl lines = nltk_tree pl lines'
  ∧ nlp_tree nlp stanza_unique lines = nlp_tree nlp stanza_unique lines'.
Proof.
  intros Heq. split.
  - unfold nltk_tree. rewrite nltk_start_eq, !bind_Ok. cbn [fst snd].
    rewrite (foldM_strip (nltk_line pl 0)) with (lines' := lines'); [done| |done].
    intros st l l' Hl. unfold nltk_line. by rewrite Hl.
  - unfold nlp_tree. rewrite nlp_start_eq, !bind_Ok. cbn [fst snd].
    rewrite (foldM_strip (nlp_line nlp stanza_unique 0)) with (lines' := lines');
      [done| |done].
    intros st l l' Hl. unfold nlp_line. by rewrite Hl.
Qed.

Lemma X9_witness :
  map strip [py "Mr Smith left." ++ nl; nl] = map strip [py "  Mr Smith left."; py " "]
  ∧ @nltk_tree demo (py "english") [py "Mr Smith left." ++ nl; nl]
    = @nltk_tree demo (py "english") [py "  Mr Smith left."; py " "]
  ∧ nlp_tree demo_nlp false [py "Mr Smith left." ++ nl; nl]
    = nlp_tree demo_nlp false [py "  Mr Smith left."; py " "].
Proof.
  split; [reflexivity|].
  apply (@X9_strip_invariance demo (py "english") demo_nlp false
           [py "Mr Smith left." ++ nl; nl] [py "  Mr Smith left."; py " "]).
  reflexivity.
Defined.

(** ** Quoting for the shell *)

Lemma quote_body_snoc_inj s1 s2 :
  quote_body s1 ++ [39%N] = quote_body s2 ++ [39%N] → s1 = s2.
Proof.
  intros Heq. apply app_inj_tail in Heq as [Heq _]. revert s2 Heq.
  induction s1 as [|c1 s1 IH]; intros [|c2 s2] Heq; simpl in Heq.
  - done.
  - destruct (c2 =? 39)%N; done.
  - destruct (c1 =? 39)%N; done.
  - destruct (N.eqb_spec c1 39) as [->|H1], (N.eqb_spec c2 39) as [->|H2];
      simpl in Heq; simplify_eq.
    + f_equal. by apply IH.
    + f_equal. by apply IH.
Qed.

Lemma shlex_quote_cases s :
  (s = [] ∧ shlex_quote s = [39; 39]%N)
  ∨ (s ≠ [] ∧ forallb is_safe s = true ∧ shlex_quote s = s)
  ∨ (s ≠ [] ∧ forallb is_safe s = false
     ∧ shlex_quote s = 39%N :: quote_body s ++ [39%N]).
Proof.
  destruct s as [|c s]; [by left|]. right. unfold shlex_quote.
  destruct (forallb is_safe (c :: s)) eqn:Hs; [by left|by right].
Qed.

Lemma safe_head c s : forallb is_safe (c :: s) = true → c ≠ 39%N.
Proof. simpl. intros Hs ->. done. Qed.

Lemma quote_body_cons_snoc c s : quote_body (c :: s) ++ [39%N] ≠ [39%N].
Proof.
  unfold quote_body. cbn [flat_map].
  destruct (N.eqb_spec c 39) as [->|Hc]; [done|].
  cbn [app]. intros Heq. injection Heq as Hc' _. done.
Qed.

Lemma shlex_quote_inj (s1 s2 : str) :
  shlex_quote s1 = shlex_quote s2 → s1 = s2.
Proof.
  destruct (shlex_quote_cases s1) as [[-> ->]|[(Hn1 & Hs1 & ->)|(Hn1 & Hs1 & ->)]],
    (shlex_quote_cases s2) as [[-> ->]|[(Hn2 & Hs2 & ->)|(Hn2 & Hs2 & ->)]];
    intros Heq; try done.
  - subst. done.
  - destruct s2 as [|c s2]; [done|]. injection Heq as Heq.
    exfalso. apply (quote_body_cons_snoc c s2). symmetry. exact Heq.
  - subst. done.
  - destruct s1 as [|c s1]; [done|]. apply safe_head in Hs1. by simplify_eq.
  - destruct s1 as [|c s1]; [done|]. injection Heq as Heq.
    exfalso. apply (quote_body_cons_snoc c s1). exact Heq.
  - destruct s2 as [|c s2]; [done|]. apply safe_head in Hs2. by simplify_eq.
  - injection Heq as Heq. by apply quote_body_snoc_inj.
Qed.

(** X18: [shlex.quote], with which [uplug_tokenize] puts the file names
    into its command, never maps two file names to the same shell
    word. *)
Theorem X18_shlex_quote_distinct (file1 file2 : str) :
  file1 ≠ file2 → shlex_quote file1 ≠ shlex_quote file2.
Proof. intros Hne Heq. by apply Hne, shlex_quote_inj. Qed.

Lemma X18_witness :
  py "my file.txt" ≠ py "my  file.txt"
  ∧ shlex_quote (py "my file.txt") ≠ shlex_quote (py "my  file.txt").
Proof.
  assert (Hne : py "my file.txt" ≠ py "my  file.txt") by done.
  split; [exact Hne|]. exact (X18_shlex_quote_distinct _ _ Hne).
Defined.
